(** * The LES server pool: node weight, redial backoff and node state

    A shallow embedding of [les/serverpool.go] (the server pool of the light
    client) together with the parts of the node state machine it drives, and
    the properties of the natural-language specification checked against it.
    Further on: the integer utilities of package [math], the persistent clock
    of the pool, the JSON decoding of [Genesis] and the dashboard's
    [appender], each with the properties its code shows.

    Numbers are modelled as the Go code has them: [int64] and [uint64] values
    are integers in [Z] with the wrap-around written out, [float64] values are
    IEEE 754 binary64 numbers ([spec_float] with precision 53 and maximal
    exponent 1024), durations and absolute times are [int64] nanoseconds. *)

From stdpp Require Import base option list gmap strings pretty.
From Stdlib Require Import ZArith Lia Bool.
From Stdlib Require Import Floats.SpecFloat.
From Stdlib Require Import Strings.Byte Strings.Ascii.

Local Open Scope Z_scope.

(** ** Machine integers *)

(** Two's complement wrap-around of [int64] arithmetic. *)
Definition wrap64 (z : Z) : Z := (z + 2 ^ 63) mod 2 ^ 64 - 2 ^ 63.

(** Wrap-around of [uint64] arithmetic. *)
Definition wrapU64 (z : Z) : Z := z mod 2 ^ 64.

Definition is_int64 (z : Z) : bool := (- 2 ^ 63 <=? z) && (z <? 2 ^ 63).
Definition is_uint64 (z : Z) : bool := (0 <=? z) && (z <? 2 ^ 64).

(** ** Binary64 floating point *)

Module F64.

Definition prec : Z := 53.
Definition emax : Z := 1024.

Definition mul : spec_float -> spec_float -> spec_float := SFmul prec emax.
Definition div : spec_float -> spec_float -> spec_float := SFdiv prec emax.
Definition ltb : spec_float -> spec_float -> bool := SFltb.
Definition leb : spec_float -> spec_float -> bool := SFleb.
Definition valid : spec_float -> bool := valid_binary prec emax.

(** [float64(z)] for an integer [z]: rounded to nearest, ties to even. *)
Definition of_Z (z : Z) : spec_float := binary_normalize prec emax z 0 false.

Definition is_nan (f : spec_float) : bool :=
  match f with S754_nan => true | _ => false end.

(** The integer below the magnitude [m * 2^e], then the sign: truncation
    towards zero, as Go converts a float to an integer. *)
Definition trunc (f : spec_float) : option Z :=
  match f with
  | S754_zero _ => Some 0
  | S754_finite s m e =>
      let a := match e with
               | Zneg k => Zpos m / 2 ^ Zpos k
               | _ => Zpos m * 2 ^ e
               end in
      Some (if s then - a else a)
  | _ => None
  end.

(** The greatest integer not above the value. *)
Definition floor (f : spec_float) : option Z :=
  match f with
  | S754_zero _ => Some 0
  | S754_finite s m e =>
      let sm := if s then Zneg m else Zpos m in
      Some match e with
           | Zneg k => sm / 2 ^ Zpos k
           | _ => sm * 2 ^ e
           end
  | _ => None
  end.

Definition zero : spec_float := S754_zero false.
Definition one : spec_float := Eval vm_compute in of_Z 1.
Definition two : spec_float := Eval vm_compute in of_Z 2.
Definition ten : spec_float := Eval vm_compute in of_Z 10.
Definition c256 : spec_float := Eval vm_compute in of_Z 256.
(** The literals [0.1] and [0.5]. *)
Definition c0_1 : spec_float := Eval vm_compute in div (of_Z 1) (of_Z 10).
Definition c0_5 : spec_float := Eval vm_compute in div (of_Z 1) (of_Z 2).

End F64.

(** ** Shapes of binary64 numbers *)

(** A zero, a finite number or an infinity of sign [s]. *)
Definition signed_number (s : bool) (f : spec_float) : Prop :=
  f = S754_zero s \/ f = S754_infinity s \/ exists m e, f = S754_finite s m e.

(** The mantissa of a normal number: 53 binary digits. *)
Definition normal (m : positive) : Prop := 2 ^ 52 <= Z.pos m < 2 ^ 53.

(** Plus infinity, or a positive normal number with exponent at least
    [emin]. *)
Definition at_least (emin : Z) (x : spec_float) : Prop :=
  x = S754_infinity false
  \/ exists m e, x = S754_finite false m e /\ normal m /\ emin <= e.

(** ** Constants of the server pool (serverpool.go, lines 37-46) *)

Definition millisecond : Z := 1000000.
Definition second : Z := 1000000000.

Definition minTimeout : Z := millisecond * 500.
Definition timeoutRefresh : Z := second * 5.
Definition timeoutChangeThreshold : Z := millisecond * 10.
Definition dialCost : Z := 10000.
Definition nodeWeightMul : Z := 1000000.
Definition nodeWeightThreshold : Z := 100.
Definition redialWaitStep : Z := 2.
Definition minRedialWait : Z := second * 10.

(** The same constants where the code uses them as [float64] operands. *)
Definition dialCost_f : spec_float := Eval vm_compute in F64.of_Z dialCost.
Definition nodeWeightMul_f : spec_float := Eval vm_compute in F64.of_Z nodeWeightMul.
Definition redialWaitStep_f : spec_float := Eval vm_compute in F64.of_Z redialWaitStep.
Definition minRedialWait_f : spec_float := Eval vm_compute in F64.of_Z minRedialWait.

(** ** Data of the server pool *)

Definition NodeID := Z.

(** [utils.ExpiredValue]: a base value and the exponent it is scaled by. *)
Record ExpiredValue := { Base : Z; Exp : Z }.

(** [nodeHistory] (lines 75-81). *)
Record nodeHistory := {
  nh_dialCost : ExpiredValue;
  nh_waitUntil : Z;
  nh_lastTimeout : Z;
  nh_totalValue : spec_float;
  nh_waitFactor : spec_float
}.

(** [nodeHistoryEnc] (lines 83-86). *)
Record nodeHistoryEnc := {
  DialCost : ExpiredValue;
  WaitFactor : Z;
  WaitUntil : Z
}.

(** The zero value of [nodeHistory], what a failed type assertion yields. *)
Definition nodeHistory_zero : nodeHistory :=
  {| nh_dialCost := {| Base := 0; Exp := 0 |};
     nh_waitUntil := 0;
     nh_lastTimeout := 0;
     nh_totalValue := F64.zero;
     nh_waitFactor := F64.zero |}.

Inductive error := errInvalidField | errAfterStop | errRlp.

(** Items of the RLP serialisation: byte strings read as unsigned integers,
    and lists. *)
#[warnings="-register-all"]
Inductive rlpValue :=
| RUint (z : Z)
| RList (l : list rlpValue).

(** ** The collaborators of the pool

    The response-time statistics, the value tracker, the expiring
    accumulator's arithmetic and the RLP codec are packages of the repository
    outside this development; the pool sees them through the operations
    below.  The two [*_undef] functions give the result of converting a
    float that the integer type cannot hold, which Go leaves to the
    implementation. *)

Class Externals := {
  ResponseTimeStats : Type;
  ResponseTimeWeights : Type;
  ExpirationFactor : Type;
  ValueTracker : Type;
  (* lpc.ResponseTimeStats *)
  Stats_Value : ResponseTimeStats -> ResponseTimeWeights -> ExpirationFactor -> spec_float;
  Stats_SubStats : ResponseTimeStats -> ResponseTimeStats -> ResponseTimeStats;
  Stats_Add : ResponseTimeStats -> Z -> spec_float -> ExpirationFactor -> ResponseTimeStats;
  Stats_Timeout : ResponseTimeStats -> spec_float -> Z;
  TimeoutWeights : Z -> ResponseTimeWeights;
  (* utils.ExpiredValue *)
  ExpiredValue_Add : ExpiredValue -> Z -> Z -> ExpiredValue;
  ExpiredValue_Value : ExpiredValue -> Z -> Z;
  (* lpc.ValueTracker; [vt_GetNode] answers with the node's statistics *)
  vt_GetNode : ValueTracker -> NodeID -> option ResponseTimeStats;
  vt_RtStats : ValueTracker -> ResponseTimeStats;
  vt_StatsExpFactor : ValueTracker -> ExpirationFactor;
  vt_LogOffset : ValueTracker -> Z -> Z;
  vt_Register : ValueTracker -> NodeID -> ValueTracker * ResponseTimeStats;
  vt_Unregister : ValueTracker -> NodeID -> ValueTracker;
  (* rlp *)
  rlp_EncodeToBytes : rlpValue -> list byte;
  rlp_DecodeBytes : list byte -> option rlpValue;
  (* what a failed [rlp.DecodeBytes] has left in a [uint64] it decodes into *)
  rlp_uint64_left : list byte -> Z;
  (* float to integer conversions out of range *)
  uint64_undef : spec_float -> Z;
  int64_undef : spec_float -> Z
}.

Section Model.

Context `{Ext : Externals}.

(** [uint64(f)]. *)
Definition to_uint64 (f : spec_float) : Z :=
  match F64.trunc f with
  | Some z => if is_uint64 z then z else wrapU64 (uint64_undef f)
  | None => wrapU64 (uint64_undef f)
  end.

(** [int64(f)], also [time.Duration(f)]. *)
Definition to_int64 (f : spec_float) : Z :=
  match F64.trunc f with
  | Some z => if is_int64 z then z else wrap64 (int64_undef f)
  | None => wrap64 (int64_undef f)
  end.

(** ** Field values and their definitions *)

(** The dynamic values a node field holds ([interface{}] in the code). *)
Inductive fieldValue :=
| FvNodeHistory (n : nodeHistory)
| FvStats (rs : ResponseTimeStats)
| FvUint64 (u : Z)
| FvString (s : string)
| FvInt (i : Z).

Inductive fieldType := TNodeHistory | TStats | TUint64 | TString | TInt | TUint32.

Definition typeOf (v : fieldValue) : fieldType :=
  match v with
  | FvNodeHistory _ => TNodeHistory
  | FvStats _ => TStats
  | FvUint64 _ => TUint64
  | FvString _ => TString
  | FvInt _ => TInt
  end.

Definition fieldType_eqb (a b : fieldType) : bool :=
  match a, b with
  | TNodeHistory, TNodeHistory | TStats, TStats | TUint64, TUint64
  | TString, TString | TInt, TInt | TUint32, TUint32 => true
  | _, _ => false
  end.

Record flagDefinition := { flagName : string; flagPersistent : bool }.

Definition Encoder := fieldValue -> list byte * option error.
Definition Decoder := list byte -> option fieldValue * option error.

Record fieldDefinition := {
  fieldName : string;
  fieldFtype : fieldType;
  fieldCodec : option (Encoder * Decoder)
}.

Definition NewFlag (name : string) : flagDefinition :=
  {| flagName := name; flagPersistent := false |}.
Definition NewPersistentFlag (name : string) : flagDefinition :=
  {| flagName := name; flagPersistent := true |}.
Definition NewField (name : string) (ftype : fieldType) : fieldDefinition :=
  {| fieldName := name; fieldFtype := ftype; fieldCodec := None |}.
Definition NewPersistentField (name : string) (ftype : fieldType)
    (encode : Encoder) (decode : Decoder) : fieldDefinition :=
  {| fieldName := name; fieldFtype := ftype; fieldCodec := Some (encode, decode) |}.

Record Setup := { Flags : list flagDefinition; Fields : list fieldDefinition }.

(** ** The node state machine

    [utils.NodeStateMachine] is a package of the repository outside this
    development; the pool drives it through the operations below. *)

(** The position of the first element of [l] called [name]. *)
Fixpoint nameIndex {A} (nameOf : A -> string) (name : string) (l : list A)
    : option nat :=
  match l with
  | [] => None
  | x :: l' =>
      if String.eqb (nameOf x) name then Some O
      else match nameIndex nameOf name l' with
           | Some i => Some (S i)
           | None => None
           end
  end.

Definition flagIndex : string -> list flagDefinition -> option nat :=
  nameIndex flagName.
Definition fieldIndex : string -> list fieldDefinition -> option nat :=
  nameIndex fieldName.

(** Modelled from the spec: [StateMask] ("Registration assigns a bitmask
    position"); the state machine's source is not part of the sources at hand.
    The flag at position [i] of the setup owns bit [i]. *)
Definition StateMask (s : Setup) (f : flagDefinition) : Z :=
  match flagIndex (flagName f) (Flags s) with
  | Some i => Z.shiftl 1 (Z.of_nat i)
  | None => 0
  end.

(** Modelled from the spec: [StatesMask], the union of the masks of a list of
    flags; the state machine's source is not part of the sources at hand. *)
Definition StatesMask (s : Setup) (fs : list flagDefinition) : Z :=
  fold_right (fun f acc => Z.lor (StateMask s f) acc) 0 fs.

(** Modelled from the spec: [FieldIndex], the position of a field in the
    setup, or -1; the state machine's source is not part of the sources at
    hand. *)
Definition FieldIndex (s : Setup) (f : fieldDefinition) : Z :=
  match fieldIndex (fieldName f) (Fields s) with
  | Some i => Z.of_nat i
  | None => -1
  end.

(** Modelled from the spec: a tracked node ("flagBits, field values"); the
    state machine's source is not part of the sources at hand.  Its state
    bitmask, the pending flag expirations (mask and
    deadline), its field values by index, and the persisted fields whose
    names the current setup does not know. *)
Record nodeInfo := {
  ni_state : Z;
  ni_timeouts : list (Z * Z);
  ni_fields : gmap Z fieldValue;
  ni_opaque : list (string * list byte)
}.

(** Modelled from the spec: a persisted node ("Persistence is keyed by flag
    and field name"); the state machine's source is not part of the sources
    at hand.  The names of its persistent flags and the encodings of
    its persistent fields, keyed by name. *)
Record nodeInfoEnc := {
  enc_flags : list string;
  enc_fields : list (string * list byte)
}.

(** Modelled from the spec: the state machine, its tracked nodes, the nodes
    marked for saving, the database and whether it was stopped; the state
    machine's source is not part of the sources at hand. *)
Record NodeStateMachine := {
  ns_setup : Setup;
  ns_nodes : gmap NodeID nodeInfo;
  ns_dirty : gset NodeID;
  ns_db : gmap NodeID nodeInfoEnc;
  ns_stopped : bool
}.

Definition nodeInfo_empty : nodeInfo :=
  {| ni_state := 0; ni_timeouts := []; ni_fields := ∅; ni_opaque := [] |}.

Definition set_nodes (ns : NodeStateMachine) (m : gmap NodeID nodeInfo) : NodeStateMachine :=
  {| ns_setup := ns_setup ns; ns_nodes := m; ns_dirty := ns_dirty ns;
     ns_db := ns_db ns; ns_stopped := ns_stopped ns |}.

(** Modelled from the spec: the new state of [SetState], "atomically clears
    resetMask bits and sets setMask bits"; the state machine's source is not
    part of the sources at hand. *)
Definition updateState (old setMask resetMask : Z) : Z :=
  Z.lor (Z.land old (Z.lnot resetMask)) setMask.

(** The bits some pending timer will clear. *)
Definition timedMask (ts : list (Z * Z)) : Z :=
  fold_right (fun t acc => Z.lor (fst t) acc) 0 ts.

(** Modelled from the spec: what is persisted of a node ("flagBits (subset
    persisted), field encodings keyed by name"; a flag set with a timeout is
    not saved); the state machine's source is not part of the sources at
    hand. *)
Definition storedState (ni : nodeInfo) : Z :=
  Z.land (ni_state ni) (Z.lnot (timedMask (ni_timeouts ni))).

(** Modelled from the spec: the names of the persistent flags saved for a
    node; the state machine's source is not part of the sources at hand. *)
Definition savedFlags (s : Setup) (ni : nodeInfo) : list string :=
  flagName <$>
    filter (fun f => flagPersistent f = true
                     /\ Z.land (storedState ni) (StateMask s f) <> 0)
           (Flags s).

(** Modelled from the spec: the saved form of one field, present when the
    field has a codec, holds a value and encodes without error; the state
    machine's source is not part of the sources at hand. *)
Definition encodeField (ni : nodeInfo) (i : nat) (fd : fieldDefinition)
    : option (string * list byte) :=
  match fieldCodec fd, ni_fields ni !! Z.of_nat i with
  | Some (encode, _), Some v =>
      match encode v with
      | (blob, None) => Some (fieldName fd, blob)
      | (_, Some _) => None
      end
  | _, _ => None
  end.

(** The encodings of the fields [l], which sit at the indices from [i] on. *)
Fixpoint encodeFields (ni : nodeInfo) (i : nat) (l : list fieldDefinition)
    : list (string * list byte) :=
  match l with
  | [] => []
  | fd :: l' =>
      match encodeField ni i fd with
      | Some e => e :: encodeFields ni (S i) l'
      | None => encodeFields ni (S i) l'
      end
  end.

(** Modelled from the spec: the saved fields of a node, the opaque ones
    carried along; the state machine's source is not part of the sources at
    hand. *)
Definition savedFields (s : Setup) (ni : nodeInfo) : list (string * list byte) :=
  encodeFields ni 0 (Fields s) ++ ni_opaque ni.

(** Modelled from the spec: the record written for a node, none when nothing
    of it is persistent; the state machine's source is not part of the
    sources at hand. *)
Definition saveNode (s : Setup) (ni : nodeInfo) : option nodeInfoEnc :=
  match savedFlags s ni, savedFields s ni with
  | [], [] => None
  | fl, fs => Some {| enc_flags := fl; enc_fields := fs |}
  end.

(** Modelled from the spec: [GetField] ("returns the current value, or nil if
    unset or the node is not tracked"); the state machine's source is not
    part of the sources at hand. *)
Definition GetField (ns : NodeStateMachine) (id : NodeID) (idx : Z) : option fieldValue :=
  match ns_nodes ns !! id with
  | Some ni => ni_fields ni !! idx
  | None => None
  end.

Definition fieldAt (s : Setup) (idx : Z) : option fieldDefinition :=
  if idx <? 0 then None else Fields s !! Z.to_nat idx.

(** Modelled from the spec: [SetField] ("A field can only be set on a node
    that currently has at least one flag bit set; otherwise the write is
    discarded without error. Type mismatch returns an invalid field error.
    Setting to nil clears the field."); the state machine's source is not
    part of the sources at hand. *)
Definition SetField (ns : NodeStateMachine) (id : NodeID) (idx : Z)
    (v : option fieldValue) : NodeStateMachine * option error :=
  if ns_stopped ns then (ns, Some errAfterStop)
  else
    match fieldAt (ns_setup ns) idx with
    | None => (ns, Some errInvalidField)
    | Some fd =>
        let ok := match v with
                  | Some x => fieldType_eqb (typeOf x) (fieldFtype fd)
                  | None => true
                  end in
        if negb ok then (ns, Some errInvalidField)
        else
          match ns_nodes ns !! id with
          | None => (ns, None)
          | Some ni =>
              if ni_state ni =? 0 then (ns, None)
              else
                let fs := match v with
                          | Some x => <[idx := x]> (ni_fields ni)
                          | None => delete idx (ni_fields ni)
                          end in
                (set_nodes ns (<[id := {| ni_state := ni_state ni;
                                          ni_timeouts := ni_timeouts ni;
                                          ni_fields := fs;
                                          ni_opaque := ni_opaque ni |}]> (ns_nodes ns)),
                 None)
          end
    end.

(** The timers left after a [SetState] that touches the bits of [touched]. *)
Definition cancelTimers (touched : Z) (ts : list (Z * Z)) : list (Z * Z) :=
  filter (fun t => fst t <> 0)
         ((fun t => (Z.land (fst t) (Z.lnot touched), snd t)) <$> ts).

(** Modelled from the spec: [SetState] ("atomically clears resetMask bits and
    sets setMask bits. If timeout > 0, a timer is scheduled [...] A later
    SetState on the same node cancels earlier pending timers for any bits it
    touches. No effect if the resulting state equals the prior state", and
    "Unsetting the last flag removes the node from memory; if persistent data
    remains it is flushed first"); the state machine's source is not part of
    the sources at hand.  [now] is the reading of the machine's clock. *)
Definition SetState (ns : NodeStateMachine) (now : Z) (id : NodeID)
    (setMask resetMask timeout : Z) : NodeStateMachine :=
  if ns_stopped ns then ns
  else
    let ni := match ns_nodes ns !! id with
              | Some ni => ni
              | None => nodeInfo_empty
              end in
    let new := updateState (ni_state ni) setMask resetMask in
    if new =? ni_state ni then ns
    else
      let kept := cancelTimers (Z.lor setMask resetMask) (ni_timeouts ni) in
      let timers := if 0 <? timeout then (setMask, wrap64 (now + timeout)) :: kept
                    else kept in
      let ni' := {| ni_state := new; ni_timeouts := timers;
                    ni_fields := ni_fields ni; ni_opaque := ni_opaque ni |} in
      if new =? 0 then
        {| ns_setup := ns_setup ns;
           ns_nodes := delete id (ns_nodes ns);
           ns_dirty := ns_dirty ns ∖ {[ id ]};
           ns_db := match saveNode (ns_setup ns) ni' with
                    | Some r => <[id := r]> (ns_db ns)
                    | None => delete id (ns_db ns)
                    end;
           ns_stopped := false |}
      else set_nodes ns (<[id := ni']> (ns_nodes ns)).

(** Modelled from the spec: the expiry of a timer ("on expiry, exactly the
    bits set by this call (intersected with the node's then-current state) are
    cleared"); the state machine's source is not part of the sources at
    hand. *)
Definition expireTimer (ns : NodeStateMachine) (now : Z) (id : NodeID) (mask : Z)
    : NodeStateMachine :=
  SetState ns now id 0 mask 0.

(** Modelled from the spec: [Persist] ("marks the node dirty"); the state
    machine's source is not part of the sources at hand. *)
Definition Persist (ns : NodeStateMachine) (id : NodeID) : NodeStateMachine :=
  {| ns_setup := ns_setup ns; ns_nodes := ns_nodes ns;
     ns_dirty := ns_dirty ns ∪ {[ id ]};
     ns_db := ns_db ns; ns_stopped := ns_stopped ns |}.

(** Modelled from the spec: [Stop] writes the persistent flags and fields of
    every tracked node and refuses further mutations; the state machine's
    source is not part of the sources at hand. *)
Definition Stop (ns : NodeStateMachine) : NodeStateMachine :=
  {| ns_setup := ns_setup ns;
     ns_nodes := ns_nodes ns;
     ns_dirty := ∅;
     ns_db := merge (fun n d => match n with
                                | Some ni => saveNode (ns_setup ns) ni
                                | None => d
                                end) (ns_nodes ns) (ns_db ns);
     ns_stopped := true |}.

(** The state bits a persisted record restores under setup [s]: names are
    resolved to the masks of the current setup. *)
Definition loadFlags (s : Setup) (names : list string) : Z :=
  fold_right (fun name acc =>
                match flagIndex name (Flags s) with
                | Some i => Z.lor (Z.shiftl 1 (Z.of_nat i)) acc
                | None => acc
                end) 0 names.

(** The decoder registered under [name], with the field's current index. *)
Definition decoderOf (s : Setup) (name : string) : option (Z * Decoder) :=
  match fieldIndex name (Fields s) with
  | Some i =>
      match Fields s !! i with
      | Some fd =>
          match fieldCodec fd with
          | Some (_, decode) => Some (Z.of_nat i, decode)
          | None => None
          end
      | None => None
      end
  | None => None
  end.

(** Modelled from the spec: the fields a persisted record restores, and the
    blobs of unknown name it keeps; the state machine's source is not part of
    the sources at hand. *)
Fixpoint loadFields (s : Setup) (l : list (string * list byte))
    : gmap Z fieldValue * list (string * list byte) :=
  match l with
  | [] => (∅, [])
  | (name, blob) :: l' =>
      let '(fs, opaque) := loadFields s l' in
      match decoderOf s name with
      | Some (i, decode) =>
          match decode blob with
          | (Some v, None) => (<[i := v]> fs, opaque)
          | _ => (fs, opaque)
          end
      | None => (fs, (name, blob) :: opaque)
      end
  end.

(** Modelled from the spec: loading a persisted node ("On load, names are
    resolved to current indices; unknown names are retained as opaque
    blobs"); the state machine's source is not part of the sources at hand. *)
Definition loadNode (s : Setup) (r : nodeInfoEnc) : nodeInfo :=
  let '(fs, opaque) := loadFields s (enc_fields r) in
  {| ni_state := loadFlags s (enc_flags r);
     ni_timeouts := [];
     ni_fields := fs;
     ni_opaque := opaque |}.

(** Modelled from the spec: [NewNodeStateMachine] over a database and a setup,
    then [Start] ("load persisted nodes, replay their persistent flags into
    memory, and restore persistent fields"); the state machine's source is
    not part of the sources at hand. *)
Definition NewNodeStateMachine (db : gmap NodeID nodeInfoEnc) (s : Setup)
    : NodeStateMachine :=
  {| ns_setup := s; ns_nodes := ∅; ns_dirty := ∅; ns_db := db;
     ns_stopped := false |}.

(** Modelled from the spec: [Start], which loads every persisted node; the
    state machine's source is not part of the sources at hand. *)
Definition Start (ns : NodeStateMachine) : NodeStateMachine :=
  set_nodes ns (loadNode (ns_setup ns) <$> ns_db ns).

(** ** The server pool *)

(** The RLP shape of [nodeHistoryEnc]: a list of the struct's fields, the
    nested [ExpiredValue] struct a list again. *)
Definition rlpOfEnc (ne : nodeHistoryEnc) : rlpValue :=
  RList [RList [RUint (Base (DialCost ne)); RUint (Exp (DialCost ne))];
         RUint (WaitFactor ne); RUint (WaitUntil ne)].

Definition encOfRlp (v : rlpValue) : option nodeHistoryEnc :=
  match v with
  | RList [RList [RUint b; RUint e]; RUint wf; RUint wu] =>
      Some {| DialCost := {| Base := b; Exp := e |}; WaitFactor := wf; WaitUntil := wu |}
  | _ => None
  end.

Definition nodeHistoryEnc_zero : nodeHistoryEnc :=
  {| DialCost := {| Base := 0; Exp := 0 |}; WaitFactor := 0; WaitUntil := 0 |}.

(** The encoder of [sfiNodeHistory] (lines 101-114). *)
Definition nodeHistoryEncode : Encoder := fun field =>
  match field with
  | FvNodeHistory n =>
      let ne := {| DialCost := nh_dialCost n;
                   WaitFactor := to_uint64 (F64.mul (nh_waitFactor n) F64.c256);
                   WaitUntil := wrapU64 (nh_waitUntil n) |} in
      (rlp_EncodeToBytes (rlpOfEnc ne), None)
  | _ => ([], Some errInvalidField)
  end.

(** The decoder of [sfiNodeHistory] (lines 115-125).  When the bytes do not
    decode, [ne] is left at its zero value. *)
Definition nodeHistoryDecode : Decoder := fun enc =>
  let '(ne, err) :=
    match rlp_DecodeBytes enc with
    | Some v =>
        match encOfRlp v with
        | Some ne => (ne, None)
        | None => (nodeHistoryEnc_zero, Some errRlp)
        end
    | None => (nodeHistoryEnc_zero, Some errRlp)
    end in
  let n := {| nh_dialCost := DialCost ne;
              nh_waitUntil := wrap64 (WaitUntil ne);
              nh_lastTimeout := 0;
              nh_totalValue := F64.zero;
              nh_waitFactor := F64.div (F64.of_Z (WaitFactor ne)) F64.c256 |} in
  (Some (FvNodeHistory n), err).

Definition sfHasValue : flagDefinition := NewPersistentFlag "hasValue".
Definition sfSelected : flagDefinition := NewFlag "selected".
Definition sfDialed : flagDefinition := NewFlag "dialed".
Definition sfConnected : flagDefinition := NewFlag "connected".
Definition sfRedialWait : flagDefinition := NewFlag "redialWait".
Definition sfAlwaysConnect : flagDefinition := NewFlag "alwaysConnect".

Definition disableSelection : list flagDefinition :=
  [sfSelected; sfDialed; sfConnected; sfRedialWait].

Definition sfiNodeHistory : fieldDefinition :=
  NewPersistentField "nodeHistory" TNodeHistory nodeHistoryEncode nodeHistoryDecode.
Definition sfiConnectedStats : fieldDefinition :=
  NewField "connectedStats" TStats.

Definition serverPoolSetup : Setup :=
  {| Flags := [sfHasValue; sfSelected; sfDialed; sfConnected; sfRedialWait; sfAlwaysConnect];
     Fields := [sfiNodeHistory; sfiConnectedStats] |}.

(** The masks and indices [newServerPool] obtains from the state machine
    (lines 147-155 and 177), which is built over [serverPoolSetup]. *)
Definition stHasValue : Z := StateMask serverPoolSetup sfHasValue.
Definition stSelected : Z := StateMask serverPoolSetup sfSelected.
Definition stDialed : Z := StateMask serverPoolSetup sfDialed.
Definition stConnected : Z := StateMask serverPoolSetup sfConnected.
Definition stRedialWait : Z := StateMask serverPoolSetup sfRedialWait.
Definition stAlwaysConnect : Z := StateMask serverPoolSetup sfAlwaysConnect.
Definition stDisableSelection : Z := StatesMask serverPoolSetup disableSelection.
Definition nodeHistoryField : Z := FieldIndex serverPoolSetup sfiNodeHistory.
Definition connStatsField : Z := FieldIndex serverPoolSetup sfiConnectedStats.

(** [serverPool] (lines 50-71): the fields the weight and wait computation
    reads and writes.  The clock is not a field here: every function takes
    the readings of [s.clock.Now()] it makes as arguments. *)
Record serverPool := {
  sp_clockOffset : Z;
  sp_ns : NodeStateMachine;
  sp_vt : ValueTracker;
  sp_timeout : Z;
  sp_timeWeights : ResponseTimeWeights;
  sp_timeoutRefreshed : Z
}.

Definition set_ns (s : serverPool) (ns : NodeStateMachine) : serverPool :=
  {| sp_clockOffset := sp_clockOffset s; sp_ns := ns; sp_vt := sp_vt s;
     sp_timeout := sp_timeout s; sp_timeWeights := sp_timeWeights s;
     sp_timeoutRefreshed := sp_timeoutRefreshed s |}.

Definition set_vt (s : serverPool) (vt : ValueTracker) : serverPool :=
  {| sp_clockOffset := sp_clockOffset s; sp_ns := sp_ns s; sp_vt := vt;
     sp_timeout := sp_timeout s; sp_timeWeights := sp_timeWeights s;
     sp_timeoutRefreshed := sp_timeoutRefreshed s |}.

(** [getTimeout] (lines 285-311); [now] is the clock reading of line 286. *)
Definition getTimeout (s : serverPool) (now : Z) : Z * serverPool :=
  let timeout := sp_timeout s in
  let refreshed := sp_timeoutRefreshed s in
  if negb (refreshed =? 0) && (wrap64 (now - refreshed) <? timeoutRefresh) then
    (timeout, s)
  else
    let rts := Stats_Add (vt_RtStats (sp_vt s)) (second * 2) F64.ten
                         (vt_StatsExpFactor (sp_vt s)) in
    let timeout := minTimeout in
    let t := Stats_Timeout rts F64.c0_1 in
    let timeout := if t >? timeout then t else timeout in
    let t := wrap64 (Stats_Timeout rts F64.c0_5 * 2) in
    let timeout := if t >? timeout then t else timeout in
    (timeout,
     {| sp_clockOffset := sp_clockOffset s; sp_ns := sp_ns s; sp_vt := sp_vt s;
        sp_timeout := timeout;
        sp_timeWeights := if sp_timeout s =? timeout then sp_timeWeights s
                          else TimeoutWeights timeout;
        sp_timeoutRefreshed := now |}).

(** What [calculateNode] has computed when it reaches the write-back of line
    377: the record [n], the [storeField] flag, the weight and the wait, and
    the pool as [getTimeout] left it. *)
Record calcResult := {
  cr_n : nodeHistory;
  cr_storeField : bool;
  cr_weight : Z;
  cr_wait : Z;
  cr_pool : serverPool
}.

(** The [n] read at line 316: the zero record when the field is unset or
    holds another type. *)
Definition readNodeHistory (s : serverPool) (node : NodeID) : nodeHistory :=
  match GetField (sp_ns s) node nodeHistoryField with
  | Some (FvNodeHistory n) => n
  | _ => nodeHistory_zero
  end.

(** Lines 322-375 and 381-383 of [calculateNode], for a node whose statistics
    [currentStats] the value tracker holds.  [now_lo], [now_to] and [now_w]
    are the clock readings of lines 339, 350 (inside [getTimeout]) and 373. *)
Definition calculateNode_body (s : serverPool) (now_lo now_to now_w : Z)
    (node : NodeID) (currentStats : ResponseTimeStats)
    (failedConnection remoteDisconnect : bool) : calcResult :=
  let n := readNodeHistory s node in
  let timeWeights := sp_timeWeights s in
  let expFactor := vt_StatsExpFactor (sp_vt s) in
  let currentValue :=
    if remoteDisconnect then
      match GetField (sp_ns s) node connStatsField with
      | Some (FvStats connStats) =>
          Stats_Value (Stats_SubStats currentStats connStats) timeWeights expFactor
      | _ => F64.zero
      end
    else F64.zero in
  let logOffset := vt_LogOffset (sp_vt s) now_lo in
  let n_dialCost :=
    if failedConnection || remoteDisconnect
    then ExpiredValue_Add (nh_dialCost n) dialCost logOffset
    else nh_dialCost n in
  let totalDialCost := ExpiredValue_Value n_dialCost logOffset in
  let totalDialCost := if totalDialCost <? dialCost then dialCost else totalDialCost in
  let '(timeout, s1) := getTimeout s now_to in
  let recompute :=
    remoteDisconnect
    || (timeout <? wrap64 (nh_lastTimeout n - timeoutChangeThreshold))
    || (timeout >? wrap64 (nh_lastTimeout n + timeoutChangeThreshold)) in
  let n_totalValue :=
    if recompute then Stats_Value currentStats timeWeights expFactor
    else nh_totalValue n in
  let n_lastTimeout := if recompute then timeout else nh_lastTimeout n in
  let storeField := recompute in
  let '(n_waitFactor, wait, n_waitUntil, storeField) :=
    if failedConnection || remoteDisconnect then
      let a := F64.mul n_totalValue dialCost_f in
      let b := F64.mul (F64.of_Z totalDialCost) currentValue in
      let wf := nh_waitFactor n in
      let wf := if F64.ltb wf F64.one then F64.one else wf in
      let wf := F64.mul wf redialWaitStep_f in
      let wf := if F64.ltb a (F64.mul b wf) then F64.div a b else wf in
      let wf := if F64.ltb wf F64.one then F64.one else wf in
      let wait := to_int64 (F64.mul minRedialWait_f wf) in
      (wf, wait, wrap64 (wrap64 (now_w + sp_clockOffset s) + wait), true)
    else (nh_waitFactor n, 0, nh_waitUntil n, storeField) in
  {| cr_n := {| nh_dialCost := n_dialCost;
                nh_waitUntil := n_waitUntil;
                nh_lastTimeout := n_lastTimeout;
                nh_totalValue := n_totalValue;
                nh_waitFactor := n_waitFactor |};
     cr_storeField := storeField;
     cr_weight := to_uint64 (F64.div (F64.mul n_totalValue nodeWeightMul_f)
                                     (F64.of_Z totalDialCost));
     cr_wait := wait;
     cr_pool := s1 |}.

(** [calculateNode] (lines 314-384): the selection weight and the proposed
    redial wait of a node, and the pool it leaves. *)
Definition calculateNode (s : serverPool) (now_lo now_to now_w : Z)
    (node : NodeID) (failedConnection remoteDisconnect : bool)
    : (Z * Z) * serverPool :=
  match vt_GetNode (sp_vt s) node with
  | None => ((0, 0), s)
  | Some currentStats =>
      let r := calculateNode_body s now_lo now_to now_w node currentStats
                                  failedConnection remoteDisconnect in
      let s1 := cr_pool r in
      let s2 := if cr_storeField r
                then set_ns s1 (fst (SetField (sp_ns s1) node nodeHistoryField
                                              (Some (FvNodeHistory (cr_n r)))))
                else s1 in
      ((cr_weight r, cr_wait r), s2)
  end.

(** The clock readings one call of [calculateNode] makes. *)
Record clockReads := { now_lo : Z; now_to : Z; now_w : Z }.

(** [registerPeer] (lines 261-267); [now] is the state machine's clock. *)
Definition registerPeer (s : serverPool) (now : Z) (node : NodeID) : serverPool :=
  let ns1 := SetState (sp_ns s) now node stConnected stDialed 0 in
  let '(vt1, stats) := vt_Register (sp_vt s) node in
  let ns2 := fst (SetField ns1 node connStatsField (Some (FvStats stats))) in
  set_vt (set_ns s ns2) vt1.

(** [unregisterPeer] (lines 270-280); [now] is the state machine's clock at
    the [SetState] calls. *)
Definition unregisterPeer (s : serverPool) (c : clockReads) (now : Z)
    (node : NodeID) : serverPool :=
  let '((wt, wait), s1) :=
    calculateNode s (now_lo c) (now_to c) (now_w c) node false true in
  let ns1 := fst (SetField (sp_ns s1) node connStatsField None) in
  let ns2 := SetState ns1 now node stRedialWait stConnected wait in
  let ns3 := if wt >=? nodeWeightThreshold
             then Persist (SetState ns2 now node stHasValue 0 0) node
             else ns2 in
  set_vt (set_ns s1 ns3) (vt_Unregister (sp_vt s1) node).

(** The filter of the dial iterator (lines 187-190). *)
Definition dialFilter (s : serverPool) (now : Z) (node : NodeID) : serverPool :=
  set_ns s (SetState (sp_ns s) now node stDialed 0 (second * 10)).


(** [knownSelectWeight] (lines 388-402) for a tracked node: the weight it
    returns, the pool, and whether it has spawned the demotion of lines
    395-398. *)
Definition knownSelectWeight (s : serverPool) (c : clockReads) (n : NodeID)
    : Z * serverPool * bool :=
  match ns_nodes (sp_ns s) !! n with
  | None => (0, s, false)
  | Some _ =>
      let '((wt, _), s1) :=
        calculateNode s (now_lo c) (now_to c) (now_w c) n false false in
      if wt <? nodeWeightThreshold then (0, s1, true) else (wt, s1, false)
  end.

(** The demotion [knownSelectWeight] spawns (lines 396-397). *)
Definition demote (s : serverPool) (now : Z) (n : NodeID) : serverPool :=
  set_ns s (Persist (SetState (sp_ns s) now n 0 stHasValue 0) n).

(** The body of the loop over connected nodes in [stop] (lines 243-249). *)
Definition stopNode (s : serverPool) (c : clockReads) (now : Z) (n : NodeID)
    : serverPool :=
  let '((wt, _), s1) :=
    calculateNode s (now_lo c) (now_to c) (now_w c) n false false in
  if wt >=? nodeWeightThreshold
  then set_ns s1 (Persist (SetState (sp_ns s1) now n stHasValue 0 0) n)
  else s1.

(** [start] for one trusted node (line 215) and for one node with [hasValue]
    (lines 223-227); [clockStart] is the persisted clock. *)
Definition startTrusted (s : serverPool) (now : Z) (node : NodeID) : serverPool :=
  set_ns s (SetState (sp_ns s) now node stAlwaysConnect 0 0).

Definition startKnown (s : serverPool) (now clockStart : Z) (node : NodeID)
    : serverPool :=
  match GetField (sp_ns s) node nodeHistoryField with
  | Some (FvNodeHistory n) =>
      if nh_waitUntil n >? clockStart
      then set_ns s (SetState (sp_ns s) now node stRedialWait 0
                              (wrap64 (nh_waitUntil n - clockStart)))
      else s
  | _ => s
  end.

(** ** Reachable states of one node

    The state bitmask of a single node under the pool's own state changes and
    the two selectors feeding the mixer.  Every pool transition is the
    [SetState] call of the cited line. *)

(** The [(setMask, resetMask)] pairs of the pool's [SetState] calls and of
    the timers they schedule. *)
Inductive poolChange : Z -> Z -> Prop :=
| pc_dialFilter : poolChange stDialed 0                (* line 188 *)
| pc_dialTimeout : poolChange stRedialWait 0           (* line 196 *)
| pc_trusted : poolChange stAlwaysConnect 0            (* line 215 *)
| pc_startWait : poolChange stRedialWait 0             (* line 225 *)
| pc_stop : poolChange stHasValue 0                    (* line 246 *)
| pc_register : poolChange stConnected stDialed        (* line 262 *)
| pc_unregister : poolChange stRedialWait stConnected  (* line 273 *)
| pc_hasValue : poolChange stHasValue 0                (* line 275 *)
| pc_demote : poolChange 0 stHasValue                  (* line 396 *)
| pc_dialExpired : poolChange 0 stDialed               (* timer of line 188 *)
| pc_waitExpired : poolChange 0 stRedialWait.          (* timers of 196, 225, 273 *)

(** Modelled from the spec: a selector emits a node whose state has the
    include mask and none of the exclude mask, and "On emission, the selector
    sets the selected flag on the node"; the selectors' source
    (lpc.WrsIterator, lpc.QueueIterator) is not part of the sources at hand.
    The masks are those of lines 177-178. *)
Definition selectable (include st : Z) : Prop :=
  Z.land st include = include /\ Z.land st stDisableSelection = 0.

(** Modelled from the spec: "a subsequent state change that clears matching
    bits (including implicit clearing by setting any of the
    dialed/connected/redialWait bits [...]) unselects it" -- the selector's
    reaction to a state change, a state change of its own; the selectors'
    source is not part of the sources at hand. *)
Definition unselectable (st : Z) : Prop :=
  Z.land st stSelected <> 0
  /\ Z.land st (Z.lor stDialed (Z.lor stConnected stRedialWait)) <> 0.

Inductive step : Z -> Z -> Prop :=
| step_pool st setMask resetMask :
    poolChange setMask resetMask ->
    step st (updateState st setMask resetMask)
| step_selectKnown st :
    selectable stHasValue st ->
    step st (updateState st stSelected 0)
| step_selectTrusted st :
    selectable stAlwaysConnect st ->
    step st (updateState st stSelected 0)
| step_unselect st :
    unselectable st ->
    step st (updateState st 0 stSelected).

(** The states a node can be in: those reached from the untracked node. *)
Inductive reachable : Z -> Prop :=
| reach_init : reachable 0
| reach_step st st' : reachable st -> step st st' -> reachable st'.

(** The exclusion of the selected flag. *)
Definition selectedExclusive (st : Z) : Prop :=
  Z.land st stSelected <> 0 ->
  Z.land st (Z.lor stDialed (Z.lor stConnected stRedialWait)) = 0.

(** ** The field codecs and setups of the state machine's tests *)

(** [uint64FieldEnc] and [uint64FieldDec]. *)
Definition uint64FieldEnc : Encoder := fun field =>
  match field with
  | FvUint64 u => (rlp_EncodeToBytes (RUint u), None)
  | _ => ([], Some errInvalidField)
  end.

(** On an error the field returned is what the failed decoding has left in
    [u]. *)
Definition uint64FieldDec : Decoder := fun enc =>
  match rlp_DecodeBytes enc with
  | Some (RUint u) => (Some (FvUint64 u), None)
  | _ => (Some (FvUint64 (rlp_uint64_left enc)), Some errRlp)
  end.

(** [stringFieldEnc] and [stringFieldDec]. *)
Definition stringFieldEnc : Encoder := fun field =>
  match field with
  | FvString str => (String.list_byte_of_string str, None)
  | _ => ([], Some errInvalidField)
  end.

Definition stringFieldDec : Decoder := fun enc =>
  (Some (FvString (String.string_of_list_byte enc)), None).

(** [testSetup]. *)
Definition testSetup (flagPersist : list bool) (fieldTypes : list fieldType) : Setup :=
  {| Flags := imap (fun i (persist : bool) =>
                      if persist then NewPersistentFlag ("flag-" +:+ pretty i)
                      else NewFlag ("flag-" +:+ pretty i)) flagPersist;
     Fields := imap (fun i ftype =>
                       match ftype with
                       | TUint64 =>
                           NewPersistentField ("field-" +:+ pretty i) ftype
                                              uint64FieldEnc uint64FieldDec
                       | TString =>
                           NewPersistentField ("field-" +:+ pretty i) ftype
                                              stringFieldEnc stringFieldDec
                       | _ => NewField ("field-" +:+ pretty i) ftype
                       end) fieldTypes |}.

(** [regSetup]. *)
Definition regSetup (s : Setup) : list Z * list Z :=
  (StateMask s <$> Flags s, FieldIndex s <$> Fields s).

(** ** The quantities the specification speaks of *)

(** The state bitmask of a node: 0 when the node is not tracked. *)
Definition nodeState (ns : NodeStateMachine) (id : NodeID) : Z :=
  match ns_nodes ns !! id with
  | Some ni => ni_state ni
  | None => 0
  end.

(** The pending flag expirations of a node. *)
Definition nodeTimeouts (ns : NodeStateMachine) (id : NodeID) : list (Z * Z) :=
  match ns_nodes ns !! id with
  | Some ni => ni_timeouts ni
  | None => []
  end.

(** The timeout [getTimeout] computes when it does not answer from the
    cache. *)
Definition freshTimeout (s : serverPool) : Z :=
  let rts := Stats_Add (vt_RtStats (sp_vt s)) (second * 2) F64.ten
                       (vt_StatsExpFactor (sp_vt s)) in
  Z.max minTimeout
        (Z.max (Stats_Timeout rts F64.c0_1)
               (wrap64 (Stats_Timeout rts F64.c0_5 * 2))).

(** The condition of line 351 on the timeout and the stored [lastTimeout]. *)
Definition timeoutDrift (timeout lastTimeout : Z) : bool :=
  (timeout <? wrap64 (lastTimeout - timeoutChangeThreshold))
  || (timeout >? wrap64 (lastTimeout + timeoutChangeThreshold)).

(** Whether a call recomputes [totalValue] and [lastTimeout] (line 351). *)
Definition recomputes (s : serverPool) (now_to : Z) (node : NodeID)
    (remoteDisconnect : bool) : bool :=
  remoteDisconnect
  || timeoutDrift (fst (getTimeout s now_to)) (nh_lastTimeout (readNodeHistory s node)).

(** The node's [totalValue] after line 355: recomputed from the node's
    current statistics, or the stored one. *)
Definition totalValueOf (s : serverPool) (now_to : Z) (node : NodeID)
    (currentStats : ResponseTimeStats) (remoteDisconnect : bool) : spec_float :=
  if recomputes s now_to node remoteDisconnect
  then Stats_Value currentStats (sp_timeWeights s) (vt_StatsExpFactor (sp_vt s))
  else nh_totalValue (readNodeHistory s node).

(** The node's dial-cost accumulator after line 342, and its decayed value at
    the current log-offset (line 343, before the clamp). *)
Definition dialCostOf (s : serverPool) (now_lo : Z) (node : NodeID)
    (failedConnection remoteDisconnect : bool) : ExpiredValue :=
  if failedConnection || remoteDisconnect
  then ExpiredValue_Add (nh_dialCost (readNodeHistory s node)) dialCost
                        (vt_LogOffset (sp_vt s) now_lo)
  else nh_dialCost (readNodeHistory s node).

Definition totalDialCostOf (s : serverPool) (now_lo : Z) (node : NodeID)
    (failedConnection remoteDisconnect : bool) : Z :=
  ExpiredValue_Value (dialCostOf s now_lo node failedConnection remoteDisconnect)
                     (vt_LogOffset (sp_vt s) now_lo).

(** The quotient whose integer part is the weight:
    [totalValue * nodeWeightMul / max(totalDialCost, dialCost)] in [float64]
    arithmetic. *)
Definition weightQuotient (totalValue : spec_float) (totalDialCost : Z) : spec_float :=
  F64.div (F64.mul totalValue nodeWeightMul_f)
          (F64.of_Z (Z.max totalDialCost dialCost)).

(** The session value of line 333, or zero. *)
Definition currentValueOf (s : serverPool) (node : NodeID)
    (currentStats : ResponseTimeStats) (remoteDisconnect : bool) : spec_float :=
  if remoteDisconnect then
    match GetField (sp_ns s) node connStatsField with
    | Some (FvStats connStats) =>
        Stats_Value (Stats_SubStats currentStats connStats) (sp_timeWeights s)
                    (vt_StatsExpFactor (sp_vt s))
    | _ => F64.zero
    end
  else F64.zero.

(** The redial backoff of lines 359-370 as a function of the stored factor,
    the total value, the clamped total dial cost and the session value. *)
Definition backoff (waitFactor totalValue : spec_float) (totalDialCost : Z)
    (currentValue : spec_float) : spec_float :=
  let a := F64.mul totalValue dialCost_f in
  let b := F64.mul (F64.of_Z totalDialCost) currentValue in
  let wf := if F64.ltb waitFactor F64.one then F64.one else waitFactor in
  let wf := F64.mul wf redialWaitStep_f in
  let wf := if F64.ltb a (F64.mul b wf) then F64.div a b else wf in
  if F64.ltb wf F64.one then F64.one else wf.

End Model.

(** ** A concrete RLP codec

    Modelled from the spec: the "RLP-like length-prefixed encoding" of
    persisted values -- the [rlp] package is not part of the sources at hand.
    Unsigned integers are big-endian byte strings without leading zeros; a
    single byte below 0x80 stands for itself, a string of up to 55 bytes is
    prefixed by 0x80 plus its length, a list of up to 55 payload bytes by
    0xc0 plus that length. *)

Module Rlp.

Definition byteOfZ (z : Z) : byte := default x00 (Byte.of_N (Z.to_N z)).
Definition zOfByte (b : byte) : Z := Z.of_N (Byte.to_N b).

Fixpoint bigEndian (fuel : nat) (z : Z) : list byte :=
  match fuel with
  | O => []
  | S f => if z <=? 0 then [] else bigEndian f (z / 256) ++ [byteOfZ (z mod 256)]
  end.

Definition fromBigEndian (l : list byte) : Z :=
  fold_left (fun acc b => acc * 256 + zOfByte b) l 0.

Fixpoint encode (v : rlpValue) : list byte :=
  match v with
  | RUint z =>
      let bs := bigEndian 8 z in
      match bs with
      | [b] => if zOfByte b <? 128 then [b] else byteOfZ 129 :: bs
      | _ => byteOfZ (128 + Z.of_nat (length bs)) :: bs
      end
  | RList l =>
      let payload := (fix items (l : list rlpValue) : list byte :=
                        match l with
                        | [] => []
                        | x :: r => encode x ++ items r
                        end) l in
      byteOfZ (192 + Z.of_nat (length payload)) :: payload
  end.

(** One item off the front of [bs], and the bytes after it. *)
Fixpoint decodeItem (fuel : nat) (bs : list byte) : option (rlpValue * list byte) :=
  match fuel with
  | O => None
  | S f =>
      match bs with
      | [] => None
      | b :: rest =>
          let x := zOfByte b in
          if x <? 128 then Some (RUint x, rest)
          else if x <=? 183 then
            let n := Z.to_nat (x - 128) in
            if (length rest <? n)%nat then None
            else Some (RUint (fromBigEndian (take n rest)), drop n rest)
          else if (192 <=? x) && (x <=? 247) then
            let n := Z.to_nat (x - 192) in
            if (length rest <? n)%nat then None
            else
              match (fix items (k : nat) (p : list byte) : option (list rlpValue) :=
                       match k with
                       | O => None
                       | S k' =>
                           match p with
                           | [] => Some []
                           | _ => match decodeItem f p with
                                  | Some (v, p') =>
                                      match items k' p' with
                                      | Some vs => Some (v :: vs)
                                      | None => None
                                      end
                                  | None => None
                                  end
                           end
                       end) (S n) (take n rest) with
              | Some vs => Some (RList vs, drop n rest)
              | None => None
              end
          else None
      end
  end.

Definition decode (bs : list byte) : option rlpValue :=
  match decodeItem (S (length bs)) bs with
  | Some (v, []) => Some v
  | _ => None
  end.

End Rlp.

(** ** A small instance of the collaborators

    Statistics that carry their service value and their two timeout
    quantiles, a value tracker that is a table of them, an accumulator that
    does not decay, the codec above, and a platform on which a float to
    integer conversion out of range gives the bit pattern 0x8000000000000000
    (as the conversion instruction of amd64 does). *)

Module Demo.

Record stats := { value : spec_float; timeout10 : Z; timeout50 : Z }.

Record tracker := {
  nodes : gmap NodeID stats;
  global : stats;
  logOffset : Z
}.

Definition zeroStats : stats :=
  {| value := F64.zero; timeout10 := 0; timeout50 := 0 |}.

#[export] Instance ext : Externals := {|
  ResponseTimeStats := stats;
  ResponseTimeWeights := Z;
  ExpirationFactor := unit;
  ValueTracker := tracker;
  Stats_Value := fun st _ _ => value st;
  Stats_SubStats := fun a b =>
    {| value := SFsub F64.prec F64.emax (value a) (value b);
       timeout10 := timeout10 a; timeout50 := timeout50 a |};
  Stats_Add := fun st _ _ _ => st;
  Stats_Timeout := fun st q => if SFeqb q F64.c0_1 then timeout10 st else timeout50 st;
  TimeoutWeights := fun t => t;
  ExpiredValue_Add := fun ev amount _ => {| Base := Base ev + amount; Exp := Exp ev |};
  ExpiredValue_Value := fun ev _ => Base ev;
  vt_GetNode := fun vt id => nodes vt !! id;
  vt_RtStats := global;
  vt_StatsExpFactor := fun _ => tt;
  vt_LogOffset := fun vt _ => logOffset vt;
  vt_Register := fun vt id =>
    let st := default zeroStats (nodes vt !! id) in
    ({| nodes := <[id := st]> (nodes vt); global := global vt;
        logOffset := logOffset vt |}, st);
  vt_Unregister := fun vt _ => vt;
  rlp_EncodeToBytes := Rlp.encode;
  rlp_DecodeBytes := Rlp.decode;
  rlp_uint64_left := fun bs =>
    match Rlp.decodeItem (S (length bs)) bs with
    | Some (RUint u, _) => u
    | _ => 0
    end;
  uint64_undef := fun _ => 2 ^ 63;
  int64_undef := fun _ => - 2 ^ 63
|}.

(** A state machine over the pool's setup tracking node 1 with [state] and a
    [nodeHistory] field. *)
Definition machine (state : Z) (n : nodeHistory) : NodeStateMachine :=
  {| ns_setup := serverPoolSetup;
     ns_nodes := {[ 1 := {| ni_state := state; ni_timeouts := [];
                            ni_fields := {[ 0 := FvNodeHistory n ]};
                            ni_opaque := [] |} ]};
     ns_dirty := ∅; ns_db := ∅; ns_stopped := false |}.

Definition history (tv wf : spec_float) : nodeHistory :=
  {| nh_dialCost := {| Base := 0; Exp := 0 |};
     nh_waitUntil := 0;
     nh_lastTimeout := 495000000;
     nh_totalValue := tv;
     nh_waitFactor := wf |}.

(** A pool whose value tracker knows the nodes of [known]. *)
Definition pool (state : Z) (n : nodeHistory) (known : gmap NodeID stats)
    (refreshed : Z) : serverPool :=
  {| sp_clockOffset := 0;
     sp_ns := machine state n;
     sp_vt := {| nodes := known; global := zeroStats; logOffset := 0 |};
     sp_timeout := 500000000;
     sp_timeWeights := 500000000;
     sp_timeoutRefreshed := refreshed |}.

Definition statsOf (v : Z) : stats :=
  {| value := F64.of_Z v; timeout10 := 0; timeout50 := 0 |}.

(** The setups and the machine of [TestPersistentFields]: one persistent
    flag, a [uint64] and a string field; then the second setup with a flag
    and a field more, and the first two of each swapped. *)
Definition swap01 {A} (l : list A) : list A :=
  match l with
  | a :: b :: r => b :: a :: r
  | _ => l
  end.

Definition testSetup1 : Setup := testSetup [true] [TUint64; TString].

Definition testSetup3 : Setup :=
  let s := testSetup [true; true] [TUint64; TString; TUint32] in
  {| Flags := swap01 (Flags s); Fields := swap01 (Fields s) |}.

Definition testField0 : fieldDefinition :=
  NewPersistentField "field-0" TUint64 uint64FieldEnc uint64FieldDec.
Definition testField1 : fieldDefinition :=
  NewPersistentField "field-1" TString stringFieldEnc stringFieldDec.

Definition testMachine : NodeStateMachine :=
  let ns := Start (NewNodeStateMachine ∅ testSetup1) in
  let ns := SetState ns 0 1 (StateMask testSetup1 (NewPersistentFlag "flag-0")) 0 0 in
  let ns := fst (SetField ns 1 (FieldIndex testSetup1 testField0) (Some (FvUint64 100))) in
  fst (SetField ns 1 (FieldIndex testSetup1 testField1) (Some (FvString "hello world"))).

Definition testNode : nodeInfo :=
  {| ni_state := 1; ni_timeouts := [];
     ni_fields := {[ 0 := FvUint64 100; 1 := FvString "hello world" ]};
     ni_opaque := [] |}.

(** A machine over the pool's setup whose node 1 holds [hasValue] with a
    pending timeout. *)
Definition timedMachine : NodeStateMachine :=
  {| ns_setup := serverPoolSetup;
     ns_nodes := {[ 1 := {| ni_state := 1; ni_timeouts := [(1, second)];
                            ni_fields := ∅; ni_opaque := [] |} ]};
     ns_dirty := ∅; ns_db := ∅; ns_stopped := false |}.

End Demo.

(** ** Bytes

    [byte(x)] of an integer below 256 and the integer of a byte. *)

Definition toByte (z : Z) : byte := default x00 (Byte.of_N (Z.to_N z)).
Definition fromByte (b : byte) : Z := Z.of_N (Byte.to_N b).

(** ** Package [math]: integer utilities over [big.Int]

    A [*big.Int] is a [Z]; the methods of [math/big] the package calls are
    written out first, each as the standard library documents it. *)

Module Math.

(** The width of a [big.Word]: 32 or 64 bits, by platform. *)
Inductive wordWidth := Word32 | Word64.

Definition wordBits (w : wordWidth) : Z :=
  match w with
  | Word32 => 32
  | Word64 => 64
  end.

(** [x.BitLen()]: the length of the absolute value in bits, 0 for 0. *)
Definition BitLen (x : Z) : Z :=
  if x =? 0 then 0 else Z.log2 (Z.abs x) + 1.

(** [x.Bit(i)]: bit [i] of [x], of its two's complement when [x] is
    negative. *)
Definition Bit (x i : Z) : Z := Z.b2z (Z.testbit x i).

(** [x.Cmp(y)]. *)
Definition Cmp (x y : Z) : Z :=
  match x ?= y with
  | Lt => -1
  | Eq => 0
  | Gt => 1
  end.

(** The digits of [x] to the base [radix], least significant first, none for
    0; [fuel] bounds their number. *)
Fixpoint wordsOf (fuel : nat) (radix x : Z) : list Z :=
  match fuel with
  | O => []
  | S f => if x =? 0 then [] else x mod radix :: wordsOf f radix (x / radix)
  end.

(** [x.Bits()]: the absolute value as a little-endian slice of words. *)
Definition Bits (w : wordWidth) (x : Z) : list Z :=
  wordsOf (Z.to_nat (BitLen x)) (2 ^ wordBits w) (Z.abs x).

(** [x.Bytes()]: the absolute value as a big-endian byte slice, without
    leading zeros. *)
Definition Bytes (x : Z) : list byte :=
  toByte <$> reverse (wordsOf (Z.to_nat (BitLen x)) 256 (Z.abs x)).

(** [new(big.Int).SetBytes(buf)]: [buf] read as a big-endian unsigned
    integer. *)
Definition SetBytes (buf : list byte) : Z :=
  fold_left (fun acc b => acc * 256 + fromByte b) buf 0.

(** [z.Exp(x, y, nil)]: [x ** y], and 1 when [y <= 0]. *)
Definition bigExp (x y : Z) : Z := if y <=? 0 then 1 else x ^ y.

(** The value of a character as a digit: letters of either case count from
    10, any other character is above every base. *)
Definition digitValue (ch : ascii) : Z :=
  let c := Z.of_N (N_of_ascii ch) in
  if (48 <=? c) && (c <=? 57) then c - 48
  else if (97 <=? c) && (c <=? 122) then c - 97 + 10
  else if (65 <=? c) && (c <=? 90) then c - 65 + 10
  else 63.

(** The number a string of digits of [base] denotes, continuing from [acc];
    nothing if a character is not such a digit. *)
Fixpoint scanDigits (base acc : Z) (s : string) : option Z :=
  match s with
  | EmptyString => Some acc
  | String ch s' =>
      if digitValue ch <? base then scanDigits base (acc * base + digitValue ch) s'
      else None
  end.

(** [z.SetString(s, base)] for a base from 2 to 36: an optional sign, then at
    least one digit, and nothing else.  [None] is the result [(nil, false)]. *)
Definition SetString (s : string) (base : Z) : option Z :=
  let '(neg, digits) :=
    match s with
    | String ch r =>
        if Ascii.eqb ch "-" then (true, r)
        else if Ascii.eqb ch "+" then (false, r)
        else (false, s)
    | EmptyString => (false, s)
    end in
  match digits with
  | EmptyString => None
  | _ => match scanDigits base 0 digits with
         | Some v => Some (if neg then - v else v)
         | None => None
         end
  end.

(** [ParseBig]. *)
Definition ParseBig (s : string) : option Z :=
  if String.eqb s "" then Some 0
  else if (2 <=? String.length s)%nat
          && (String.eqb (String.substring 0 2 s) "0x"
              || String.eqb (String.substring 0 2 s) "0X")
       then SetString (String.substring 2 (String.length s - 2) s) 16
       else SetString s 10.

(** [MustParseBig]: the number, or the value it panics with. *)
Definition MustParseBig (s : string) : Z + string :=
  match ParseBig s with
  | Some v => inl v
  | None => inr ("invalid integer: " +:+ s)
  end.

(** [BigPow]. *)
Definition BigPow (a b : Z) : Z := bigExp a b.

Definition tt255 : Z := BigPow 2 255.
Definition tt256 : Z := BigPow 2 256.
Definition tt256m1 : Z := tt256 - 1.
Definition MaxBig256 : Z := tt256m1.

(** [BigMax] and [BigMin]. *)
Definition BigMax (x y : Z) : Z := if Cmp x y <? 0 then y else x.
Definition BigMin (x y : Z) : Z := if Cmp x y >? 0 then y else x.

(** The loop of [FirstBitSet] from index [i], with [n] indices left below
    [v.BitLen()]. *)
Fixpoint firstBitFrom (n : nat) (i : Z) (v : Z) : Z :=
  match n with
  | O => BitLen v
  | S n' => if Bit v i >? 0 then i else firstBitFrom n' (i + 1) v
  end.

(** [FirstBitSet]. *)
Definition FirstBitSet (v : Z) : Z := firstBitFrom (Z.to_nat (BitLen v)) 0 v.

(** [PaddedBigBytes]. *)
Definition PaddedBigBytes (bigint n : Z) : list byte :=
  let bytes := Bytes bigint in
  if Z.of_nat (length bytes) >=? n then bytes
  else
    let ret := replicate (Z.to_nat n) x00 in
    take (length ret - length bytes) ret ++ bytes.

(** [U256]: the value [x] holds after the call, which is also returned. *)
Definition U256 (x : Z) : Z := Z.land x tt256m1.

(** [S256]. *)
Definition S256 (x : Z) : Z :=
  if Cmp x tt255 <? 0 then x else x - tt256.

(** [wordSize]: [32 << (uint64(^big.Word(0)) >> 63)]. *)
Definition wordSize (w : wordWidth) : Z :=
  Z.shiftl 32 (Z.shiftr (2 ^ wordBits w - 1) 63).

(** The inner loop of [Exp] over one word of the exponent, [n] iterations
    left, on the pair of [result] and [base]. *)
Fixpoint expWord (n : nat) (word : Z) (rb : Z * Z) : Z * Z :=
  match n with
  | O => rb
  | S n' =>
      let '(result, base) := rb in
      let result := if Z.land word 1 =? 1 then U256 (result * base) else result in
      let base := U256 (base * base) in
      expWord n' (Z.shiftr word 1) (result, base)
  end.

(** [Exp]: the result, and the value the caller's [base] holds afterwards
    (the loop squares [base] in place). *)
Definition Exp (w : wordWidth) (base exponent : Z) : Z * Z :=
  fold_left (fun rb word => expWord (Z.to_nat (wordSize w)) word rb)
            (Bits w exponent) (1, base).

(** The number a little-endian list of digits denotes. *)
Definition wordsValue (radix : Z) (ws : list Z) : Z :=
  fold_right (fun w acc => w + radix * acc) 0 ws.

(** Whether every character of [s] is a digit of [base]. *)
Fixpoint allDigits (base : Z) (s : string) : bool :=
  match s with
  | EmptyString => true
  | String ch s' => (digitValue ch <? base) && allDigits base s'
  end.

End Math.

(** ** The persistent clock of the pool *)

(** [binary.BigEndian.PutUint64] into a buffer of 8 bytes, and
    [binary.BigEndian.Uint64]. *)
Definition PutUint64 (v : Z) : list byte :=
  [toByte (Z.shiftr v 56 mod 256); toByte (Z.shiftr v 48 mod 256);
   toByte (Z.shiftr v 40 mod 256); toByte (Z.shiftr v 32 mod 256);
   toByte (Z.shiftr v 24 mod 256); toByte (Z.shiftr v 16 mod 256);
   toByte (Z.shiftr v 8 mod 256); toByte (v mod 256)].

Definition Uint64 (b : list byte) : Z :=
  match b with
  | b0 :: b1 :: b2 :: b3 :: b4 :: b5 :: b6 :: b7 :: _ =>
      Z.lor (fromByte b7)
        (Z.lor (Z.shiftl (fromByte b6) 8)
           (Z.lor (Z.shiftl (fromByte b5) 16)
              (Z.lor (Z.shiftl (fromByte b4) 24)
                 (Z.lor (Z.shiftl (fromByte b3) 32)
                    (Z.lor (Z.shiftl (fromByte b2) 40)
                       (Z.lor (Z.shiftl (fromByte b1) 48)
                              (Z.shiftl (fromByte b0) 56)))))))
  | _ => 0
  end.

(** Modelled from the spec: the database of the pool, which holds
    "<prefix>persistentClock: 8-byte big-endian absolute time"; the [ethdb]
    package is not part of the sources at hand.  Byte strings under
    byte-string keys; reading a key that is absent yields no bytes. *)
Definition KeyValueStore : Type := gmap string (list byte).

Section Lifecycle.

Context `{Ext : Externals}.

(** The key of the persisted clock (line 139). *)
Definition dbClockKey (dbKey : string) : string := dbKey +:+ "persistentClock".

(** The pool's own time, [s.clock.Now() + s.clockOffset] (lines 256, 373). *)
Definition poolTime (s : serverPool) (now : Z) : Z :=
  wrap64 (now + sp_clockOffset s).

(** [persistClock] (lines 254-258); [now] is the clock reading. *)
Definition persistClock (s : serverPool) (db : KeyValueStore) (key : string)
    (now : Z) : KeyValueStore :=
  <[key := PutUint64 (wrapU64 (poolTime s now))]> db.

(** Lines 217-222 of [start]: the persisted clock, 0 when the store holds no
    8 bytes under the key, and the clock offset computed from it. *)
Definition startClock (db : KeyValueStore) (key : string) (now : Z) : Z * Z :=
  let clockEnc := default [] (db !! key) in
  let clockStart :=
    if (length clockEnc =? 8)%nat then wrap64 (Uint64 clockEnc) else 0 in
  (clockStart, wrap64 (clockStart - now)).

Definition set_clockOffset (s : serverPool) (off : Z) : serverPool :=
  {| sp_clockOffset := off; sp_ns := sp_ns s; sp_vt := sp_vt s;
     sp_timeout := sp_timeout s; sp_timeWeights := sp_timeWeights s;
     sp_timeoutRefreshed := sp_timeoutRefreshed s |}.

(** The cached timeout is in order: the weights are those of the cached
    timeout, which is not below [minTimeout]. *)
Definition timeoutCached (s : serverPool) : Prop :=
  sp_timeWeights s = TimeoutWeights (sp_timeout s) /\ minTimeout <= sp_timeout s.

End Lifecycle.

(** ** Package [core]: the JSON form of [Genesis]

    [UnmarshalJSON] decodes into a struct of optional fields and copies what
    is present into the receiver.  Hashes and addresses are fixed-width byte
    arrays, read as numbers; the chain configuration and the accounts are
    types of other packages. *)

Module Core.

Section Genesis.

Context {ChainConfig GenesisAccount : Type}.

(** The fields of [Genesis] that the codec assigns. *)
Record Genesis := {
  Config : option ChainConfig;
  Nonce : Z;
  Timestamp : Z;
  ExtraData : option (list byte);
  GasLimit : Z;
  Difficulty : option Z;
  Mixhash : Z;
  Coinbase : Z;
  Alloc : option (gmap Z GenesisAccount);
  Number : Z;
  GasUsed : Z;
  ParentHash : Z
}.

(** The local struct [dec] of [UnmarshalJSON]: a field the input lacks is
    [nil]. *)
Record GenesisDec := {
  decConfig : option ChainConfig;
  decNonce : option Z;
  decTimestamp : option Z;
  decExtraData : option (list byte);
  decGasLimit : option Z;
  decDifficulty : option Z;
  decMixhash : option Z;
  decCoinbase : option Z;
  decAlloc : option (gmap Z GenesisAccount);
  decNumber : option Z;
  decGasUsed : option Z;
  decParentHash : option Z
}.

Definition errMissing (field : string) : string :=
  "missing required field '" +:+ field +:+ "' for Genesis".

(** The loop of lines 100-103: a fresh map filled with the entries of
    [dec.Alloc]. *)
Definition copyAlloc (m : gmap Z GenesisAccount) : gmap Z GenesisAccount :=
  map_fold (fun k v acc => <[k := v]> acc) ∅ m.

(** [UnmarshalJSON] (part_002, lines 52-114): the receiver after the call and
    the error.  [jsonUnmarshal] is [json.Unmarshal(input, &dec)], an error or
    the decoded struct. *)
Definition UnmarshalJSON (jsonUnmarshal : list byte -> string + GenesisDec)
    (g : Genesis) (input : list byte) : Genesis * option string :=
  match jsonUnmarshal input with
  | inl err => (g, Some err)
  | inr dec =>
      let config := match decConfig dec with
                    | Some c => Some c
                    | None => Config g
                    end in
      let nonce := match decNonce dec with
                   | Some x => x
                   | None => Nonce g
                   end in
      let timestamp := match decTimestamp dec with
                       | Some x => x
                       | None => Timestamp g
                       end in
      let extraData := match decExtraData dec with
                       | Some x => Some x
                       | None => ExtraData g
                       end in
      let g1 := {| Config := config; Nonce := nonce; Timestamp := timestamp;
                   ExtraData := extraData; GasLimit := GasLimit g;
                   Difficulty := Difficulty g; Mixhash := Mixhash g;
                   Coinbase := Coinbase g; Alloc := Alloc g; Number := Number g;
                   GasUsed := GasUsed g; ParentHash := ParentHash g |} in
      match decGasLimit dec with
      | None => (g1, Some (errMissing "gasLimit"))
      | Some gasLimit =>
          let g2 := {| Config := config; Nonce := nonce; Timestamp := timestamp;
                       ExtraData := extraData; GasLimit := gasLimit;
                       Difficulty := Difficulty g; Mixhash := Mixhash g;
                       Coinbase := Coinbase g; Alloc := Alloc g; Number := Number g;
                       GasUsed := GasUsed g; ParentHash := ParentHash g |} in
          match decDifficulty dec with
          | None => (g2, Some (errMissing "difficulty"))
          | Some difficulty =>
              let mixhash := match decMixhash dec with
                             | Some x => x
                             | None => Mixhash g
                             end in
              let coinbase := match decCoinbase dec with
                              | Some x => x
                              | None => Coinbase g
                              end in
              let g3 := {| Config := config; Nonce := nonce; Timestamp := timestamp;
                           ExtraData := extraData; GasLimit := gasLimit;
                           Difficulty := Some difficulty; Mixhash := mixhash;
                           Coinbase := coinbase; Alloc := Alloc g; Number := Number g;
                           GasUsed := GasUsed g; ParentHash := ParentHash g |} in
              match decAlloc dec with
              | None => (g3, Some (errMissing "alloc"))
              | Some alloc =>
                  ({| Config := config; Nonce := nonce; Timestamp := timestamp;
                      ExtraData := extraData; GasLimit := gasLimit;
                      Difficulty := Some difficulty; Mixhash := mixhash;
                      Coinbase := coinbase; Alloc := Some (copyAlloc alloc);
                      Number := match decNumber dec with
                                | Some x => x
                                | None => Number g
                                end;
                      GasUsed := match decGasUsed dec with
                                 | Some x => x
                                 | None => GasUsed g
                                 end;
                      ParentHash := match decParentHash dec with
                                    | Some x => x
                                    | None => ParentHash g
                                    end |},
                   None)
              end
          end
      end
  end.

End Genesis.

End Core.

(** ** The dashboard's state update functions (part_003) *)

Module Dashboard.

(** [Array.prototype.slice(start)] for an integer [start]: a negative start
    counts from the end of the array. *)
Definition slice {A} (l : list A) (start : Z) : list A :=
  let len := Z.of_nat (length l) in
  let k := if start <? 0 then Z.max (len + start) 0 else Z.min start len in
  drop (Z.to_nat k) l.

(** [appender] (line 84), for an integer [limit]:
    [[...prev, ...update].slice(-limit)]. *)
Definition appender {A} (limit : Z) (prev update : list A) : list A :=
  slice (prev ++ update) (- limit).

(** [appender200] (line 86) and [replacer] (line 88). *)
Definition appender200 {A} : list A -> list A -> list A := appender 200.

Definition replacer {A} (prev update : A) : A := update.

End Dashboard.

(** ** Sample values of the [Genesis] codec *)

Module Samples.

(** A receiver that holds values everywhere. *)
Definition genesis : @Core.Genesis unit Z :=
  {| Core.Config := None; Core.Nonce := 1; Core.Timestamp := 2;
     Core.ExtraData := None; Core.GasLimit := 3; Core.Difficulty := Some 4;
     Core.Mixhash := 5; Core.Coinbase := 6; Core.Alloc := Some {[ 7 := 8 ]};
     Core.Number := 9; Core.GasUsed := 10; Core.ParentHash := 11 |}.

(** A decoded input with a nonce, a gas limit, a difficulty, a number and
    the given alloc. *)
Definition decoded (alloc : option (gmap Z Z)) : @Core.GenesisDec unit Z :=
  {| Core.decConfig := None; Core.decNonce := Some 66;
     Core.decTimestamp := None; Core.decExtraData := None;
     Core.decGasLimit := Some 5000; Core.decDifficulty := Some 17;
     Core.decMixhash := None; Core.decCoinbase := None;
     Core.decAlloc := alloc; Core.decNumber := Some 12;
     Core.decGasUsed := None; Core.decParentHash := None |}.

(** A JSON decoder that answers with [decoded alloc]. *)
Definition jsonUnmarshal (alloc : option (gmap Z Z)) (input : list byte)
    : string + @Core.GenesisDec unit Z :=
  inr (decoded alloc).

End Samples.

(** * Properties *)

Section Proofs.

Context `{Ext : Externals}.

(** ** Conversions and clamps *)

Lemma floor_trunc_nonneg f z :
  F64.floor f = Some z -> 0 <= z -> F64.trunc f = Some z.
Proof.
  destruct f as [s | s | | s m e]; simpl; try congruence.
  intros Hf Hz. injection Hf as Hf. f_equal.
  destruct s.
  - (* a negative value has a negative floor *)
    exfalso.
    destruct e as [| p | p]; simpl in Hf.
    + lia.
    + assert (0 < 2 ^ Z.pos p) by (apply Z.pow_pos_nonneg; lia). nia.
    + assert (0 < 2 ^ Z.pos p) by (apply Z.pow_pos_nonneg; lia).
      assert (Z.neg m / 2 ^ Z.pos p < 0); [|lia].
      apply Z.div_lt_upper_bound; lia.
  - destruct e; simpl in *; lia.
Qed.

Lemma to_uint64_floor f z :
  F64.floor f = Some z -> 0 <= z < 2 ^ 64 -> to_uint64 f = z.
Proof.
  intros Hf Hz. unfold to_uint64.
  rewrite (floor_trunc_nonneg f z Hf) by lia.
  unfold is_uint64.
  destruct (Z.leb_spec 0 z); [|lia].
  destruct (Z.ltb_spec z (2 ^ 64)); [reflexivity|lia].
Qed.

Lemma clamp_max (x : Z) :
  (if x <? dialCost then dialCost else x) = Z.max x dialCost.
Proof. destruct (Z.ltb_spec x dialCost); lia. Qed.

Lemma wrap64_id z : - 2 ^ 63 <= z < 2 ^ 63 -> wrap64 z = z.
Proof. intros H. unfold wrap64. rewrite Z.mod_small; lia. Qed.

(** ** [getTimeout] *)

Lemma getTimeout_ns s now : sp_ns (snd (getTimeout s now)) = sp_ns s.
Proof. unfold getTimeout. destruct (_ && _); reflexivity. Qed.

Lemma getTimeout_vt s now : sp_vt (snd (getTimeout s now)) = sp_vt s.
Proof. unfold getTimeout. destruct (_ && _); reflexivity. Qed.

Lemma getTimeout_clockOffset s now :
  sp_clockOffset (snd (getTimeout s now)) = sp_clockOffset s.
Proof. unfold getTimeout. destruct (_ && _); reflexivity. Qed.

(** C4 (amended). [getTimeout] answers with the cached timeout, leaving the
    pool untouched, when the recorded refresh time is not 0 and lies less than
    5 seconds before the clock reading; otherwise it returns
    [max(500ms, Timeout(0.1), Timeout(0.5) * 2)] over the global statistics
    with a 2 second sample of weight 10 added, caches it and records the
    clock reading.  A computation made at clock reading 0 is recorded as
    "never". *)
Theorem C4_getTimeout s now :
  (sp_timeoutRefreshed s <> 0 ->
   wrap64 (now - sp_timeoutRefreshed s) < timeoutRefresh ->
   getTimeout s now = (sp_timeout s, s))
  /\ (sp_timeoutRefreshed s = 0
      \/ timeoutRefresh <= wrap64 (now - sp_timeoutRefreshed s) ->
      fst (getTimeout s now) = freshTimeout s
      /\ sp_timeout (snd (getTimeout s now)) = freshTimeout s
      /\ sp_timeoutRefreshed (snd (getTimeout s now)) = now).
Proof.
  unfold getTimeout, freshTimeout. split.
  - intros Hne Hlt.
    destruct (Z.eqb_spec (sp_timeoutRefreshed s) 0); [contradiction|].
    destruct (Z.ltb_spec (wrap64 (now - sp_timeoutRefreshed s)) timeoutRefresh);
      [reflexivity|lia].
  - intros Hor.
    assert (negb (sp_timeoutRefreshed s =? 0)
            && (wrap64 (now - sp_timeoutRefreshed s) <? timeoutRefresh) = false) as ->.
    { destruct Hor as [H0 | Hge].
      - rewrite H0. reflexivity.
      - apply andb_false_iff. right. apply Z.ltb_ge. exact Hge. }
    cbn [fst snd sp_timeout sp_timeoutRefreshed].
    set (t1 := Stats_Timeout _ F64.c0_1).
    set (t2 := wrap64 (Stats_Timeout _ F64.c0_5 * 2)).
    assert ((if t2 >? (if t1 >? minTimeout then t1 else minTimeout)
             then t2 else if t1 >? minTimeout then t1 else minTimeout)
            = Z.max minTimeout (Z.max t1 t2)) as ->.
    { destruct (Z.gtb_spec t1 minTimeout);
        match goal with |- context [?a >? ?b] => destruct (Z.gtb_spec a b) end; lia. }
    auto.
Qed.

(** ** [calculateNode] *)

(** C9. For a node the value tracker holds no statistics for,
    [calculateNode] returns (0, 0) whatever the two flags are, and leaves the
    pool -- the node's [nodeHistory] field with it -- as it was: no dial cost
    is added and no wait is computed. *)
Theorem C9_no_tracker_entry s lo to w node failedConnection remoteDisconnect :
  vt_GetNode (sp_vt s) node = None ->
  calculateNode s lo to w node failedConnection remoteDisconnect = ((0, 0), s)
  /\ GetField (sp_ns (snd (calculateNode s lo to w node failedConnection
                                          remoteDisconnect)))
              node nodeHistoryField
     = GetField (sp_ns s) node nodeHistoryField.
Proof.
  intros H. unfold calculateNode. rewrite H. split; reflexivity.
Qed.

Lemma calculateNode_result s lo to w node cs failedConnection remoteDisconnect :
  vt_GetNode (sp_vt s) node = Some cs ->
  fst (calculateNode s lo to w node failedConnection remoteDisconnect)
  = (cr_weight (calculateNode_body s lo to w node cs failedConnection remoteDisconnect),
     cr_wait (calculateNode_body s lo to w node cs failedConnection remoteDisconnect)).
Proof. intros H. unfold calculateNode. rewrite H. reflexivity. Qed.


(** The fields of the record [calculateNode] has in hand at its write-back. *)
Lemma body_fields s lo to w node cs failedConnection remoteDisconnect :
  let n := readNodeHistory s node in
  let recompute := recomputes s to node remoteDisconnect in
  let r := calculateNode_body s lo to w node cs failedConnection remoteDisconnect in
  nh_totalValue (cr_n r) = totalValueOf s to node cs remoteDisconnect
  /\ nh_lastTimeout (cr_n r)
     = (if recompute then fst (getTimeout s to) else nh_lastTimeout n)
  /\ nh_dialCost (cr_n r) = dialCostOf s lo node failedConnection remoteDisconnect
  /\ cr_storeField r = recompute || (failedConnection || remoteDisconnect)
  /\ cr_pool r = snd (getTimeout s to)
  /\ cr_weight r
     = to_uint64 (weightQuotient
                    (totalValueOf s to node cs remoteDisconnect)
                    (totalDialCostOf s lo node failedConnection remoteDisconnect))
  /\ (failedConnection || remoteDisconnect = true ->
      nh_waitFactor (cr_n r)
      = backoff (nh_waitFactor n)
                (totalValueOf s to node cs remoteDisconnect)
                (Z.max (totalDialCostOf s lo node failedConnection remoteDisconnect)
                       dialCost)
                (currentValueOf s node cs remoteDisconnect)
      /\ cr_wait r = to_int64 (F64.mul minRedialWait_f (nh_waitFactor (cr_n r))))
  /\ (failedConnection || remoteDisconnect = false ->
      nh_waitFactor (cr_n r) = nh_waitFactor n
      /\ nh_waitUntil (cr_n r) = nh_waitUntil n
      /\ cr_wait r = 0).
Proof.
  intros n recompute r.
  subst r recompute.
  unfold calculateNode_body, totalValueOf, weightQuotient, totalDialCostOf,
    dialCostOf, recomputes, timeoutDrift, currentValueOf, backoff.
  fold n.
  destruct (getTimeout s to) as [timeout s1]. cbn [fst snd].
  rewrite <- orb_assoc.
  set (rc := remoteDisconnect || _).
  rewrite clamp_max.
  destruct (failedConnection || remoteDisconnect); cbn [cr_n cr_storeField cr_pool
    cr_weight cr_wait nh_totalValue nh_lastTimeout nh_dialCost nh_waitFactor
    nh_waitUntil];
    repeat split; try reflexivity; try discriminate; destruct rc; reflexivity.
Qed.

(** What [calculateNode] leaves in the state machine: the write-back of line
    378 when [storeField] is set, nothing otherwise. *)
Lemma calculateNode_ns s lo to w node cs failedConnection remoteDisconnect :
  vt_GetNode (sp_vt s) node = Some cs ->
  let r := calculateNode_body s lo to w node cs failedConnection remoteDisconnect in
  sp_ns (snd (calculateNode s lo to w node failedConnection remoteDisconnect))
  = (if cr_storeField r
     then fst (SetField (sp_ns s) node nodeHistoryField (Some (FvNodeHistory (cr_n r))))
     else sp_ns s).
Proof.
  intros H r. unfold calculateNode. rewrite H. fold r. cbn [snd].
  destruct (body_fields s lo to w node cs failedConnection remoteDisconnect)
    as (_ & _ & _ & _ & Hp & _).
  fold r in Hp.
  destruct (cr_storeField r); cbn [sp_ns set_ns]; rewrite Hp, getTimeout_ns; reflexivity.
Qed.



(** ** Comparison of floats *)

Lemma SFcompare_antisym x y c :
  SFcompare x y = Some c -> SFcompare y x = Some (CompOpp c).
Proof.
  destruct x as [sx | sx | | sx mx ex], y as [sy | sy | | sy my ey];
    simpl; try discriminate;
    try (intros [= <-]; try destruct sx; try destruct sy; reflexivity).
  intros [= <-]. f_equal.
  destruct sx, sy; try reflexivity.
  - rewrite (Z.compare_antisym ex ey).
    destruct (ex ?= ey); simpl; try reflexivity.
    rewrite (Pos.compare_cont_antisym mx my Eq). simpl.
    destruct (Pos.compare_cont Eq mx my); reflexivity.
  - rewrite (Z.compare_antisym ex ey).
    destruct (ex ?= ey); simpl; try reflexivity.
    rewrite (Pos.compare_cont_antisym mx my Eq). reflexivity.
Qed.

Lemma SFcompare_nan x y :
  SFcompare x y = None -> F64.is_nan x = true \/ F64.is_nan y = true.
Proof.
  destruct x, y; simpl; try discriminate; auto.
Qed.

(** A number that is not below 1 is at least 1. *)
Lemma not_ltb_leb x y :
  F64.is_nan x = false -> F64.is_nan y = false ->
  F64.ltb x y = false -> F64.leb y x = true.
Proof.
  unfold F64.ltb, F64.leb, SFltb, SFleb. intros Hx Hy.
  destruct (SFcompare x y) as [c|] eqn:E.
  - rewrite (SFcompare_antisym _ _ _ E). destruct c; simpl; congruence.
  - apply SFcompare_nan in E. destruct E; congruence.
Qed.

(** The last clamp of the backoff (lines 368-370). *)
Lemma clamp_one_not_below x :
  F64.ltb (if F64.ltb x F64.one then F64.one else x) F64.one = false.
Proof.
  destruct (F64.ltb x F64.one) eqn:E; [reflexivity | exact E].
Qed.

Lemma backoff_not_below_one wf tv tdc cv :
  F64.ltb (backoff wf tv tdc cv) F64.one = false.
Proof. unfold backoff. apply clamp_one_not_below. Qed.

(** ** Rounding never invents a NaN *)

Lemma iter_pos_invariant {A} (P : A -> Prop) (f : A -> A) :
  (forall x, P x -> P (f x)) -> forall p x, P x -> P (iter_pos f p x).
Proof.
  intros Hf. induction p as [p IH | p IH |]; intros x Hx; simpl; auto.
Qed.

Lemma shr_1_nonneg mrs : 0 <= shr_m mrs -> 0 <= shr_m (shr_1 mrs).
Proof.
  destruct mrs as [m r t]. simpl.
  destruct m as [| [q | q |] | q]; simpl; lia.
Qed.

Lemma shr_nonneg mrs e n : 0 <= shr_m mrs -> 0 <= shr_m (fst (shr mrs e n)).
Proof.
  intros H. destruct n as [| q | q]; simpl; try exact H.
  apply (iter_pos_invariant (fun x => 0 <= shr_m x)); [apply shr_1_nonneg | exact H].
Qed.

Lemma shr_fexp_nonneg m e l :
  0 <= m -> 0 <= shr_m (fst (shr_fexp F64.prec F64.emax m e l)).
Proof.
  intros H. unfold shr_fexp. apply shr_nonneg.
  destruct l as [| []]; simpl; exact H.
Qed.

Lemma round_nearest_even_nonneg m l : 0 <= m -> 0 <= round_nearest_even m l.
Proof.
  intros H. unfold round_nearest_even.
  destruct l as [| []]; try lia. destruct (Z.even m); lia.
Qed.

Lemma binary_round_aux_number sx mx ex lx :
  0 <= mx ->
  signed_number sx (binary_round_aux F64.prec F64.emax sx mx ex lx).
Proof.
  intros H. unfold binary_round_aux.
  pose proof (shr_fexp_nonneg mx ex lx H) as H1.
  destruct (shr_fexp F64.prec F64.emax mx ex lx) as [mrs' e']. simpl in H1.
  pose proof (shr_fexp_nonneg (round_nearest_even (shr_m mrs') (loc_of_shr_record mrs'))
                e' loc_Exact (round_nearest_even_nonneg _ _ H1)) as H2.
  destruct (shr_fexp F64.prec F64.emax _ e' loc_Exact) as [mrs'' e'']. simpl in H2.
  unfold signed_number.
  destruct (shr_m mrs'') as [| q | q]; [auto | | lia].
  destruct (e'' <=? F64.emax - F64.prec); eauto.
Qed.

Lemma signed_number_not_nan s f : signed_number s f -> F64.is_nan f = false.
Proof. intros [-> | [-> | (m & e & ->)]]; reflexivity. Qed.

(** A product with a finite, non-zero factor is a NaN only if the other
    factor is. *)
Lemma mul_finite_nan x s m e :
  F64.is_nan (F64.mul x (S754_finite s m e)) = F64.is_nan x.
Proof.
  destruct x as [sx | sx | | sx mx ex]; try reflexivity.
  unfold F64.mul. simpl.
  apply (signed_number_not_nan (xorb sx s)), binary_round_aux_number. lia.
Qed.

(** A product of a number that is not negative with a positive finite number
    is not negative. *)
Lemma mul_pos_not_negative x m e :
  F64.ltb x F64.zero = false ->
  F64.ltb (F64.mul x (S754_finite false m e)) F64.zero = false.
Proof.
  destruct x as [sx | sx | | sx mx ex]; try reflexivity.
  - destruct sx; [discriminate | reflexivity].
  - destruct sx; [discriminate|]. intros _.
    unfold F64.mul. simpl.
    destruct (binary_round_aux_number false (Z.pos (mx * m)) (ex + e) loc_Exact)
      as [-> | [-> | (m' & e' & ->)]]; [lia | reflexivity ..].
Qed.

Lemma div_core_nonneg m1 e1 m2 e2 :
  0 <= fst (fst (SFdiv_core_binary F64.prec F64.emax (Z.pos m1) e1 (Z.pos m2) e2)).
Proof.
  unfold SFdiv_core_binary.
  set (sh := _ - _ - Z.min _ _).
  set (m' := match sh with Z.pos _ => _ | 0 => _ | Z.neg _ => _ end).
  assert (0 <= m') as Hm.
  { subst m'. destruct sh; try lia. apply Z.shiftl_nonneg. lia. }
  pose proof (Z.div_pos m' (Z.pos m2) Hm ltac:(lia)) as Hq.
  unfold Z.div in Hq. destruct (Z.div_eucl m' (Z.pos m2)) as [q r]. exact Hq.
Qed.

(** The quotient the backoff takes is a number whenever the comparison of
    line 365 holds and [a] is not negative. *)
Lemma capped_quotient_not_nan a b w :
  F64.ltb a F64.zero = false ->
  F64.ltb a (F64.mul b w) = true ->
  F64.is_nan (F64.div a b) = false.
Proof.
  intros Ha Hlt.
  destruct a as [sa | sa | | sa ma ea]; try discriminate.
  - (* a is a zero: b is neither a zero nor a NaN *)
    destruct b as [sb | sb | | sb mb eb]; try reflexivity.
    + destruct w; discriminate.
    + destruct w; discriminate.
  - destruct sa; [discriminate|].
    destruct (F64.mul b w); try discriminate. destruct s; discriminate.
  - destruct sa; [discriminate|].
    destruct b as [sb | sb | | sb mb eb]; try reflexivity.
    + destruct w; discriminate.
    + unfold F64.div. simpl.
      pose proof (div_core_nonneg ma ea mb eb) as Hq.
      destruct (SFdiv_core_binary F64.prec F64.emax (Z.pos ma) ea (Z.pos mb) eb)
        as [[mz ez] lz]. simpl in Hq.
      apply (signed_number_not_nan (xorb false sb)), binary_round_aux_number. exact Hq.
Qed.

(** The backoff is a number whenever the stored factor is one and the total
    value is not negative. *)
Lemma backoff_not_nan wf tv tdc cv :
  F64.is_nan wf = false ->
  F64.ltb tv F64.zero = false ->
  F64.is_nan (backoff wf tv tdc cv) = false.
Proof.
  intros Hwf Htv. unfold backoff.
  set (w1 := if F64.ltb wf F64.one then F64.one else wf).
  assert (F64.is_nan w1 = false) as Hw1.
  { subst w1. destruct (F64.ltb wf F64.one); [reflexivity | exact Hwf]. }
  assert (F64.is_nan (F64.mul w1 redialWaitStep_f) = false) as Hw2.
  { unfold redialWaitStep_f. rewrite mul_finite_nan. exact Hw1. }
  set (w2 := F64.mul w1 redialWaitStep_f) in *.
  set (a := F64.mul tv dialCost_f).
  set (b := F64.mul (F64.of_Z tdc) cv).
  assert (F64.ltb a F64.zero = false) as Ha.
  { subst a. unfold dialCost_f. apply mul_pos_not_negative. exact Htv. }
  assert (F64.is_nan (if F64.ltb a (F64.mul b w2) then F64.div a b else w2) = false) as Hw3.
  { destruct (F64.ltb a (F64.mul b w2)) eqn:E; [|exact Hw2].
    apply (capped_quotient_not_nan a b w2); assumption. }
  set (w3 := if F64.ltb a _ then _ else _) in *.
  destruct (F64.ltb w3 F64.one); [reflexivity | exact Hw3].
Qed.

(** A stored factor that is not a number passes both clamps and the
    doubling. *)
Lemma backoff_of_nan tv tdc cv : backoff S754_nan tv tdc cv = S754_nan.
Proof.
  unfold backoff. cbv zeta.
  change (F64.ltb S754_nan F64.one) with false. cbv iota.
  change (F64.mul S754_nan redialWaitStep_f) with S754_nan.
  assert (Hm : forall b, F64.mul b S754_nan = S754_nan) by (intros []; reflexivity).
  assert (Hl : forall a, F64.ltb a S754_nan = false) by (intros []; reflexivity).
  rewrite Hm, Hl. reflexivity.
Qed.

(** C2 (amended). After a [calculateNode] call with [failedConnection] or
    [remoteDisconnect], for a node the value tracker knows, the record is
    written back and its [waitFactor] is never below 1, whatever the stored
    factor, the total value, the session value and the dial cost are; it is
    at least 1 whenever it is a number, which it is as soon as the stored
    factor is a number -- below 1, negative and infinite ones included -- and
    the total value is not negative.  A stored factor that is not a number
    is written back as it is. *)
Theorem C2_waitFactor s lo to w node cs failedConnection remoteDisconnect :
  vt_GetNode (sp_vt s) node = Some cs ->
  failedConnection || remoteDisconnect = true ->
  let r := calculateNode_body s lo to w node cs failedConnection remoteDisconnect in
  let wf' := nh_waitFactor (cr_n r) in
  sp_ns (snd (calculateNode s lo to w node failedConnection remoteDisconnect))
  = fst (SetField (sp_ns s) node nodeHistoryField (Some (FvNodeHistory (cr_n r))))
  /\ F64.ltb wf' F64.one = false
  /\ (F64.is_nan wf' = false -> F64.leb F64.one wf' = true)
  /\ (F64.is_nan (nh_waitFactor (readNodeHistory s node)) = false ->
      F64.ltb (totalValueOf s to node cs remoteDisconnect) F64.zero = false ->
      F64.leb F64.one wf' = true)
  /\ (nh_waitFactor (readNodeHistory s node) = S754_nan ->
      wf' = S754_nan /\ F64.leb F64.one wf' = false).
Proof.
  intros H Hfr r wf'.
  destruct (body_fields s lo to w node cs failedConnection remoteDisconnect)
    as (_ & _ & _ & Hst & _ & _ & Hwf & _).
  fold r in Hst, Hwf. destruct (Hwf Hfr) as [Hb _]. fold wf' in Hb.
  assert (F64.ltb wf' F64.one = false) as Hlt
    by (rewrite Hb; apply backoff_not_below_one).
  assert (F64.is_nan wf' = false -> F64.leb F64.one wf' = true) as Hnum
    by (intros Hn; apply not_ltb_leb; [exact Hn | reflexivity | exact Hlt]).
  split; [|split; [exact Hlt | split; [exact Hnum | split]]].
  - rewrite (calculateNode_ns _ _ _ _ _ cs) by exact H. fold r.
    rewrite Hst, Hfr, orb_true_r. reflexivity.
  - intros Hn Htv. apply Hnum. rewrite Hb. apply backoff_not_nan; assumption.
  - intros Hn. rewrite Hb, Hn, backoff_of_nan. split; reflexivity.
Qed.

(** ** The codec of [nodeHistory] *)

Lemma wrap64_wrapU64 z : - 2 ^ 63 <= z < 2 ^ 63 -> wrap64 (wrapU64 z) = z.
Proof.
  intros H. unfold wrap64, wrapU64.
  destruct (Z_lt_le_dec z 0).
  - rewrite <- (Z.mod_unique z (2 ^ 64) (-1) (z + 2 ^ 64)) by lia.
    rewrite <- (Z.mod_unique (z + 2 ^ 64 + 2 ^ 63) (2 ^ 64) 1 (z + 2 ^ 63)) by lia.
    lia.
  - rewrite (Z.mod_small z) by lia. rewrite Z.mod_small; lia.
Qed.

(** C8 (amended). For a record [n] whose [waitFactor * 256] has its floor in
    the range of [uint64] (a [waitFactor] from 0 up to, not including, 2^56),
    on bytes that RLP reads back as written, decoding the encoding of [n]
    gives the [dialCost] and [waitUntil] of [n], the [waitFactor]
    [floor(waitFactor * 256) / 256], and zero [lastTimeout] and
    [totalValue]. *)
Theorem C8_nodeHistory_codec (n : nodeHistory) (z : Z) :
  F64.floor (F64.mul (nh_waitFactor n) F64.c256) = Some z ->
  0 <= z < 2 ^ 64 ->
  - 2 ^ 63 <= nh_waitUntil n < 2 ^ 63 ->
  (let ne := {| DialCost := nh_dialCost n; WaitFactor := z;
                WaitUntil := wrapU64 (nh_waitUntil n) |} in
   rlp_DecodeBytes (rlp_EncodeToBytes (rlpOfEnc ne)) = Some (rlpOfEnc ne)) ->
  exists enc,
    nodeHistoryEncode (FvNodeHistory n) = (enc, None)
    /\ nodeHistoryDecode enc
       = (Some (FvNodeHistory
                  {| nh_dialCost := nh_dialCost n;
                     nh_waitUntil := nh_waitUntil n;
                     nh_lastTimeout := 0;
                     nh_totalValue := F64.zero;
                     nh_waitFactor := F64.div (F64.of_Z z) F64.c256 |}),
          None).
Proof.
  intros Hz Hr Hw Hrlp. simpl in Hrlp.
  unfold nodeHistoryEncode. rewrite (to_uint64_floor _ z Hz Hr).
  eexists. split; [reflexivity|].
  unfold nodeHistoryDecode. rewrite Hrlp.
  destruct (nh_dialCost n) as [b e]. cbn.
  rewrite (wrap64_wrapU64 _ Hw). reflexivity.
Qed.

(** ** Bit masks *)

Lemma mask_values :
  stHasValue = 1 /\ stSelected = 2 /\ stDialed = 4 /\ stConnected = 8
  /\ stRedialWait = 16 /\ stAlwaysConnect = 32 /\ stDisableSelection = 30
  /\ nodeHistoryField = 0 /\ connStatsField = 1.
Proof. repeat split; reflexivity. Qed.

Ltac mask_literals :=
  change stHasValue with 1 in *; change stSelected with 2 in *;
  change stDialed with 4 in *; change stConnected with 8 in *;
  change stRedialWait with 16 in *; change stAlwaysConnect with 32 in *;
  change stDisableSelection with 30 in *.

(** Evaluate the bits of the literal masks. *)
Ltac eval_const_bits :=
  repeat match goal with
         | |- context [Z.testbit (Z.pos ?c) ?k] =>
             let v := eval vm_compute in (Z.testbit (Z.pos c) k) in
             change (Z.testbit (Z.pos c) k) with v
         | |- context [Z.testbit 0 ?k] => rewrite (Z.bits_0 k)
         end.

(** Equalities between bitmasks built from a state and masks below 64, bit by
    bit. *)
Ltac bitwise :=
  apply Z.bits_inj'; intros n Hn;
  repeat first [ rewrite Z.land_spec | rewrite Z.lor_spec
               | rewrite Z.lnot_spec by exact Hn ];
  assert (n = 0 \/ n = 1 \/ n = 2 \/ n = 3 \/ n = 4 \/ n = 5 \/ 6 <= n)
    as [-> | [-> | [-> | [-> | [-> | [-> | Hhi]]]]]] by lia;
  [ eval_const_bits; repeat match goal with
                            | |- context [Z.testbit ?x ?k] => destruct (Z.testbit x k)
                            end; reflexivity ..
  | repeat match goal with
           | |- context [Z.testbit (Z.pos ?c) n] =>
               rewrite (Z.bits_above_log2 (Z.pos c) n) by (simpl; lia)
           | |- context [Z.testbit 0 n] => rewrite (Z.bits_0 n)
           end;
    repeat match goal with
           | |- context [Z.testbit ?x n] => destruct (Z.testbit x n)
           end; reflexivity ].

Lemma updateState_unregister st :
  Z.land (updateState st stRedialWait stConnected) stRedialWait = stRedialWait
  /\ Z.land (updateState st stRedialWait stConnected) stConnected = 0
  /\ Z.land (updateState st stRedialWait stConnected) stHasValue
     = Z.land st stHasValue.
Proof. unfold updateState. mask_literals. repeat split; bitwise. Qed.

Lemma updateState_hasValue st :
  Z.land (updateState st stHasValue 0) stRedialWait = Z.land st stRedialWait
  /\ Z.land (updateState st stHasValue 0) stConnected = Z.land st stConnected
  /\ Z.land (updateState st stHasValue 0) stHasValue = stHasValue.
Proof. unfold updateState. mask_literals. repeat split; bitwise. Qed.

(** ** The state machine's operations *)

Lemma SetField_cases ns id idx v :
  fst (SetField ns id idx v) = ns
  \/ exists ni fs,
      ns_nodes ns !! id = Some ni
      /\ fst (SetField ns id idx v)
         = set_nodes ns (<[id := {| ni_state := ni_state ni;
                                    ni_timeouts := ni_timeouts ni;
                                    ni_fields := fs;
                                    ni_opaque := ni_opaque ni |}]> (ns_nodes ns)).
Proof.
  unfold SetField. cbv zeta.
  destruct (ns_stopped ns); [left; reflexivity|].
  destruct (fieldAt (ns_setup ns) idx); [|left; reflexivity].
  match goal with |- context [if negb ?b then _ else _] => destruct (negb b) end;
    [left; reflexivity|].
  destruct (ns_nodes ns !! id) as [ni|] eqn:E; [|left; reflexivity].
  destruct (ni_state ni =? 0); [left; reflexivity|].
  right. eexists _, _. split; reflexivity.
Qed.

Lemma SetField_frame ns id idx v :
  ns_setup (fst (SetField ns id idx v)) = ns_setup ns
  /\ ns_stopped (fst (SetField ns id idx v)) = ns_stopped ns
  /\ ns_dirty (fst (SetField ns id idx v)) = ns_dirty ns
  /\ (forall j, nodeState (fst (SetField ns id idx v)) j = nodeState ns j)
  /\ (forall j, nodeTimeouts (fst (SetField ns id idx v)) j = nodeTimeouts ns j).
Proof.
  destruct (SetField_cases ns id idx v) as [-> | (ni & fs & E & ->)]; [auto|].
  cbn [set_nodes ns_setup ns_stopped ns_dirty].
  repeat split; intros j; unfold nodeState, nodeTimeouts, set_nodes; cbn [ns_nodes];
    (destruct (decide (id = j)) as [<- | Hne];
     [rewrite lookup_insert_eq, E; reflexivity
     | rewrite lookup_insert_ne by exact Hne; reflexivity]).
Qed.

Lemma SetField_clear ns id idx fd :
  ns_stopped ns = false ->
  fieldAt (ns_setup ns) idx = Some fd ->
  nodeState ns id <> 0 ->
  GetField (fst (SetField ns id idx None)) id idx = None.
Proof.
  intros Hs Hf Hst. unfold SetField. cbv zeta. rewrite Hs, Hf. cbn [negb].
  unfold nodeState in Hst.
  destruct (ns_nodes ns !! id) as [ni|] eqn:E; [|contradiction].
  destruct (Z.eqb_spec (ni_state ni) 0); [contradiction|].
  unfold GetField. cbn [fst set_nodes ns_nodes].
  rewrite lookup_insert_eq. cbn [ni_fields]. apply lookup_delete_eq.
Qed.

Lemma SetField_store ns id idx fd v :
  ns_stopped ns = false ->
  fieldAt (ns_setup ns) idx = Some fd ->
  fieldType_eqb (typeOf v) (fieldFtype fd) = true ->
  nodeState ns id <> 0 ->
  GetField (fst (SetField ns id idx (Some v))) id idx = Some v.
Proof.
  intros Hs Hf Ht Hst. unfold SetField. cbv zeta. rewrite Hs, Hf, Ht. cbn [negb].
  unfold nodeState in Hst.
  destruct (ns_nodes ns !! id) as [ni|] eqn:E; [|contradiction].
  destruct (Z.eqb_spec (ni_state ni) 0); [contradiction|].
  unfold GetField. cbn [fst set_nodes ns_nodes].
  rewrite lookup_insert_eq. cbn [ni_fields]. apply lookup_insert_eq.
Qed.

Lemma SetState_cases ns now id setMask resetMask timeout :
  ns_stopped ns = false ->
  let old := nodeState ns id in
  let new := updateState old setMask resetMask in
  let ni := match ns_nodes ns !! id with
            | Some ni => ni
            | None => nodeInfo_empty
            end in
  (new = old /\ SetState ns now id setMask resetMask timeout = ns)
  \/ (new <> old /\ new = 0
      /\ ns_nodes (SetState ns now id setMask resetMask timeout)
         = delete id (ns_nodes ns)
      /\ ns_dirty (SetState ns now id setMask resetMask timeout)
         = ns_dirty ns ∖ {[ id ]})
  \/ (new <> old /\ new <> 0
      /\ SetState ns now id setMask resetMask timeout
         = set_nodes ns
             (<[id := {| ni_state := new;
                         ni_timeouts :=
                           (if 0 <? timeout
                            then [(setMask, wrap64 (now + timeout))] else [])
                           ++ cancelTimers (Z.lor setMask resetMask) (nodeTimeouts ns id);
                         ni_fields := ni_fields ni;
                         ni_opaque := ni_opaque ni |}]> (ns_nodes ns))).
Proof.
  intros Hs old new ni. subst old new ni.
  unfold SetState, nodeState, nodeTimeouts. cbv zeta. rewrite Hs.
  destruct (ns_nodes ns !! id) as [ni|]; cbn [nodeInfo_empty ni_state
    ni_timeouts ni_fields ni_opaque];
    (match goal with
     | |- context [if ?a =? ?b then ns else _] =>
         destruct (Z.eqb_spec a b) as [He | He]; [left; split; [exact He | reflexivity]|]
     end);
    try (match goal with
         | |- context [if ?a =? 0 then _ else _] =>
             destruct (Z.eqb_spec a 0) as [H0 | H0]
         end);
    try (right; left; cbn [ns_nodes ns_dirty]; repeat split; auto; fail);
    right; right; repeat split; auto; destruct (0 <? timeout); reflexivity.
Qed.

Lemma SetState_frame ns now id setMask resetMask timeout :
  ns_setup (SetState ns now id setMask resetMask timeout) = ns_setup ns
  /\ ns_stopped (SetState ns now id setMask resetMask timeout) = ns_stopped ns.
Proof.
  unfold SetState. cbv zeta. destruct (ns_stopped ns) eqn:E; [auto|].
  destruct (_ =? ni_state _); [auto|].
  destruct (_ =? 0); cbn; auto.
Qed.

Lemma SetState_state ns now id setMask resetMask timeout :
  ns_stopped ns = false ->
  nodeState (SetState ns now id setMask resetMask timeout) id
  = updateState (nodeState ns id) setMask resetMask.
Proof.
  intros Hs.
  destruct (SetState_cases ns now id setMask resetMask timeout Hs)
    as [[He ->] | [(Hne & H0 & Hn & _) | (Hne & H0 & ->)]].
  - symmetry. exact He.
  - rewrite H0. unfold nodeState at 1. rewrite Hn, lookup_delete_eq. reflexivity.
  - unfold nodeState at 1, set_nodes. cbn [ns_nodes].
    rewrite lookup_insert_eq. reflexivity.
Qed.

Lemma SetState_no_field ns now id setMask resetMask timeout idx :
  GetField ns id idx = None ->
  GetField (SetState ns now id setMask resetMask timeout) id idx = None.
Proof.
  intros H.
  destruct (ns_stopped ns) eqn:Hs.
  { unfold SetState. rewrite Hs. exact H. }
  destruct (SetState_cases ns now id setMask resetMask timeout Hs)
    as [[He ->] | [(Hne & H0 & Hn & _) | (Hne & H0 & ->)]].
  - exact H.
  - unfold GetField. rewrite Hn, lookup_delete_eq. reflexivity.
  - unfold GetField in *. unfold set_nodes. cbn [ns_nodes].
    rewrite lookup_insert_eq. cbn [ni_fields].
    destruct (ns_nodes ns !! id); [exact H | apply lookup_empty].
Qed.

Lemma SetState_dirty ns now id setMask resetMask timeout :
  updateState (nodeState ns id) setMask resetMask <> 0 ->
  ns_dirty (SetState ns now id setMask resetMask timeout) = ns_dirty ns.
Proof.
  intros Hnz.
  destruct (ns_stopped ns) eqn:Hs.
  { unfold SetState. rewrite Hs. reflexivity. }
  destruct (SetState_cases ns now id setMask resetMask timeout Hs)
    as [[He ->] | [(Hne & H0 & _) | (Hne & H0 & ->)]];
    [reflexivity | contradiction | reflexivity].
Qed.

(** The timers of a node after a [SetState] that changes its state to a
    non-empty one. *)
Lemma SetState_timeouts ns now id setMask resetMask timeout :
  ns_stopped ns = false ->
  updateState (nodeState ns id) setMask resetMask <> nodeState ns id ->
  updateState (nodeState ns id) setMask resetMask <> 0 ->
  nodeTimeouts (SetState ns now id setMask resetMask timeout) id
  = (if 0 <? timeout then [(setMask, wrap64 (now + timeout))] else [])
    ++ cancelTimers (Z.lor setMask resetMask) (nodeTimeouts ns id).
Proof.
  intros Hs Hne Hnz.
  destruct (SetState_cases ns now id setMask resetMask timeout Hs)
    as [[He _] | [(_ & H0 & _) | (_ & _ & ->)]]; [contradiction ..|].
  unfold nodeTimeouts at 1, set_nodes. cbn [ns_nodes].
  rewrite lookup_insert_eq. reflexivity.
Qed.

(** A [SetState] without a timeout that touches other bits keeps a timer. *)
Lemma SetState_keeps_timer ns now id setMask resetMask mask deadline :
  Z.land mask (Z.lnot (Z.lor setMask resetMask)) = mask ->
  mask <> 0 ->
  updateState (nodeState ns id) setMask resetMask <> 0 ->
  (mask, deadline) ∈ nodeTimeouts ns id ->
  (mask, deadline) ∈ nodeTimeouts (SetState ns now id setMask resetMask 0) id.
Proof.
  intros Hm Hm0 Hnz Hin.
  destruct (ns_stopped ns) eqn:Hs.
  { unfold SetState. rewrite Hs. exact Hin. }
  destruct (SetState_cases ns now id setMask resetMask 0 Hs)
    as [[He ->] | [(_ & H0 & _) | (Hne & _ & _)]]; [exact Hin | contradiction |].
  rewrite SetState_timeouts by assumption. cbn [Z.ltb Z.compare app].
  unfold cancelTimers. apply list_elem_of_filter. split; [exact Hm0|].
  apply list_elem_of_fmap. exists (mask, deadline). cbn [fst snd].
  rewrite Hm. split; [reflexivity | exact Hin].
Qed.

Lemma fieldAt_pool :
  fieldAt serverPoolSetup nodeHistoryField = Some sfiNodeHistory
  /\ fieldAt serverPoolSetup connStatsField = Some sfiConnectedStats.
Proof. split; reflexivity. Qed.

(** [calculateNode] touches the state machine by at most one [SetField]. *)
Lemma calculateNode_ns_cases s lo to w node failedConnection remoteDisconnect :
  sp_ns (snd (calculateNode s lo to w node failedConnection remoteDisconnect))
  = sp_ns s
  \/ exists v,
      sp_ns (snd (calculateNode s lo to w node failedConnection remoteDisconnect))
      = fst (SetField (sp_ns s) node nodeHistoryField v).
Proof.
  destruct (vt_GetNode (sp_vt s) node) as [cs|] eqn:E.
  - rewrite (calculateNode_ns _ _ _ _ _ cs) by exact E.
    destruct (cr_storeField _); eauto.
  - left. unfold calculateNode. rewrite E. reflexivity.
Qed.

Lemma calculateNode_frame s lo to w node failedConnection remoteDisconnect :
  let ns' := sp_ns (snd (calculateNode s lo to w node failedConnection
                                       remoteDisconnect)) in
  ns_setup ns' = ns_setup (sp_ns s)
  /\ ns_stopped ns' = ns_stopped (sp_ns s)
  /\ ns_dirty ns' = ns_dirty (sp_ns s)
  /\ (forall j, nodeState ns' j = nodeState (sp_ns s) j)
  /\ (forall j, nodeTimeouts ns' j = nodeTimeouts (sp_ns s) j).
Proof.
  intros ns'. subst ns'.
  destruct (calculateNode_ns_cases s lo to w node failedConnection remoteDisconnect)
    as [-> | [v ->]].
  - auto.
  - apply SetField_frame.
Qed.

Lemma calculateNode_vt s lo to w node failedConnection remoteDisconnect :
  sp_vt (snd (calculateNode s lo to w node failedConnection remoteDisconnect))
  = sp_vt s.
Proof.
  unfold calculateNode.
  destruct (vt_GetNode (sp_vt s) node) as [cs|]; [|reflexivity].
  cbn [snd].
  destruct (body_fields s lo to w node cs failedConnection remoteDisconnect)
    as (_ & _ & _ & _ & Hp & _).
  destruct (cr_storeField _); cbn [set_ns sp_vt]; rewrite Hp; apply getTimeout_vt.
Qed.

(** ** [unregisterPeer] *)

Lemma land_nonzero_neq a b m : Z.land a m = m -> Z.land b m = 0 -> m <> 0 -> a <> b.
Proof. intros Ha Hb Hm ->. congruence. Qed.

(** C3. For a tracked peer, [unregisterPeer] takes weight and wait from
    [calculateNode] with [failedConnection = false] and
    [remoteDisconnect = true], leaves the [connectedStats] field unset, leaves
    the node with [redialWait] set and [connected] clear -- with a timer for
    [redialWait] after [wait] when [wait] is positive -- and, exactly when the
    weight is at least 100, sets [hasValue] and marks the node for
    persistence; below 100 the [hasValue] flag and the dirty mark stay as
    they were. *)
Theorem C3_unregisterPeer s c now node ni :
  ns_setup (sp_ns s) = serverPoolSetup ->
  ns_stopped (sp_ns s) = false ->
  ns_nodes (sp_ns s) !! node = Some ni ->
  ni_state ni <> 0 ->
  let res := calculateNode s (now_lo c) (now_to c) (now_w c) node false true in
  let wt := fst (fst res) in
  let wait := snd (fst res) in
  let ns' := sp_ns (unregisterPeer s c now node) in
  let st' := nodeState ns' node in
  GetField ns' node connStatsField = None
  /\ Z.land st' stRedialWait = stRedialWait
  /\ Z.land st' stConnected = 0
  /\ (0 < wait -> Z.land (ni_state ni) stConnected <> 0 ->
      (stRedialWait, wrap64 (now + wait)) ∈ nodeTimeouts ns' node)
  /\ (nodeWeightThreshold <= wt ->
      Z.land st' stHasValue = stHasValue /\ node ∈ ns_dirty ns')
  /\ (wt < nodeWeightThreshold ->
      Z.land st' stHasValue = Z.land (ni_state ni) stHasValue
      /\ ns_dirty ns' = ns_dirty (sp_ns s))
  /\ sp_vt (unregisterPeer s c now node) = vt_Unregister (sp_vt s) node.
Proof.
  intros Hsetup Hstop Hnode Hst res wt wait ns' st'.
  assert (nodeState (sp_ns s) node = ni_state ni) as Hold
    by (unfold nodeState; rewrite Hnode; reflexivity).
  pose proof (calculateNode_frame s (now_lo c) (now_to c) (now_w c) node false true)
    as (F1 & F2 & F3 & F4 & F5).
  pose proof (calculateNode_vt s (now_lo c) (now_to c) (now_w c) node false true) as Fvt.
  fold res in F1, F2, F3, F4, F5, Fvt.
  subst ns' st'. unfold unregisterPeer. fold res.
  subst wt wait.
  destruct res as [[wt wait] s1]. cbn [fst snd] in *.
  cbn [sp_ns sp_vt set_ns set_vt].
  set (ns1 := fst (SetField (sp_ns s1) node connStatsField None)).
  set (ns2 := SetState ns1 now node stRedialWait stConnected wait).
  pose proof (SetField_frame (sp_ns s1) node connStatsField None)
    as (G1 & G2 & G3 & G4 & G5).
  fold ns1 in G1, G2, G3, G4, G5.
  assert (ns_stopped ns1 = false) as Hstop1 by congruence.
  assert (GetField ns1 node connStatsField = None) as Hclear.
  { apply (SetField_clear _ _ _ sfiConnectedStats).
    - congruence.
    - rewrite F1, Hsetup. apply fieldAt_pool.
    - rewrite F4, Hold. exact Hst. }
  assert (nodeState ns1 node = ni_state ni) as Hst1 by (rewrite G4, F4; exact Hold).
  assert (nodeState ns2 node = updateState (ni_state ni) stRedialWait stConnected) as Hst2.
  { subst ns2. rewrite SetState_state by exact Hstop1. rewrite Hst1. reflexivity. }
  destruct (updateState_unregister (ni_state ni)) as (U1 & U2 & U3).
  assert (updateState (ni_state ni) stRedialWait stConnected <> 0) as Hnz2.
  { intros H0. rewrite H0 in U1. discriminate U1. }
  assert (ns_stopped ns2 = false) as Hstop2.
  { subst ns2. rewrite (proj2 (SetState_frame _ _ _ _ _ _)). exact Hstop1. }
  assert (ns_dirty ns2 = ns_dirty (sp_ns s)) as Hd2.
  { subst ns2. rewrite SetState_dirty by (rewrite Hst1; exact Hnz2). congruence. }
  assert (0 < wait -> Z.land (ni_state ni) stConnected <> 0 ->
          (stRedialWait, wrap64 (now + wait)) ∈ nodeTimeouts ns2 node) as Ht2.
  { intros Hw Hc. subst ns2. rewrite SetState_timeouts.
    - destruct (Z.ltb_spec 0 wait); [|lia]. apply list_elem_of_here.
    - exact Hstop1.
    - rewrite Hst1. intros He. rewrite He in U2. contradiction.
    - rewrite Hst1. exact Hnz2. }
  destruct (Z.geb_spec wt nodeWeightThreshold) as [Hge | Hlt].
  - (* the weight reaches the threshold *)
    set (ns3 := SetState ns2 now node stHasValue 0 0).
    assert (nodeState ns3 node
            = updateState (updateState (ni_state ni) stRedialWait stConnected)
                          stHasValue 0) as Hst3.
    { subst ns3. rewrite SetState_state by exact Hstop2. rewrite Hst2. reflexivity. }
    destruct (updateState_hasValue
                (updateState (ni_state ni) stRedialWait stConnected))
      as (V1 & V2 & V3).
    assert (nodeState (Persist ns3 node) node = nodeState ns3 node) as Hp by reflexivity.
    rewrite Hp, Hst3.
    split; [|split; [|split; [|split; [|split; [|split]]]]].
    + change (GetField ns3 node connStatsField = None).
      subst ns3. apply SetState_no_field. subst ns2. apply SetState_no_field.
      exact Hclear.
    + rewrite V1. exact U1.
    + rewrite V2. exact U2.
    + intros Hw Hc.
      change ((stRedialWait, wrap64 (now + wait)) ∈ nodeTimeouts ns3 node).
      subst ns3. apply SetState_keeps_timer.
      * reflexivity.
      * discriminate.
      * rewrite Hst2. intros H0. rewrite H0 in V3. discriminate V3.
      * apply Ht2; assumption.
    + intros _. split; [exact V3|]. cbn [Persist ns_dirty].
      apply elem_of_union. right. apply elem_of_singleton. reflexivity.
    + intros Hlt. lia.
    + rewrite Fvt. reflexivity.
  - rewrite Hst2.
    split; [|split; [|split; [|split; [|split; [|split]]]]].
    + subst ns2. apply SetState_no_field. exact Hclear.
    + exact U1.
    + exact U2.
    + exact Ht2.
    + intros Hge. lia.
    + intros _. split; [exact U3 | exact Hd2].
    + rewrite Fvt. reflexivity.
Qed.

(** ** The selected flag *)

Lemma poolChange_keeps_selected st setMask resetMask :
  poolChange setMask resetMask ->
  Z.land (updateState st setMask resetMask) stSelected = Z.land st stSelected.
Proof.
  intros H. unfold updateState. destruct H; mask_literals; bitwise.
Qed.

Lemma land_disable_split st :
  Z.land st stDisableSelection = 0 ->
  Z.land st stSelected = 0
  /\ Z.land st (Z.lor stDialed (Z.lor stConnected stRedialWait)) = 0.
Proof.
  mask_literals. change (Z.lor 4 (Z.lor 8 16)) with 28. intros H.
  assert (forall n, 0 <= n -> Z.testbit st n && Z.testbit 30 n = false) as Hb.
  { intros n Hn. rewrite <- Z.land_spec, H. apply Z.bits_0. }
  split; apply Z.bits_inj'; intros n Hn; rewrite Z.land_spec, Z.bits_0;
    specialize (Hb n Hn);
    (assert (n = 0 \/ n = 1 \/ n = 2 \/ n = 3 \/ n = 4 \/ n = 5 \/ 6 <= n)
      as [-> | [-> | [-> | [-> | [-> | [-> | Hhi]]]]]] by lia;
     [ revert Hb; eval_const_bits; destruct (Z.testbit st _); simpl; congruence ..
     | match goal with
       | |- context [Z.testbit (Z.pos ?c) n] =>
           rewrite (Z.bits_above_log2 (Z.pos c) n) by (simpl; lia)
       end; apply andb_false_r ]).
Qed.

Lemma select_sets_only_selected st :
  Z.land (updateState st stSelected 0) (Z.lor stDialed (Z.lor stConnected stRedialWait))
  = Z.land st (Z.lor stDialed (Z.lor stConnected stRedialWait)).
Proof.
  unfold updateState. mask_literals. change (Z.lor 4 (Z.lor 8 16)) with 28. bitwise.
Qed.

Lemma unselect_clears_selected st :
  Z.land (updateState st 0 stSelected) stSelected = 0.
Proof. unfold updateState. mask_literals. bitwise. Qed.

(** C6 (amended). A selector marks a node as selected only when none of
    [selected], [dialed], [connected] and [redialWait] is set, so the
    exclusion holds when the flag is set, and it holds again once the
    selector has unselected the node; the pool's own state changes -- the dial
    filter, [registerPeer], [unregisterPeer], the dial-timeout handler,
    [start], [stop], the demotion and the expiry of the timers -- leave the
    [selected] bit as it is: none of them clears it. *)
Theorem C6_selected_flag :
  (forall include st,
      selectable include st -> selectedExclusive (updateState st stSelected 0))
  /\ (forall st setMask resetMask,
        poolChange setMask resetMask ->
        Z.land (updateState st setMask resetMask) stSelected = Z.land st stSelected)
  /\ (forall st, selectedExclusive (updateState st 0 stSelected)).
Proof.
  split; [|split].
  - intros include st [_ Hd] _.
    rewrite select_sets_only_selected. apply land_disable_split. exact Hd.
  - intros st setMask resetMask H. apply poolChange_keeps_selected. exact H.
  - intros st Hsel. exfalso. apply Hsel. apply unselect_clears_selected.
Qed.

(** ** Persistence across a restart *)

Lemma nameIndex_Some {A} (nameOf : A -> string) name (l : list A) i :
  nameIndex nameOf name l = Some i ->
  exists x, l !! i = Some x /\ nameOf x = name.
Proof.
  revert i. induction l as [|y l IH]; intros i; simpl; [discriminate|].
  destruct (String.eqb_spec (nameOf y) name) as [He | Hne].
  - intros [= <-]. exists y. split; [reflexivity | exact He].
  - destruct (nameIndex nameOf name l) as [k|]; [|discriminate].
    intros [= <-]. destruct (IH k eq_refl) as (x & Hx & Hn). exists x. auto.
Qed.

Lemma nameIndex_NoDup {A} (nameOf : A -> string) (l : list A) x :
  NoDup (nameOf <$> l) -> x ∈ l ->
  exists i, nameIndex nameOf (nameOf x) l = Some i /\ l !! i = Some x.
Proof.
  induction l as [|y l IH]; intros Hnd Hin; [inversion Hin|].
  rewrite fmap_cons in Hnd. apply NoDup_cons in Hnd as [Hy Hnd].
  simpl. destruct (String.eqb_spec (nameOf y) (nameOf x)) as [He | Hne].
  - exists O. split; [reflexivity|]. simpl. f_equal.
    apply elem_of_cons in Hin as [-> | Hin]; [reflexivity|].
    exfalso. apply Hy. rewrite He. apply list_elem_of_fmap. eauto.
  - apply elem_of_cons in Hin as [-> | Hin]; [contradiction|].
    destruct (IH Hnd Hin) as (i & -> & Hi). exists (S i). auto.
Qed.

Lemma land_mask_bit x j :
  0 <= j -> Z.land x (Z.shiftl 1 j) <> 0 <-> Z.testbit x j = true.
Proof.
  intros Hj. rewrite Z.shiftl_1_l. split.
  - intros Hne. destruct (Z.testbit x j) eqn:E; [reflexivity|].
    exfalso. apply Hne. apply Z.bits_inj'. intros n Hn.
    rewrite Z.land_spec, Z.bits_0, Z.pow2_bits_eqb by exact Hj.
    destruct (Z.eqb_spec j n) as [<- | _]; [rewrite E; reflexivity | apply andb_false_r].
  - intros Hb H0.
    assert (Z.testbit (Z.land x (2 ^ j)) j = true) as Ht.
    { rewrite Z.land_spec, Hb, Z.pow2_bits_eqb, Z.eqb_refl by exact Hj. reflexivity. }
    rewrite H0, Z.bits_0 in Ht. discriminate.
Qed.

Lemma loadFlags_bit s names i :
  Z.testbit (loadFlags s names) (Z.of_nat i) = true
  <-> exists name, name ∈ names /\ flagIndex name (Flags s) = Some i.
Proof.
  induction names as [|name names IH]; simpl.
  - rewrite Z.bits_0. split; [discriminate|]. intros (n & Hn & _). inversion Hn.
  - destruct (flagIndex name (Flags s)) as [k|] eqn:E.
    + rewrite Z.lor_spec, Z.shiftl_1_l, Z.pow2_bits_eqb by lia.
      rewrite orb_true_iff, IH, Z.eqb_eq. split.
      * intros [Hk | (n & Hn & Hi)].
        -- exists name. split; [apply list_elem_of_here|]. rewrite E. f_equal. lia.
        -- exists n. split; [apply list_elem_of_further; exact Hn | exact Hi].
      * intros (n & Hn & Hi). apply elem_of_cons in Hn as [-> | Hn].
        -- left. rewrite E in Hi. injection Hi as ->. reflexivity.
        -- right. eauto.
    + rewrite IH. split.
      * intros (n & Hn & Hi). exists n. split; [apply list_elem_of_further; exact Hn | exact Hi].
      * intros (n & Hn & Hi). apply elem_of_cons in Hn as [-> | Hn]; [congruence|]. eauto.
Qed.

(** The state a restart restores for a node: the persistent flags that were
    set without a timeout, under the masks of the new setup. *)
Lemma restored_flag s s' ni f :
  f ∈ Flags s -> f ∈ Flags s' -> flagPersistent f = true ->
  Z.land (loadFlags s' (savedFlags s ni)) (StateMask s' f) <> 0
  <-> Z.land (storedState ni) (StateMask s f) <> 0.
Proof.
  intros Hin Hin' Hp.
  unfold StateMask at 1.
  assert (exists j, flagIndex (flagName f) (Flags s') = Some j) as [j Hj].
  { clear -Hin'. induction (Flags s') as [|g l IH]; [inversion Hin'|].
    unfold flagIndex in *. simpl.
    destruct (String.eqb_spec (flagName g) (flagName f)); [eauto|].
    apply elem_of_cons in Hin' as [-> | H]; [contradiction|].
    destruct (IH H) as [k ->]. eauto. }
  rewrite Hj, land_mask_bit, loadFlags_bit by lia.
  unfold savedFlags. split.
  - intros (name & Hn & Hidx).
    apply list_elem_of_fmap in Hn as (g & -> & Hg).
    apply list_elem_of_filter in Hg as [[_ Hg] Hgin].
    destruct (nameIndex_Some _ _ _ _ Hidx) as (x & Hx & Hxn).
    destruct (nameIndex_Some _ _ _ _ Hj) as (y & Hy & Hyn).
    assert (flagName g = flagName f) as Hgf by congruence.
    unfold StateMask in *. rewrite <- Hgf. exact Hg.
  - intros Hst. exists (flagName f). split; [|exact Hj].
    apply list_elem_of_fmap. exists f. split; [reflexivity|].
    apply list_elem_of_filter. auto.
Qed.

Lemma encodeFields_names ni i l name blob :
  (name, blob) ∈ encodeFields ni i l -> name ∈ fieldName <$> l.
Proof.
  revert i. induction l as [|fd l IH]; intros i; simpl; [intros H; inversion H|].
  unfold encodeField at 1.
  destruct (fieldCodec fd) as [[encode decode]|];
    [destruct (ni_fields ni !! Z.of_nat i) as [v|];
     [destruct (encode v) as [b [e|]]|]|];
    try (intros H; apply list_elem_of_further; exact (IH _ H)).
  intros H. apply elem_of_cons in H as [[= -> ->] | H].
  - apply list_elem_of_here.
  - apply list_elem_of_further. exact (IH _ H).
Qed.

(** The encoding of a field sits in the saved list before any other entry of
    its name. *)
Lemma encodeFields_first ni i l k fd blob :
  NoDup (fieldName <$> l) ->
  l !! k = Some fd ->
  encodeField ni (i + k) fd = Some (fieldName fd, blob) ->
  exists l1 l2,
    encodeFields ni i l = l1 ++ (fieldName fd, blob) :: l2
    /\ fieldName fd ∉ l1.*1.
Proof.
  revert i k. induction l as [|g l IH]; intros i k Hnd Hk He; [discriminate|].
  rewrite fmap_cons in Hnd. apply NoDup_cons in Hnd as [Hg Hnd].
  destruct k as [|k]; simpl in Hk.
  - injection Hk as ->. simpl. rewrite Nat.add_0_r in He. rewrite He.
    exists [], (encodeFields ni (S i) l). split; [reflexivity|]. apply not_elem_of_nil.
  - assert (fieldName g <> fieldName fd) as Hne.
    { intros Heq. apply Hg. rewrite Heq. apply list_elem_of_fmap. exists fd.
      split; [reflexivity|]. eapply list_elem_of_lookup_2. exact Hk. }
    replace (i + S k)%nat with (S i + k)%nat in He by lia.
    destruct (IH (S i) k Hnd Hk He) as (l1 & l2 & Hl & Hn1).
    simpl. destruct (encodeField ni i g) as [[n b]|] eqn:Eg.
    + exists ((n, b) :: l1), l2. rewrite Hl. split; [reflexivity|].
      rewrite fmap_cons. cbn [fst]. apply not_elem_of_cons. split; [|exact Hn1].
      unfold encodeField in Eg.
      destruct (fieldCodec g) as [[encode decode]|]; [|discriminate].
      destruct (ni_fields ni !! Z.of_nat i) as [v|]; [|discriminate].
      destruct (encode v) as [b' [e|]]; [discriminate|].
      injection Eg as <- _. congruence.
    + exists l1, l2. auto.
Qed.

Lemma decoderOf_name s name i decode :
  decoderOf s name = Some (i, decode) ->
  exists k fd, i = Z.of_nat k /\ Fields s !! k = Some fd /\ fieldName fd = name.
Proof.
  unfold decoderOf.
  destruct (fieldIndex name (Fields s)) as [k|] eqn:E; [|discriminate].
  destruct (nameIndex_Some _ _ _ _ E) as (fd & Hfd & Hn).
  rewrite Hfd. destruct (fieldCodec fd) as [[e d]|]; [|discriminate].
  intros [= <- <-]. eauto.
Qed.

(** Loading reads a field from the first saved entry of its name. *)
Lemma loadFields_first s l1 l2 name blob i decode v :
  name ∉ l1.*1 ->
  decoderOf s name = Some (i, decode) ->
  decode blob = (Some v, None) ->
  fst (loadFields s (l1 ++ (name, blob) :: l2)) !! i = Some v.
Proof.
  intros Hn Hd Hv. induction l1 as [|[n b] l1 IH].
  - simpl. destruct (loadFields s l2) as [fs opaque].
    rewrite Hd, Hv. cbn [fst]. apply lookup_insert_eq.
  - rewrite fmap_cons in Hn. cbn [fst] in Hn.
    apply not_elem_of_cons in Hn as [Hne Hn]. specialize (IH Hn).
    simpl. destruct (loadFields s (l1 ++ (name, blob) :: l2)) as [fs opaque].
    cbn [fst] in IH.
    destruct (decoderOf s n) as [[j d]|] eqn:Ej; [|exact IH].
    assert (j <> i) as Hji.
    { intros ->.
      destruct (decoderOf_name _ _ _ _ Ej) as (k1 & f1 & H1 & Hf1 & Hn1).
      destruct (decoderOf_name _ _ _ _ Hd) as (k2 & f2 & H2 & Hf2 & Hn2).
      assert (k1 = k2) by lia. subst k2. congruence. }
    destruct (d b) as [[x|] [e|]]; cbn [fst]; try exact IH.
    rewrite lookup_insert_ne by exact Hji. exact IH.
Qed.

(** C7 (amended). After [Stop] and a restart under a setup [s'], for every
    node that was tracked: a persistent flag registered in both setups is set
    again -- under its new mask -- exactly when it was set without a pending
    timeout; a persistent field registered in both setups and holding [v]
    comes back, under its new index, as the decoding of the encoding of [v].
    The values are looked up by name, so the order of registration does not
    matter.  The value read back is [v] itself for a codec that decodes what
    it encoded to the same value. *)
Theorem C7_restart ns s' id ni :
  ns_nodes ns !! id = Some ni ->
  NoDup (fieldName <$> Fields (ns_setup ns)) ->
  NoDup (fieldName <$> Fields s') ->
  let s := ns_setup ns in
  let ns' := Start (NewNodeStateMachine (ns_db (Stop ns)) s') in
  (forall f,
      f ∈ Flags s -> f ∈ Flags s' -> flagPersistent f = true ->
      Z.land (nodeState ns' id) (StateMask s' f) <> 0
      <-> Z.land (storedState ni) (StateMask s f) <> 0)
  /\ (forall fd encode decode v blob v',
        fd ∈ Fields s -> fd ∈ Fields s' ->
        fieldCodec fd = Some (encode, decode) ->
        ni_fields ni !! FieldIndex s fd = Some v ->
        encode v = (blob, None) ->
        decode blob = (Some v', None) ->
        GetField ns' id (FieldIndex s' fd) = Some v').
Proof.
  intros Hnode Hnd Hnd' s ns'.
  assert (ns_nodes ns' !! id = loadNode s' <$> saveNode s ni) as Hload.
  { subst ns'. unfold Start, NewNodeStateMachine, set_nodes, Stop.
    cbn [ns_nodes ns_db ns_setup].
    rewrite lookup_fmap, lookup_merge, Hnode.
    destruct (ns_db ns !! id); reflexivity. }
  split.
  - intros f Hin Hin' Hp.
    rewrite <- (restored_flag s s' ni f Hin Hin' Hp).
    assert (nodeState ns' id = loadFlags s' (savedFlags s ni)) as ->; [|reflexivity].
    unfold nodeState. rewrite Hload. unfold saveNode.
    destruct (savedFlags s ni) as [|n l] eqn:Efl;
      destruct (savedFields s ni) as [|e l'] eqn:Efs;
      cbn [fmap option_fmap option_map]; try reflexivity;
      unfold loadNode; cbn [enc_flags enc_fields];
      match goal with
      | |- context [loadFields s' ?l] => destruct (loadFields s' l)
      end; reflexivity.
  - intros fd encode decode v blob v' Hin Hin' Hc Hv He Hd.
    destruct (nameIndex_NoDup fieldName (Fields s) fd Hnd Hin) as (k & Hk & Hfk).
    destruct (nameIndex_NoDup fieldName (Fields s') fd Hnd' Hin') as (k' & Hk' & Hfk').
    unfold FieldIndex in *. fold fieldIndex in Hk, Hk'. rewrite Hk in Hv. rewrite Hk'.
    assert (encodeField ni (0 + k) fd = Some (fieldName fd, blob)) as Henc.
    { unfold encodeField. rewrite Hc. cbn [Nat.add]. rewrite Hv, He. reflexivity. }
    destruct (encodeFields_first ni 0 (Fields s) k fd blob Hnd Hfk Henc)
      as (l1 & l2 & Hl & Hn1).
    assert (decoderOf s' (fieldName fd) = Some (Z.of_nat k', decode)) as Hdec.
    { unfold decoderOf. rewrite Hk', Hfk', Hc. reflexivity. }
    unfold GetField. rewrite Hload. unfold saveNode, savedFields. rewrite Hl.
    rewrite <- app_assoc, <- app_comm_cons.
    destruct (savedFlags s ni); destruct l1; cbn [app fmap option_fmap option_map];
      unfold loadNode; cbn [enc_fields];
      match goal with
      | |- context [loadFields s' ?l] =>
          pose proof (loadFields_first s' _ (l2 ++ ni_opaque ni) _ _ _ _ _ Hn1 Hdec Hd)
            as Hfirst;
          cbn [app] in Hfirst;
          destruct (loadFields s' l) as [fs opaque]
      end; exact Hfirst.
Qed.

(** ** The backoff after a failed dial *)

Lemma digits2_bounds p :
  2 ^ (Z.pos (digits2_pos p) - 1) <= Z.pos p < 2 ^ Z.pos (digits2_pos p).
Proof.
  induction p as [p IH | p IH |]; simpl digits2_pos.
  - rewrite Pos2Z.inj_succ.
    replace (Z.succ (Z.pos (digits2_pos p)) - 1) with (Z.succ (Z.pos (digits2_pos p) - 1)) by lia.
    rewrite !Z.pow_succ_r by lia. lia.
  - rewrite Pos2Z.inj_succ.
    replace (Z.succ (Z.pos (digits2_pos p)) - 1) with (Z.succ (Z.pos (digits2_pos p) - 1)) by lia.
    rewrite !Z.pow_succ_r by lia. lia.
  - simpl. lia.
Qed.

Lemma Zdigits2_unique p d :
  2 ^ (d - 1) <= Z.pos p < 2 ^ d -> Zdigits2 (Z.pos p) = d.
Proof.
  intros [Hlo Hhi]. simpl.
  pose proof (digits2_bounds p) as [Blo Bhi].
  set (d' := Z.pos (digits2_pos p)) in *.
  assert (0 < d') by (subst d'; lia).
  destruct (Z_lt_le_dec d 1) as [Hd | Hd].
  { assert (2 ^ d <= 2 ^ 0) by (destruct (Z_lt_le_dec d 0);
      [rewrite Z.pow_neg_r by lia; simpl; lia | apply Z.pow_le_mono_r; lia]).
    simpl in *. lia. }
  destruct (Z.lt_trichotomy d' d) as [Hlt | [Heq | Hgt]]; [|exact Heq|].
  - assert (2 ^ d' <= 2 ^ (d - 1)) by (apply Z.pow_le_mono_r; lia). lia.
  - assert (2 ^ d <= 2 ^ (d' - 1)) by (apply Z.pow_le_mono_r; lia). lia.
Qed.

Lemma shr_1_m mrs : 0 <= shr_m mrs -> shr_m (shr_1 mrs) = shr_m mrs / 2.
Proof.
  destruct mrs as [m r s]. simpl. intros Hm.
  destruct m as [| [q | q |] | q]; simpl; try reflexivity; try lia.
  - rewrite Pos2Z.inj_xI. apply (Z.div_unique _ _ _ 1); lia.
  - rewrite Pos2Z.inj_xO. apply (Z.div_unique _ _ _ 0); lia.
Qed.

Lemma iter_shr_1_m k mrs :
  0 <= shr_m mrs ->
  0 <= shr_m (iter_pos shr_1 k mrs)
  /\ shr_m (iter_pos shr_1 k mrs) = shr_m mrs / 2 ^ Z.pos k.
Proof.
  revert mrs. induction k as [k IH | k IH |]; intros mrs Hm; simpl iter_pos.
  - pose proof (shr_1_nonneg mrs Hm) as H1. pose proof (shr_1_m mrs Hm) as E1.
    destruct (IH _ H1) as [H2 E2]. destruct (IH _ H2) as [H3 E3].
    split; [exact H3|]. rewrite E3, E2, E1.
    rewrite !Z.div_div by (try apply Z.pow_pos_nonneg; lia).
    f_equal.
    replace (Z.pos k~1) with (1 + Z.pos k + Z.pos k) by lia.
    rewrite !Z.pow_add_r by lia. change (2 ^ 1) with 2. lia.
  - destruct (IH _ Hm) as [H2 E2]. destruct (IH _ H2) as [H3 E3].
    split; [exact H3|]. rewrite E3, E2.
    rewrite !Z.div_div by (try apply Z.pow_pos_nonneg; lia).
    f_equal.
    replace (Z.pos k~0) with (Z.pos k + Z.pos k) by lia.
    rewrite !Z.pow_add_r by lia. lia.
  - split; [apply shr_1_nonneg; exact Hm|]. rewrite shr_1_m by exact Hm. reflexivity.
Qed.

Lemma shr_fexp_exact m e d :
  Zdigits2 m = d ->
  shr_fexp F64.prec F64.emax m e loc_Exact
  = shr {| shr_m := m; shr_r := false; shr_s := false |} e
        (Z.max (d + e - 53) (-1074) - e).
Proof. intros <-. reflexivity. Qed.

Lemma round_nearest_even_bounds m l :
  m <= round_nearest_even m l <= m + 1.
Proof.
  unfold round_nearest_even. destruct l as [| []]; try lia. destruct (Z.even m); lia.
Qed.

Lemma round_shape (P : positive) (E d : Z) :
  2 ^ (d - 1) <= Z.pos P < 2 ^ d -> 54 <= d -> -1074 <= d + E - 53 ->
  exists m3 e3,
    binary_round_aux F64.prec F64.emax false (Z.pos P) E loc_Exact
    = (if e3 <=? 971 then S754_finite false m3 e3 else S754_infinity false)
    /\ normal m3
    /\ ((e3 = E + (d - 53) /\ Z.pos P / 2 ^ (d - 53) <= Z.pos m3)
        \/ e3 = E + (d - 53) + 1).
Proof.
  intros HP Hd HE. unfold binary_round_aux.
  rewrite (shr_fexp_exact _ _ d) by (apply Zdigits2_unique; exact HP).
  rewrite Z.max_l by lia. replace (d + E - 53 - E) with (d - 53) by lia.
  destruct (d - 53) as [|k|k] eqn:Ek; try lia.
  unfold shr at 1.
  destruct (iter_shr_1_m k {| shr_m := Z.pos P; shr_r := false; shr_s := false |})
    as [Hn Em]; [simpl; lia|].
  simpl shr_m in Em.
  set (mrs' := iter_pos shr_1 k _) in *.
  assert (2 ^ 52 <= shr_m mrs' < 2 ^ 53) as Hm1.
  { rewrite Em.
    assert (0 < 2 ^ Z.pos k) by (apply Z.pow_pos_nonneg; lia).
    assert (2 ^ (d - 1) = 2 ^ Z.pos k * 2 ^ 52) as E1
      by (rewrite <- Z.pow_add_r by lia; f_equal; lia).
    assert (2 ^ d = 2 ^ Z.pos k * 2 ^ 53) as E2
      by (rewrite <- Z.pow_add_r by lia; f_equal; lia).
    split.
    - apply Z.div_le_lower_bound; lia.
    - apply Z.div_lt_upper_bound; lia. }
  pose proof (round_nearest_even_bounds (shr_m mrs') (loc_of_shr_record mrs')) as Hm2.
  set (m2 := round_nearest_even _ _) in *.
  destruct (Z_lt_le_dec m2 (2 ^ 53)) as [Hlt | Hge].
  - destruct m2 as [|q|q] eqn:Eq; try lia.
    rewrite (shr_fexp_exact _ _ 53) by (apply Zdigits2_unique; lia).
    rewrite Z.max_l by lia.
    replace (53 + (E + Z.pos k) - 53 - (E + Z.pos k)) with 0 by lia.
    cbn [shr shr_m]. exists q, (E + Z.pos k).
    split; [reflexivity|]. split; [unfold normal; lia|].
    left. split; [reflexivity|]. rewrite <- Em. lia.
  - assert (m2 = 2 ^ 53) as -> by lia.
    rewrite (shr_fexp_exact _ _ 54) by reflexivity.
    rewrite Z.max_l by lia.
    replace (54 + (E + Z.pos k) - 53 - (E + Z.pos k)) with 1 by lia.
    cbn. exists (2 ^ 52)%positive, (E + Z.pos k + 1).
    split; [reflexivity|]. split; [unfold normal; simpl; lia|].
    right. reflexivity.
Qed.

Lemma mul_normal mx ex my ey :
  normal mx -> normal my -> -1074 <= ex + ey + 52 ->
  exists m3 e3,
    F64.mul (S754_finite false mx ex) (S754_finite false my ey)
    = (if e3 <=? 971 then S754_finite false m3 e3 else S754_infinity false)
    /\ normal m3
    /\ ex + ey + 52 <= e3
    /\ (e3 = ex + ey + 52 -> Z.pos mx * Z.pos my / 2 ^ 52 <= Z.pos m3).
Proof.
  intros [Hx1 Hx2] [Hy1 Hy2] He.
  unfold F64.mul. cbn [SFmul xorb].
  assert (2 ^ 104 <= Z.pos (mx * my) < 2 ^ 106) as HP.
  { rewrite Pos2Z.inj_mul.
    change (2 ^ 104) with (2 ^ 52 * 2 ^ 52). change (2 ^ 106) with (2 ^ 53 * 2 ^ 53).
    nia. }
  destruct (Z_lt_le_dec (Z.pos (mx * my)) (2 ^ 105)) as [Hlt | Hge].
  - destruct (round_shape (mx * my) (ex + ey) 105) as (m3 & e3 & Hr & Hn & Hs);
      [split; [apply HP | exact Hlt] | lia | lia |].
    exists m3, e3. split; [exact Hr|]. split; [exact Hn|].
    change (105 - 53) with 52 in Hs. rewrite Pos2Z.inj_mul in Hs.
    destruct Hs as [[-> Hm] | ->]; split; lia.
  - destruct (round_shape (mx * my) (ex + ey) 106) as (m3 & e3 & Hr & Hn & Hs);
      [split; [exact Hge | apply HP] | lia | lia |].
    exists m3, e3. split; [exact Hr|]. split; [exact Hn|].
    change (106 - 53) with 53 in Hs.
    destruct Hs as [[-> Hm] | ->]; split; lia.
Qed.

(** A well-formed number that is not below 1 is +infinity or a normal
    positive number with exponent at least -52. *)
Lemma not_below_one_shape x :
  F64.valid x = true -> F64.is_nan x = false -> F64.ltb x F64.one = false ->
  at_least (-52) x.
Proof.
  intros Hv Hn Hlt. destruct x as [s | s | | s m e]; try discriminate.
  - destruct s; [discriminate | left; reflexivity].
  - destruct s; [discriminate|]. right. exists m, e. split; [reflexivity|].
    unfold F64.ltb, SFltb, F64.one in Hlt. cbn [SFcompare] in Hlt.
    assert (-52 <= e) as He.
    { destruct (Z.compare_spec e (-52)); first [lia | discriminate]. }
    split; [|exact He].
    unfold F64.valid, valid_binary, bounded, canonical_mantissa in Hv.
    apply andb_true_iff in Hv as [Hc _]. apply Z.eqb_eq in Hc.
    unfold fexp, emin, F64.prec, F64.emax in Hc.
    pose proof (digits2_bounds m) as Hb.
    assert (Z.pos (digits2_pos m) = 53) as Hd by lia.
    rewrite Hd in Hb. exact Hb.
Qed.

Lemma at_least_not_below_one x e0 : -51 <= e0 -> at_least e0 x -> F64.ltb x F64.one = false.
Proof.
  intros He [-> | (m & e & -> & _ & Hle)]; [reflexivity|].
  unfold F64.ltb, SFltb, F64.one. cbn [SFcompare].
  destruct (Z.compare_spec e (-52)); first [lia | reflexivity].
Qed.

Lemma double_shape x : at_least (-52) x -> at_least (-51) (F64.mul x redialWaitStep_f).
Proof.
  intros [-> | (m & e & -> & Hm & He)]; [left; reflexivity|].
  unfold redialWaitStep_f.
  destruct (mul_normal m e 4503599627370496 (-51) Hm) as (m3 & e3 & Hr & Hn & Hle & _);
    [unfold normal; simpl; lia | lia |].
  rewrite Hr. destruct (e3 <=? 971); [|left; reflexivity].
  right. exists m3, e3. split; [reflexivity|]. split; [exact Hn | lia].
Qed.

Lemma wait_lower_bound x z :
  at_least (-51) x ->
  F64.trunc (F64.mul minRedialWait_f x) = Some z ->
  2 * minRedialWait <= z.
Proof.
  intros [-> | (m & e & -> & Hm & He)]; [discriminate|].
  unfold minRedialWait_f.
  destruct (mul_normal 5242880000000000 (-19) m e) as (m3 & e3 & Hr & Hn & Hle & Hlow);
    [unfold normal; simpl; lia | exact Hm | lia |].
  rewrite Hr. destruct (e3 <=? 971); [|discriminate].
  cbn [F64.trunc]. intros [= <-].
  change (2 * minRedialWait) with 20000000000.
  destruct Hn as [Hn1 Hn2]. change (2 ^ 52) with 4503599627370496 in Hn1.
  destruct e3 as [|p|k].
  - lia.
  - assert (0 < 2 ^ Z.pos p) by (apply Z.pow_pos_nonneg; lia). nia.
  - assert (0 < 2 ^ Z.pos k) as Hpos by (apply Z.pow_pos_nonneg; lia).
    apply Z.div_le_lower_bound; [exact Hpos|].
    destruct (Z.eq_dec (Z.pos k) 18) as [Hk | Hk].
    + (* the exponent is the least possible: the mantissa is at least that of 10s *)
      rewrite Hk. assert (e = -51) as -> by lia.
      specialize (Hlow ltac:(lia)).
      assert (5242880000000000 <= 5242880000000000 * Z.pos m / 2 ^ 52) as Hq.
      { apply Z.div_le_lower_bound; [reflexivity|].
        destruct Hm as [Hm1 _]. change (2 ^ 52) with 4503599627370496 in *. lia. }
      change (2 ^ 18) with 262144. lia.
    + assert (2 ^ Z.pos k <= 2 ^ 17) as Hp by (apply Z.pow_le_mono_r; lia).
      change (2 ^ 17) with 131072 in Hp. nia.
Qed.

Lemma of_Z_pos_number z : 0 < z -> signed_number false (F64.of_Z z).
Proof.
  intros Hz. destruct z as [|q|q]; try lia.
  unfold F64.of_Z, binary_normalize, binary_round.
  destruct (shl_align q 0 _) as [mz ez].
  apply binary_round_aux_number. lia.
Qed.

Lemma ltb_nan_r a : F64.ltb a S754_nan = false.
Proof. destruct a; reflexivity. Qed.

Lemma ltb_zero_sign a s : F64.ltb a F64.zero = false -> F64.ltb a (S754_zero s) = false.
Proof. destruct a; intros H; exact H. Qed.

(** Without a session value the cap of line 365 does not apply and the last
    clamp changes nothing. *)
Lemma backoff_failed wf tv tdc :
  0 < tdc ->
  F64.valid wf = true -> F64.is_nan wf = false ->
  F64.ltb tv F64.zero = false ->
  backoff wf tv tdc F64.zero
  = F64.mul (if F64.ltb wf F64.one then F64.one else wf) redialWaitStep_f
  /\ at_least (-51) (backoff wf tv tdc F64.zero).
Proof.
  intros Htdc Hv Hn Htv. unfold backoff.
  set (w1 := if F64.ltb wf F64.one then F64.one else wf).
  assert (at_least (-52) w1) as Hw1.
  { subst w1. destruct (F64.ltb wf F64.one) eqn:E.
    - right. exists 4503599627370496%positive, (-52). split; [reflexivity|].
      split; [unfold normal; simpl; lia | lia].
    - apply not_below_one_shape; assumption. }
  pose proof (double_shape w1 Hw1) as Hw2.
  set (w2 := F64.mul w1 redialWaitStep_f) in *.
  set (a := F64.mul tv dialCost_f).
  assert (F64.ltb a F64.zero = false) as Ha
    by (subst a; unfold dialCost_f; apply mul_pos_not_negative; exact Htv).
  assert (F64.ltb a (F64.mul (F64.mul (F64.of_Z tdc) F64.zero) w2) = false) as ->.
  { destruct (of_Z_pos_number tdc Htdc) as [-> | [-> | (m & e & ->)]];
      destruct Hw2 as [-> | (m2 & e2 & -> & _)]; cbn;
      first [apply ltb_nan_r | apply ltb_zero_sign; exact Ha]. }
  rewrite (at_least_not_below_one w2 (-51)) by (lia || exact Hw2).
  split; [reflexivity | exact Hw2].
Qed.

(** C10 (amended). For a call of [calculateNode] with [failedConnection]
    and without [remoteDisconnect], on a node the value tracker knows, whose
    stored wait factor is a number and whose total value is not negative: the
    session value is 0, the cap of the backoff does not apply, the stored
    wait factor becomes [max(previous, 1) * 2], and the wait returned is
    [minRedialWait] times that factor converted to [int64] -- the product in
    whole nanoseconds, at least [2 * minRedialWait = 20s], whenever the
    product is below 2^63 nanoseconds. *)
Theorem C10_failed_connection s lo to w node cs :
  vt_GetNode (sp_vt s) node = Some cs ->
  F64.valid (nh_waitFactor (readNodeHistory s node)) = true ->
  F64.is_nan (nh_waitFactor (readNodeHistory s node)) = false ->
  F64.ltb (totalValueOf s to node cs false) F64.zero = false ->
  let wf := nh_waitFactor (readNodeHistory s node) in
  let factor := F64.mul (if F64.ltb wf F64.one then F64.one else wf) redialWaitStep_f in
  let res := calculateNode s lo to w node true false in
  let wait := snd (fst res) in
  currentValueOf s node cs false = F64.zero
  /\ (exists n',
        sp_ns (snd res)
        = fst (SetField (sp_ns s) node nodeHistoryField (Some (FvNodeHistory n')))
        /\ nh_waitFactor n' = factor)
  /\ wait = to_int64 (F64.mul minRedialWait_f factor)
  /\ forall z,
      F64.trunc (F64.mul minRedialWait_f factor) = Some z ->
      z < 2 ^ 63 ->
      wait = z /\ 2 * minRedialWait <= z.
Proof.
  intros Hvt Hv Hn Htv wf factor res wait.
  set (r := calculateNode_body s lo to w node cs true false).
  assert (wait = cr_wait r) as Hres.
  { subst wait res. rewrite (calculateNode_result _ _ _ _ _ cs) by exact Hvt.
    reflexivity. }
  destruct (body_fields s lo to w node cs true false)
    as (_ & _ & _ & Hst & _ & _ & Hwf & _).
  fold r in Hwf, Hst. destruct (Hwf eq_refl) as [Hb Hwait].
  change (currentValueOf s node cs false) with F64.zero in Hb.
  destruct (backoff_failed wf (totalValueOf s to node cs false)
              (Z.max (totalDialCostOf s lo node true false) dialCost))
    as [Hbk Hshape]; try assumption.
  { unfold dialCost. lia. }
  fold wf in Hb. rewrite Hbk in Hb. fold factor in Hb.
  rewrite Hbk in Hshape. fold factor in Hshape.
  rewrite Hb in Hwait. rewrite <- Hres in Hwait.
  split; [reflexivity|]. split; [|split; [exact Hwait|]].
  - exists (cr_n r). split; [|exact Hb].
    subst res. rewrite (calculateNode_ns _ _ _ _ _ cs) by exact Hvt. fold r.
    rewrite Hst, orb_true_r. reflexivity.
  - intros z Hz Hr.
    pose proof (wait_lower_bound factor z Hshape Hz) as Hlow.
    split; [|exact Hlow].
    rewrite Hwait. unfold to_int64. rewrite Hz.
    unfold is_int64.
    assert (0 < minRedialWait) by reflexivity.
    destruct (Z.leb_spec (- 2 ^ 63) z); [|lia].
    destruct (Z.ltb_spec z (2 ^ 63)); [reflexivity | lia].
Qed.

(** ** The persistent clock *)

Lemma wrap64_range z : - 2 ^ 63 <= wrap64 z < 2 ^ 63.
Proof. unfold wrap64. pose proof (Z.mod_pos_bound (z + 2 ^ 63) (2 ^ 64)). lia. Qed.

Lemma wrap64_add_r a b : wrap64 (a + wrap64 b) = wrap64 (a + b).
Proof.
  unfold wrap64. f_equal.
  replace (a + ((b + 2 ^ 63) mod 2 ^ 64 - 2 ^ 63) + 2 ^ 63)
    with (a + (b + 2 ^ 63) mod 2 ^ 64) by lia.
  rewrite Z.add_mod_idemp_r by lia. f_equal. lia.
Qed.

Lemma wrap64_add_l a b : wrap64 (wrap64 a + b) = wrap64 (a + b).
Proof. rewrite Z.add_comm, wrap64_add_r. f_equal. lia. Qed.

Lemma wrapU64_range z : 0 <= wrapU64 z < 2 ^ 64.
Proof. unfold wrapU64. apply Z.mod_pos_bound. lia. Qed.

Lemma fromByte_toByte d : 0 <= d < 256 -> fromByte (toByte d) = d.
Proof.
  intros Hd. unfold fromByte, toByte.
  destruct (Byte.of_N (Z.to_N d)) as [b|] eqn:E.
  - simpl. apply Byte.to_of_N in E. rewrite E. lia.
  - exfalso. apply Byte.of_N_None_iff in E. lia.
Qed.

(** The bits of one byte of [v], shifted back to its place. *)
Lemma byte_bit v k n :
  0 <= k -> 0 <= n ->
  Z.testbit (Z.shiftl (Z.shiftr v k mod 2 ^ 8) k) n
  = (k <=? n) && (n <? k + 8) && Z.testbit v n.
Proof.
  intros Hk Hn. destruct (Z.leb_spec k n) as [Hle | Hlt]; simpl.
  - rewrite Z.shiftl_spec by lia.
    destruct (Z.ltb_spec n (k + 8)) as [Hin | Hout]; simpl.
    + rewrite Z.mod_pow2_bits_low by lia. rewrite Z.shiftr_spec by lia.
      f_equal. lia.
    + apply Z.mod_pow2_bits_high. lia.
  - apply Z.shiftl_spec_low. lia.
Qed.

Lemma Uint64_PutUint64 v : 0 <= v < 2 ^ 64 -> Uint64 (PutUint64 v) = v.
Proof.
  intros Hv. unfold PutUint64, Uint64.
  rewrite !fromByte_toByte by (apply Z.mod_pos_bound; lia).
  apply Z.bits_inj'. intros n Hn.
  rewrite <- (Z.shiftr_0_r v) at 1. rewrite <- (Z.shiftl_0_r (Z.shiftr v 0 mod 256)).
  change 256 with (2 ^ 8).
  rewrite !Z.lor_spec, !byte_bit by lia.
  destruct (Z.testbit v n) eqn:E.
  - assert (n < 64).
    { destruct (Z.lt_ge_cases n 64) as [H | H]; [exact H|].
      rewrite <- (Z.mod_small v (2 ^ 64)) in E by lia.
      rewrite Z.mod_pow2_bits_high in E by lia. discriminate. }
    assert (Hcase : n < 8 \/ 8 <= n < 16 \/ 16 <= n < 24 \/ 24 <= n < 32
                    \/ 32 <= n < 40 \/ 40 <= n < 48 \/ 48 <= n < 56 \/ 56 <= n)
      by lia.
    repeat destruct Hcase as [Hcase | Hcase];
      repeat match goal with
             | |- context [?a <=? ?b] =>
                 first [ rewrite (proj2 (Z.leb_le a b)) by lia
                       | rewrite (proj2 (Z.leb_gt a b)) by lia ]
             | |- context [?a <? ?b] =>
                 first [ rewrite (proj2 (Z.ltb_lt a b)) by lia
                       | rewrite (proj2 (Z.ltb_ge a b)) by lia ]
             end; reflexivity.
  - rewrite !andb_false_r. reflexivity.
Qed.

(** X13. The clock [persistClock] writes is the clock the next [start]
    reads, whatever the clock of the new process shows: the persisted clock
    is the pool's time at the write, and with the offset [start] computes the
    pool's time at the restart is that time again. *)
Theorem persistClock_start s db key now1 now2 :
  let db' := persistClock s db key now1 in
  let '(clockStart, clockOffset) := startClock db' key now2 in
  clockStart = poolTime s now1
  /\ poolTime (set_clockOffset s clockOffset) now2 = poolTime s now1.
Proof.
  cbv zeta. unfold startClock, persistClock, KeyValueStore in *.
  rewrite lookup_insert_eq.
  unfold default. cbn [from_option id]. change (length (PutUint64 ?v)) with 8%nat.
  cbn [Nat.eqb].
  rewrite Uint64_PutUint64 by apply wrapU64_range.
  rewrite wrap64_wrapU64 by apply wrap64_range.
  split; [reflexivity|].
  unfold poolTime at 1. cbn [set_clockOffset sp_clockOffset].
  rewrite wrap64_add_r.
  replace (now2 + (poolTime s now1 - now2)) with (poolTime s now1) by lia.
  apply wrap64_id, wrap64_range.
Qed.

(** X14. When the store holds nothing under the clock key, or a value that is
    not 8 bytes long, [start] takes 0 for the persisted clock, and the pool's
    time starts at 0. *)
Theorem start_without_clock s db key now :
  length (default [] (db !! key)) <> 8%nat ->
  startClock db key now = (0, wrap64 (- now))
  /\ poolTime (set_clockOffset s (snd (startClock db key now))) now = 0.
Proof.
  intros H. unfold startClock. cbv zeta.
  destruct (Nat.eqb_spec (length (default [] (db !! key))) 8) as [E | _];
    [contradiction|].
  split; [reflexivity|].
  unfold poolTime. cbn [snd set_clockOffset sp_clockOffset].
  rewrite wrap64_add_r. replace (now + (0 - now)) with 0 by lia. reflexivity.
Qed.

(** ** The cached timeout *)

(** X15. From a pool as [newServerPool] builds it (timeout and refresh time
    zero), or from one whose cache is in order, [getTimeout] leaves the cache
    in order -- the weights are those of the cached timeout -- and returns the
    cached timeout, which is at least [minTimeout]. *)
Theorem getTimeout_cache s now :
  (sp_timeout s = 0 /\ sp_timeoutRefreshed s = 0) \/ timeoutCached s ->
  timeoutCached (snd (getTimeout s now))
  /\ fst (getTimeout s now) = sp_timeout (snd (getTimeout s now))
  /\ minTimeout <= fst (getTimeout s now).
Proof.
  intros H. unfold getTimeout. cbv zeta.
  destruct (negb (sp_timeoutRefreshed s =? 0)
            && (wrap64 (now - sp_timeoutRefreshed s) <? timeoutRefresh)) eqn:Hc.
  - destruct H as [[_ H0] | [Hw Hm]].
    + rewrite H0 in Hc. discriminate Hc.
    + cbn [fst snd]. split; [split; assumption|]. split; [reflexivity | exact Hm].
  - cbn [fst snd]. unfold timeoutCached.
    cbn [sp_timeWeights sp_timeout].
    set (rts := Stats_Add _ _ _ _).
    set (t1 := if Stats_Timeout rts F64.c0_1 >? minTimeout
               then Stats_Timeout rts F64.c0_1 else minTimeout).
    set (t2 := if wrap64 (Stats_Timeout rts F64.c0_5 * 2) >? t1
               then wrap64 (Stats_Timeout rts F64.c0_5 * 2) else t1).
    assert (H1 : minTimeout <= t1).
    { unfold t1. destruct (Z.gtb_spec (Stats_Timeout rts F64.c0_1) minTimeout); lia. }
    assert (H2 : minTimeout <= t2).
    { unfold t2. destruct (Z.gtb_spec (wrap64 (Stats_Timeout rts F64.c0_5 * 2)) t1); lia. }
    split; [split; [|exact H2] | split; [reflexivity | exact H2]].
    destruct (Z.eqb_spec (sp_timeout s) t2) as [E | _]; [|reflexivity].
    destruct H as [[H0 _] | [Hw _]].
    + rewrite H0 in E. unfold minTimeout, millisecond in H2. lia.
    + rewrite Hw, E. reflexivity.
Qed.

(** ** What [calculateNode] leaves alone *)

Lemma SetField_other ns id idx v j i :
  (j, i) <> (id, idx) ->
  GetField (fst (SetField ns id idx v)) j i = GetField ns j i.
Proof.
  intros Hne. unfold SetField. cbv zeta.
  destruct (ns_stopped ns); [reflexivity|].
  destruct (fieldAt (ns_setup ns) idx); [|reflexivity].
  match goal with |- context [if negb ?b then _ else _] => destruct (negb b) end;
    [reflexivity|].
  destruct (ns_nodes ns !! id) as [ni|] eqn:E; [|reflexivity].
  destruct (ni_state ni =? 0); [reflexivity|].
  unfold GetField. cbn [fst set_nodes ns_nodes].
  destruct (decide (j = id)) as [-> | Hj].
  - rewrite lookup_insert_eq, E. cbn [ni_fields].
    assert (i <> idx) by congruence.
    destruct v; [apply lookup_insert_ne | apply lookup_delete_ne]; congruence.
  - rewrite lookup_insert_ne by congruence. reflexivity.
Qed.

(** X16. [calculateNode] changes no flag, no timer and no dirty mark of any
    node, leaves the value tracker as it was, and writes no field but the
    [nodeHistory] of the node it is called for; for a node without statistics
    in the value tracker it changes nothing at all. *)
Theorem calculateNode_effects s lo to w node failedConnection remoteDisconnect :
  let s' := snd (calculateNode s lo to w node failedConnection remoteDisconnect) in
  sp_vt s' = sp_vt s
  /\ ns_dirty (sp_ns s') = ns_dirty (sp_ns s)
  /\ (forall j, nodeState (sp_ns s') j = nodeState (sp_ns s) j)
  /\ (forall j, nodeTimeouts (sp_ns s') j = nodeTimeouts (sp_ns s) j)
  /\ (forall j idx, (j, idx) <> (node, nodeHistoryField) ->
      GetField (sp_ns s') j idx = GetField (sp_ns s) j idx)
  /\ (vt_GetNode (sp_vt s) node = None -> s' = s).
Proof.
  cbv zeta.
  pose proof (calculateNode_frame s lo to w node failedConnection remoteDisconnect)
    as (_ & _ & Hd & Hst & Hto).
  split; [apply calculateNode_vt|]. split; [exact Hd|]. split; [exact Hst|].
  split; [exact Hto|]. split.
  - intros j idx Hne.
    destruct (calculateNode_ns_cases s lo to w node failedConnection remoteDisconnect)
      as [-> | [v ->]]; [reflexivity | apply SetField_other, Hne].
  - intros Hn. unfold calculateNode. rewrite Hn. reflexivity.
Qed.

(** ** [knownSelectWeight], [stop], [registerPeer], [start] and the dial
    timeout *)

(** X17. The weight [knownSelectWeight] returns is 0 or at least
    [nodeWeightThreshold], never a value between; it spawns the demotion
    exactly when it returns 0 for a tracked node; for an untracked node it
    returns 0 and leaves the pool as it was; and the call itself changes no
    node's flags. *)
Theorem knownSelectWeight_threshold s c n :
  let '(wt, s', demoted) := knownSelectWeight s c n in
  (wt = 0 \/ nodeWeightThreshold <= wt)
  /\ (demoted = true <-> ns_nodes (sp_ns s) !! n <> None /\ wt = 0)
  /\ (ns_nodes (sp_ns s) !! n = None -> s' = s)
  /\ (forall j, nodeState (sp_ns s') j = nodeState (sp_ns s) j).
Proof.
  unfold knownSelectWeight.
  destruct (ns_nodes (sp_ns s) !! n) as [ni|] eqn:En.
  - pose proof (calculateNode_frame s (now_lo c) (now_to c) (now_w c) n false false)
      as (_ & _ & _ & Hst & _).
    destruct (calculateNode s (now_lo c) (now_to c) (now_w c) n false false)
      as [[wt wait] s1]. cbn [snd] in Hst.
    destruct (Z.ltb_spec wt nodeWeightThreshold) as [Hlt | Hge].
    + split; [left; reflexivity|]. split; [|split; [discriminate | exact Hst]].
      split; [intros _; split; [discriminate | reflexivity] | reflexivity].
    + split; [right; exact Hge|]. split; [|split; [discriminate | exact Hst]].
      split; [discriminate|]. intros [_ ->]. unfold nodeWeightThreshold in Hge. lia.
  - split; [left; reflexivity|]. split; [|split; [reflexivity | reflexivity]].
    split; [discriminate | intros [H _]; contradiction].
Qed.

Lemma SetState_other ns now id setMask resetMask timeout j :
  j <> id ->
  nodeState (SetState ns now id setMask resetMask timeout) j = nodeState ns j.
Proof.
  intros Hj. destruct (ns_stopped ns) eqn:Hs.
  { unfold SetState. rewrite Hs. reflexivity. }
  destruct (SetState_cases ns now id setMask resetMask timeout Hs)
    as [[_ ->] | [(_ & _ & Hn & _) | (_ & _ & ->)]].
  - reflexivity.
  - unfold nodeState. rewrite Hn, lookup_delete_ne by congruence. reflexivity.
  - unfold nodeState, set_nodes. cbn [ns_nodes].
    rewrite lookup_insert_ne by congruence. reflexivity.
Qed.

(** X18. For a connected node, [stop] adds the [hasValue] flag and marks the
    node for persistence exactly when its weight is at least
    [nodeWeightThreshold]: then the set of nodes marked for persistence grows
    by this node, otherwise it stays as it was.  [stop] clears no flag -- a
    node below the threshold keeps the flags it had, [hasValue] included --
    and touches the flags of no other node. *)
Theorem stopNode_flags s c now n :
  ns_stopped (sp_ns s) = false ->
  let wt := fst (fst (calculateNode s (now_lo c) (now_to c) (now_w c) n false false)) in
  let ns' := sp_ns (stopNode s c now n) in
  nodeState ns' n
  = (if wt >=? nodeWeightThreshold then Z.lor (nodeState (sp_ns s) n) stHasValue
     else nodeState (sp_ns s) n)
  /\ (forall j, j <> n -> nodeState ns' j = nodeState (sp_ns s) j)
  /\ ns_dirty ns'
     = (if wt >=? nodeWeightThreshold then ns_dirty (sp_ns s) ∪ {[ n ]}
        else ns_dirty (sp_ns s))
  /\ (n ∈ ns_dirty ns' <-> nodeWeightThreshold <= wt \/ n ∈ ns_dirty (sp_ns s)).
Proof.
  intros Hs. cbv zeta. unfold stopNode.
  pose proof (calculateNode_frame s (now_lo c) (now_to c) (now_w c) n false false)
    as (_ & Hstop & Hd & Hst & _).
  destruct (calculateNode s (now_lo c) (now_to c) (now_w c) n false false)
    as [[wt wait] s1]. cbn [fst snd] in *.
  rewrite Hs in Hstop.
  destruct (Z.geb_spec wt nodeWeightThreshold) as [Hge | Hlt].
  - cbn [set_ns sp_ns]. split; [|split].
    + unfold nodeState at 1, Persist. cbn [ns_nodes].
      fold (nodeState (SetState (sp_ns s1) now n stHasValue 0 0) n).
      rewrite SetState_state by exact Hstop. rewrite Hst.
      unfold updateState. change (Z.lnot 0) with (-1). rewrite Z.land_m1_r.
      reflexivity.
    + intros j Hj. unfold nodeState at 1, Persist. cbn [ns_nodes].
      fold (nodeState (SetState (sp_ns s1) now n stHasValue 0 0) j).
      rewrite SetState_other by exact Hj. apply Hst.
    + assert (E : ns_dirty (Persist (SetState (sp_ns s1) now n stHasValue 0 0) n)
                  = ns_dirty (sp_ns s) ∪ {[ n ]}).
      { unfold Persist. cbn [ns_dirty]. rewrite SetState_dirty, Hd; [reflexivity|].
        unfold updateState. change (Z.lnot 0) with (-1). rewrite Z.land_m1_r.
        intros E. apply Z.lor_eq_0_iff in E. destruct E as [_ E]. discriminate E. }
      rewrite E. split; [reflexivity|].
      rewrite elem_of_union, elem_of_singleton. split.
      * intros _. left. lia.
      * intros _. right. reflexivity.
  - split; [apply Hst | split; [intros j _; apply Hst |]].
    rewrite Hd. split; [reflexivity|]. split.
    + intros H. right. exact H.
    + intros [H | H]; [lia | exact H].
Qed.

Lemma connected_not_dialed st :
  let st' := updateState st stConnected stDialed in
  Z.land st' stConnected = stConnected /\ Z.land st' stDialed = 0 /\ st' <> 0.
Proof.
  cbv zeta. unfold updateState. mask_literals.
  assert (H1 : Z.land (Z.lor (Z.land st (Z.lnot 4)) 8) 8 = 8) by bitwise.
  assert (H2 : Z.land (Z.lor (Z.land st (Z.lnot 4)) 8) 4 = 0) by bitwise.
  split; [exact H1|]. split; [exact H2|].
  intros E. rewrite E in H1. discriminate H1.
Qed.

(** X19. On a running state machine over the pool's setup, [registerPeer]
    leaves the peer's node with [connected] set and [dialed] clear -- also a
    node the machine did not track before -- stores the statistics the value
    tracker hands out at registration in the [connectedStats] field, keeps
    the tracker that [Register] returns, and touches the flags of no other
    node. *)
Theorem registerPeer_connected s now node :
  ns_stopped (sp_ns s) = false ->
  ns_setup (sp_ns s) = serverPoolSetup ->
  let s' := registerPeer s now node in
  let st' := nodeState (sp_ns s') node in
  st' = updateState (nodeState (sp_ns s) node) stConnected stDialed
  /\ Z.land st' stConnected = stConnected
  /\ Z.land st' stDialed = 0
  /\ GetField (sp_ns s') node connStatsField
     = Some (FvStats (snd (vt_Register (sp_vt s) node)))
  /\ sp_vt s' = fst (vt_Register (sp_vt s) node)
  /\ (forall j, j <> node -> nodeState (sp_ns s') j = nodeState (sp_ns s) j).
Proof.
  intros Hs Hsetup. cbv zeta. unfold registerPeer.
  destruct (vt_Register (sp_vt s) node) as [vt1 stats].
  cbn [fst snd set_vt set_ns sp_ns sp_vt].
  set (ns1 := SetState (sp_ns s) now node stConnected stDialed 0).
  destruct (SetState_frame (sp_ns s) now node stConnected stDialed 0) as [Hset1 Hstop1].
  fold ns1 in Hset1, Hstop1. rewrite Hs in Hstop1. rewrite Hsetup in Hset1.
  pose proof (SetState_state (sp_ns s) now node stConnected stDialed 0 Hs) as Hst1.
  fold ns1 in Hst1.
  destruct (connected_not_dialed (nodeState (sp_ns s) node)) as (C1 & C2 & C3).
  destruct (SetField_frame ns1 node connStatsField (Some (FvStats stats)))
    as (_ & _ & _ & Hst2 & _).
  rewrite Hst2, Hst1.
  split; [reflexivity|]. split; [exact C1|]. split; [exact C2|].
  split; [|split; [reflexivity|]].
  - apply (SetField_store ns1 node connStatsField sfiConnectedStats).
    + exact Hstop1.
    + rewrite Hset1. reflexivity.
    + reflexivity.
    + rewrite Hst1. exact C3.
  - intros j Hj. rewrite Hst2. apply SetState_other. exact Hj.
Qed.

Lemma set_redialWait st :
  Z.land st stRedialWait = 0 ->
  updateState st stRedialWait 0 = Z.lor st stRedialWait
  /\ Z.lor st stRedialWait <> st
  /\ Z.lor st stRedialWait <> 0.
Proof.
  intros Hbit. split; [|split].
  - unfold updateState. change (Z.lnot 0) with (-1). rewrite Z.land_m1_r. reflexivity.
  - intros E. rewrite <- E in Hbit. revert Hbit. mask_literals.
    rewrite Z.land_lor_distr_l, Z.land_diag. intros Hbit.
    apply Z.lor_eq_0_iff in Hbit. destruct Hbit as [_ Hbit]. discriminate Hbit.
  - intros E. apply Z.lor_eq_0_iff in E. destruct E as [_ E]. discriminate E.
Qed.

(** X20. At [start], a node whose stored [waitUntil] lies after the persisted
    clock (by less than 2^63 ns) and which is not waiting yet gets the
    [redialWait] flag with a timer for the rest of its wait: the timer fires
    when the pool's time, under the clock offset [start] has just computed,
    reaches the stored [waitUntil]. *)
Theorem startKnown_resumes s now clockStart node n :
  ns_stopped (sp_ns s) = false ->
  GetField (sp_ns s) node nodeHistoryField = Some (FvNodeHistory n) ->
  Z.land (nodeState (sp_ns s) node) stRedialWait = 0 ->
  clockStart < nh_waitUntil n ->
  nh_waitUntil n - clockStart < 2 ^ 63 ->
  let s' := startKnown s now clockStart node in
  let deadline := wrap64 (now + (nh_waitUntil n - clockStart)) in
  nodeState (sp_ns s') node = Z.lor (nodeState (sp_ns s) node) stRedialWait
  /\ (stRedialWait, deadline) ∈ nodeTimeouts (sp_ns s') node
  /\ poolTime (set_clockOffset s' (wrap64 (clockStart - now))) deadline
     = wrap64 (nh_waitUntil n).
Proof.
  intros Hs Hf Hbit Hlt Hrange. cbv zeta. unfold startKnown. rewrite Hf.
  destruct (Z.gtb_spec (nh_waitUntil n) clockStart) as [_ | Hle]; [|lia].
  cbn [set_ns sp_ns].
  rewrite (wrap64_id (nh_waitUntil n - clockStart)) by lia.
  destruct (set_redialWait _ Hbit) as (Hup & Hne & Hnz).
  split; [|split].
  - rewrite SetState_state by exact Hs. exact Hup.
  - rewrite SetState_timeouts by (try rewrite Hup; assumption).
    destruct (Z.ltb_spec 0 (nh_waitUntil n - clockStart)) as [_ | Hle]; [|lia].
    apply list_elem_of_here.
  - unfold poolTime. cbn [set_clockOffset sp_clockOffset].
    rewrite wrap64_add_r, wrap64_add_l. f_equal. lia.
Qed.



(** ** The field codecs of the state machine's tests *)

(** X22. [stringFieldEnc] encodes a string field as its bytes, which
    [stringFieldDec] decodes to the same string without error; a value of any
    other type is refused with [errInvalidField] and no bytes. *)
Theorem stringField_codec (v : fieldValue) :
  match v with
  | FvString str =>
      stringFieldEnc v = (String.list_byte_of_string str, None)
      /\ stringFieldDec (fst (stringFieldEnc v)) = (Some v, None)
  | _ => stringFieldEnc v = ([], Some errInvalidField)
  end.
Proof.
  destruct v; try reflexivity. split; [reflexivity|].
  unfold stringFieldDec, stringFieldEnc. cbn [fst].
  rewrite String.string_of_list_byte_of_string. reflexivity.
Qed.

(** X23. On bytes that RLP reads back as written, [uint64FieldDec] decodes
    what [uint64FieldEnc] encoded to the same number, both without error; a
    value that is not a [uint64] is refused with [errInvalidField]. *)
Theorem uint64Field_codec (u : Z) :
  rlp_DecodeBytes (rlp_EncodeToBytes (RUint u)) = Some (RUint u) ->
  uint64FieldDec (fst (uint64FieldEnc (FvUint64 u))) = (Some (FvUint64 u), None)
  /\ snd (uint64FieldEnc (FvUint64 u)) = None
  /\ forall v, typeOf v <> TUint64 -> uint64FieldEnc v = ([], Some errInvalidField).
Proof.
  intros H. unfold uint64FieldDec, uint64FieldEnc. cbn [fst snd]. rewrite H.
  split; [reflexivity|]. split; [reflexivity|].
  intros v Hv. destruct v; try reflexivity. contradiction.
Qed.


End Proofs.

(** * Package [math] *)

Section MathProofs.

Import Math.

Lemma tt256m1_ones : tt256m1 = Z.ones 256.
Proof. reflexivity. Qed.

Lemma U256_residue x : U256 x = x mod 2 ^ 256.
Proof. unfold U256. rewrite tt256m1_ones. apply Z.land_ones. lia. Qed.

(** X1. [U256] reduces any integer, negative ones included, to its residue
    modulo 2^256: the result is the number from 0 up to 2^256 - 1 that is
    congruent to the argument, and a second [U256] changes nothing. *)
Theorem U256_mod x :
  U256 x = x mod 2 ^ 256 /\ 0 <= U256 x < 2 ^ 256 /\ U256 (U256 x) = U256 x.
Proof.
  rewrite !U256_residue. split; [reflexivity|]. split.
  - apply Z.mod_pos_bound. lia.
  - apply Z.mod_mod. lia.
Qed.

(** X2. For a signed 256-bit number [x], from -2^255 up to 2^255 - 1,
    reading its two's complement encoding [U256 x] back with [S256] gives
    [x]. *)
Theorem S256_U256 x : - 2 ^ 255 <= x < 2 ^ 255 -> S256 (U256 x) = x.
Proof.
  intros Hx. rewrite U256_residue. unfold S256, Cmp.
  change tt255 with (2 ^ 255). change tt256 with (2 ^ 256).
  destruct (Z.ltb_spec x 0) as [Hn | Hp].
  - replace (x mod 2 ^ 256) with (x + 2 ^ 256).
    2:{ apply Z.mod_unique with (q := -1); lia. }
    destruct (Z.compare_spec (x + 2 ^ 256) (2 ^ 255)); simpl; lia.
  - rewrite Z.mod_small by lia.
    destruct (Z.compare_spec x (2 ^ 255)); simpl; lia.
Qed.

(** X3. For an unsigned 256-bit number [x], [S256 x] is a signed 256-bit
    number, from -2^255 up to 2^255 - 1, whose two's complement encoding is
    [x] again. *)
Theorem U256_S256 x :
  0 <= x < 2 ^ 256 ->
  U256 (S256 x) = x /\ - 2 ^ 255 <= S256 x < 2 ^ 255.
Proof.
  intros Hx. rewrite U256_residue. unfold S256, Cmp.
  change tt255 with (2 ^ 255). change tt256 with (2 ^ 256).
  destruct (Z.compare_spec x (2 ^ 255)); simpl.
  - split; [|lia]. symmetry. apply Z.mod_unique with (q := -1); lia.
  - split; [|lia]. apply Z.mod_small; lia.
  - split; [|lia]. symmetry. apply Z.mod_unique with (q := -1); lia.
Qed.


(** *** Exp *)

Lemma wordSize_bits w : wordSize w = wordBits w.
Proof. destruct w; reflexivity. Qed.

Lemma tt256_pos : 0 < 2 ^ 256.
Proof. reflexivity. Qed.

Lemma expWord_spec n : forall word r b,
  0 <= word ->
  (fst (expWord n word (r, b))) mod 2 ^ 256
    = (r * b ^ (word mod 2 ^ Z.of_nat n)) mod 2 ^ 256
  /\ (snd (expWord n word (r, b))) mod 2 ^ 256
    = (b ^ (2 ^ Z.of_nat n)) mod 2 ^ 256
  /\ (0 <= r < 2 ^ 256 -> 0 <= fst (expWord n word (r, b)) < 2 ^ 256)
  /\ ((0 < n)%nat -> 0 <= snd (expWord n word (r, b)) < 2 ^ 256).
Proof.
  pose proof tt256_pos as HM. set (M := 2 ^ 256) in *.
  induction n as [|n IH]; intros word r b Hw.
  - simpl. change (2 ^ 0) with 1. rewrite Z.mod_1_r, Z.pow_0_r, Z.mul_1_r, Z.pow_1_r.
    repeat split; try lia.
  - cbn [expWord].
    rewrite Z.shiftr_div_pow2 by lia. change (2 ^ 1) with 2.
    assert (Hbit : Z.land word 1 = word mod 2).
    { change 1 with (Z.ones 1) at 1. rewrite Z.land_ones by lia. reflexivity. }
    rewrite Hbit.
    set (r1 := if word mod 2 =? 1 then U256 (r * b) else r).
    set (b1 := U256 (b * b)).
    assert (Hb1 : b1 = (b * b) mod M) by apply U256_residue.
    assert (Hb1r : 0 <= b1 < M) by (rewrite Hb1; apply Z.mod_pos_bound; lia).
    assert (Hr1 : r1 mod M = (r * b ^ (word mod 2)) mod M).
    { unfold r1. destruct (Z.eqb_spec (word mod 2) 1) as [E | E].
      - rewrite E, Z.pow_1_r, U256_residue. apply Z.mod_mod. lia.
      - assert (word mod 2 = 0) as -> by (pose proof (Z.mod_pos_bound word 2); lia).
        rewrite Z.pow_0_r, Z.mul_1_r. reflexivity. }
    assert (Hr1r : 0 <= r < M -> 0 <= r1 < M).
    { intros Hr. unfold r1. destruct (word mod 2 =? 1); [|exact Hr].
      rewrite U256_residue. apply Z.mod_pos_bound. lia. }
    destruct (IH (word / 2) r1 b1) as (IH1 & IH2 & IH3 & IH4).
    { apply Z.div_pos; lia. }
    assert (Hk : 0 <= (word / 2) mod 2 ^ Z.of_nat n).
    { apply Z.mod_pos_bound. apply Z.pow_pos_nonneg; lia. }
    assert (Hpow : forall k, 0 <= k -> (b1 ^ k) mod M = (b ^ (2 * k)) mod M).
    { intros k Hk0. rewrite Hb1, Z.mod_pow_l.
      rewrite <- Z.pow_2_r, <- Z.pow_mul_r by lia. reflexivity. }
    split; [|split; [|split]].
    + rewrite IH1.
      rewrite Z.mul_mod, Hr1, Hpow, <- Z.mul_mod by lia.
      rewrite <- Z.mul_assoc, <- Z.pow_add_r by (try apply Z.mod_pos_bound; lia).
      f_equal. f_equal. f_equal.
      rewrite Nat2Z.inj_succ, Z.pow_succ_r by lia.
      rewrite Z.rem_mul_r by (try apply Z.pow_pos_nonneg; lia). reflexivity.
    + rewrite IH2, Hpow by (apply Z.pow_nonneg; lia).
      rewrite Nat2Z.inj_succ, Z.pow_succ_r by lia. reflexivity.
    + intros Hr. apply IH3, Hr1r, Hr.
    + intros _. destruct n as [|n'].
      * simpl. apply Hb1r.
      * apply IH4. lia.
Qed.

Lemma BitLen_bound x : 0 <= BitLen x /\ 0 <= Z.abs x < 2 ^ BitLen x.
Proof.
  unfold BitLen. destruct (Z.eqb_spec x 0) as [-> | Hx].
  - simpl. lia.
  - pose proof (Z.log2_nonneg (Z.abs x)).
    pose proof (Z.log2_spec (Z.abs x)). rewrite <- Z.add_1_r in *. lia.
Qed.

Lemma wordsOf_spec radix fuel : forall x,
  2 <= radix -> 0 <= x < 2 ^ Z.of_nat fuel ->
  wordsValue radix (wordsOf fuel radix x) = x
  /\ Forall (fun w => 0 <= w < radix) (wordsOf fuel radix x).
Proof.
  induction fuel as [|f IH]; intros x Hr Hx.
  - simpl in *. split; [lia | constructor].
  - cbn [wordsOf]. destruct (Z.eqb_spec x 0) as [-> | Hx0].
    + split; [reflexivity | constructor].
    + rewrite Nat2Z.inj_succ, Z.pow_succ_r in Hx by lia.
      destruct (IH (x / radix)) as [IHv IHf]; [exact Hr | |].
      { split; [apply Z.div_pos; lia|].
        apply Z.div_lt_upper_bound; [lia|].
        assert (0 < 2 ^ Z.of_nat f) by (apply Z.pow_pos_nonneg; lia). nia. }
      split.
      * cbn [wordsValue fold_right]. fold (wordsValue radix (wordsOf f radix (x / radix))).
        rewrite IHv. pose proof (Z.div_mod x radix). lia.
      * constructor; [apply Z.mod_pos_bound; lia | exact IHf].
Qed.

Lemma wordsValue_nonneg radix ws :
  0 <= radix -> Forall (fun w => 0 <= w < radix) ws -> 0 <= wordsValue radix ws.
Proof.
  intros Hr. induction 1 as [|w ws Hw _ IH]; simpl; [lia|].
  fold (wordsValue radix ws). nia.
Qed.

Lemma Bits_spec w e :
  wordsValue (2 ^ wordBits w) (Bits w e) = Z.abs e
  /\ Forall (fun x => 0 <= x < 2 ^ wordBits w) (Bits w e).
Proof.
  unfold Bits. apply wordsOf_spec.
  - destruct w; simpl; lia.
  - destruct (BitLen_bound e) as [H0 H1]. rewrite Z2Nat.id by exact H0. exact H1.
Qed.

Lemma expFold_spec n : forall ws r b,
  Forall (fun x => 0 <= x < 2 ^ Z.of_nat n) ws -> (0 < n)%nat ->
  let res := fold_left (fun rb word => expWord n word rb) ws (r, b) in
  fst res mod 2 ^ 256 = (r * b ^ wordsValue (2 ^ Z.of_nat n) ws) mod 2 ^ 256
  /\ snd res mod 2 ^ 256
     = (b ^ (2 ^ (Z.of_nat n * Z.of_nat (length ws)))) mod 2 ^ 256
  /\ (0 <= r < 2 ^ 256 -> 0 <= fst res < 2 ^ 256)
  /\ (ws <> [] -> 0 <= snd res < 2 ^ 256).
Proof.
  pose proof tt256_pos as HM. set (M := 2 ^ 256) in *.
  induction ws as [|w ws IH]; intros r b Hall Hn; cbn zeta.
  - simpl. rewrite Z.pow_0_r, Z.mul_1_r, Z.mul_0_r, Z.pow_0_r, Z.pow_1_r.
    split; [|split; [|split]]; try reflexivity; [intros; lia | intros []; reflexivity].
  - cbn [fold_left].
    inversion Hall as [|? ? Hw Hall']; subst.
    destruct (expWord_spec n w r b) as (E1 & E2 & E3 & E4); [lia|].
    fold M in E1, E2, E3, E4.
    destruct (expWord n w (r, b)) as [r1 b1]. cbn [fst snd] in *.
    rewrite (Z.mod_small w) in E1 by exact Hw.
    specialize (IH r1 b1 Hall' Hn). cbn zeta in IH.
    destruct IH as (I1 & I2 & I3 & I4).
    set (R := 2 ^ Z.of_nat n) in *.
    assert (HR : 0 < R) by (apply Z.pow_pos_nonneg; lia).
    pose proof (wordsValue_nonneg R ws ltac:(lia) Hall') as HV.
    split; [|split; [|split]].
    + rewrite I1, Z.mul_mod, E1 by lia.
      rewrite <- Z.mod_pow_l, E2, Z.mod_pow_l, <- Z.mul_mod by lia.
      rewrite <- Z.pow_mul_r, <- Z.mul_assoc, <- Z.pow_add_r by lia.
      reflexivity.
    + rewrite I2, <- Z.mod_pow_l, E2, Z.mod_pow_l.
      rewrite <- Z.pow_mul_r by (try apply Z.pow_nonneg; lia).
      unfold R. rewrite <- Z.pow_add_r by lia.
      f_equal. f_equal. f_equal. cbn [length]. lia.
    + intros Hr. apply I3, E3, Hr.
    + intros _. destruct ws as [|w' ws'].
      * simpl. apply E4, Hn.
      * apply I4. discriminate.
Qed.

(** X4. On either word size, for every base and exponent, [Exp] returns
    [base] to the power of the absolute value of the exponent, modulo 2^256;
    for the exponent 0 that is 1, also when the base is 0. *)
Theorem Exp_result w base e :
  fst (Exp w base e) = base ^ Z.abs e mod 2 ^ 256.
Proof.
  destruct (Bits_spec w e) as [Hv Hall].
  assert (Hn : Z.of_nat (Z.to_nat (wordSize w)) = wordBits w).
  { rewrite wordSize_bits. destruct w; reflexivity. }
  destruct (expFold_spec (Z.to_nat (wordSize w)) (Bits w e) 1 base)
    as (H1 & _ & H3 & _).
  - rewrite Hn. exact Hall.
  - rewrite wordSize_bits. destruct w; simpl; lia.
  - cbn zeta in *. fold (Exp w base e) in H1, H3.
    rewrite Hn, Hv, Z.mul_1_l in H1. rewrite <- H1.
    symmetry. apply Z.mod_small. apply H3. pose proof tt256_pos. lia.
Qed.

(** X5. [Exp] overwrites its [base] argument: unless the exponent is 0, the
    caller's [base] holds, after the call, [base ^ (2 ^ (wordSize * k))]
    modulo 2^256, where [k] is the number of words of the exponent. *)
Theorem Exp_base w base e :
  snd (Exp w base e)
  = if e =? 0 then base
    else base ^ 2 ^ (wordSize w * Z.of_nat (length (Bits w e))) mod 2 ^ 256.
Proof.
  destruct (Z.eqb_spec e 0) as [-> | He].
  - reflexivity.
  - destruct (Bits_spec w e) as [Hv Hall].
    assert (Hn : Z.of_nat (Z.to_nat (wordSize w)) = wordBits w).
    { rewrite wordSize_bits. destruct w; reflexivity. }
    destruct (expFold_spec (Z.to_nat (wordSize w)) (Bits w e) 1 base)
      as (_ & H2 & _ & H4).
    + rewrite Hn. exact Hall.
    + rewrite wordSize_bits. destruct w; simpl; lia.
    + cbn zeta in *. fold (Exp w base e) in H2, H4.
      rewrite Hn, <- wordSize_bits in H2. rewrite <- H2.
      symmetry. apply Z.mod_small. apply H4.
      intros E. rewrite E in Hv. simpl in Hv. lia.
Qed.

(** *** FirstBitSet *)

Lemma low_bits_clear v n :
  0 <= n -> (forall j, 0 <= j < n -> Z.testbit v j = false) -> v mod 2 ^ n = 0.
Proof.
  intros Hn Hb. apply Z.bits_inj'. intros m Hm. rewrite Z.bits_0.
  destruct (Z.lt_ge_cases m n) as [Hlt | Hge].
  - rewrite Z.mod_pow2_bits_low by lia. apply Hb. lia.
  - apply Z.mod_pow2_bits_high. lia.
Qed.

Lemma firstBitFrom_spec v n : forall i,
  v <> 0 -> 0 <= i -> i + Z.of_nat n = BitLen v ->
  (forall j, 0 <= j < i -> Z.testbit v j = false) ->
  let k := firstBitFrom n i v in
  Z.testbit v k = true /\ i <= k < BitLen v
  /\ forall j, 0 <= j < k -> Z.testbit v j = false.
Proof.
  induction n as [|n IH]; intros i Hv Hi Hlen Hlow; cbn zeta.
  - exfalso. destruct (BitLen_bound v) as [H0 H1].
    assert (E : v mod 2 ^ BitLen v = 0).
    { apply low_bits_clear; [exact H0|]. intros j Hj. apply Hlow. lia. }
    apply Z.mod_divide in E; [|lia]. destruct E as [q E].
    assert (0 < 2 ^ BitLen v) by (apply Z.pow_pos_nonneg; lia).
    assert (q = 0) by nia. subst q. lia.
  - cbn [firstBitFrom]. unfold Bit.
    destruct (Z.testbit v i) eqn:Eb; simpl.
    + split; [exact Eb|]. split; [lia | exact Hlow].
    + destruct (IH (i + 1)) as (K1 & K2 & K3); try lia.
      { intros j Hj. destruct (Z.eq_dec j i) as [-> | Hne]; [exact Eb|].
        apply Hlow. lia. }
      split; [exact K1|]. split; [lia | exact K3].
Qed.

(** X6. For a number other than 0, negative ones included, [FirstBitSet]
    returns the index of the lowest bit that is set: that bit is 1, every
    bit below it is 0, and the index is below the bit length. *)
Theorem FirstBitSet_lowest v :
  v <> 0 ->
  Z.testbit v (FirstBitSet v) = true
  /\ 0 <= FirstBitSet v < BitLen v
  /\ forall j, 0 <= j < FirstBitSet v -> Z.testbit v j = false.
Proof.
  intros Hv. unfold FirstBitSet.
  destruct (BitLen_bound v) as [H0 _].
  apply firstBitFrom_spec; try lia.
Qed.

(** *** PaddedBigBytes *)

Lemma SetBytes_app l b : SetBytes (l ++ [b]) = SetBytes l * 256 + fromByte b.
Proof. unfold SetBytes. rewrite fold_left_app. reflexivity. Qed.

Lemma SetBytes_words ws :
  Forall (fun w => 0 <= w < 256) ws ->
  SetBytes (toByte <$> reverse ws) = wordsValue 256 ws.
Proof.
  induction 1 as [|w ws Hw _ IH]; [reflexivity|].
  rewrite reverse_cons, fmap_app. simpl. rewrite SetBytes_app, IH.
  rewrite fromByte_toByte by exact Hw. fold (wordsValue 256 ws). lia.
Qed.

Lemma SetBytes_Bytes x : SetBytes (Bytes x) = Z.abs x.
Proof.
  unfold Bytes. destruct (BitLen_bound x) as [H0 H1].
  destruct (wordsOf_spec 256 (Z.to_nat (BitLen x)) (Z.abs x)) as [Hv Hall];
    [lia | rewrite Z2Nat.id by exact H0; exact H1 |].
  rewrite SetBytes_words by exact Hall. exact Hv.
Qed.

Lemma SetBytes_zeros k l : SetBytes (replicate k x00 ++ l) = SetBytes l.
Proof.
  unfold SetBytes. rewrite fold_left_app. f_equal.
  induction k as [|k IH]; [reflexivity|]. simpl. exact IH.
Qed.

Lemma PaddedBigBytes_shape bigint n :
  PaddedBigBytes bigint n
  = replicate (Z.to_nat n - length (Bytes bigint)) x00 ++ Bytes bigint.
Proof.
  unfold PaddedBigBytes. cbv zeta.
  destruct (Z.geb_spec (Z.of_nat (length (Bytes bigint))) n) as [Hge | Hlt].
  - replace (Z.to_nat n - length (Bytes bigint))%nat with 0%nat by lia. reflexivity.
  - rewrite take_replicate, length_replicate. f_equal. f_equal. lia.
Qed.

(** X7. [PaddedBigBytes] never truncates and drops the sign: for every
    [bigint] and [n], also [n <= 0], the bytes returned read as a big-endian
    number are the absolute value of [bigint], and their number is the larger
    of [n] and the length of [bigint.Bytes()]. *)
Theorem PaddedBigBytes_value bigint n :
  SetBytes (PaddedBigBytes bigint n) = Z.abs bigint
  /\ Z.of_nat (length (PaddedBigBytes bigint n))
     = Z.max n (Z.of_nat (length (Bytes bigint))).
Proof.
  rewrite PaddedBigBytes_shape. split.
  - rewrite SetBytes_zeros. apply SetBytes_Bytes.
  - rewrite length_app, length_replicate. lia.
Qed.

Lemma wordsOf_length radix fuel : forall x n,
  2 <= radix -> 0 <= x < radix ^ Z.of_nat n ->
  (length (wordsOf fuel radix x) <= n)%nat.
Proof.
  induction fuel as [|f IH]; intros x n Hr Hx; [simpl; lia|].
  cbn [wordsOf]. destruct (Z.eqb_spec x 0) as [-> | Hx0]; [simpl; lia|].
  destruct n as [|n]; [simpl in Hx; lia|].
  rewrite Nat2Z.inj_succ, Z.pow_succ_r in Hx by lia.
  cbn [length]. apply le_n_S. apply IH; [exact Hr|].
  split; [apply Z.div_pos; lia|].
  apply Z.div_lt_upper_bound; lia.
Qed.

(** X8. When the absolute value of [bigint] fits in [n] bytes,
    [PaddedBigBytes] returns exactly [n] bytes, zero-padded on the left. *)
Theorem PaddedBigBytes_fixed_width bigint n :
  0 <= n -> Z.abs bigint < 256 ^ n ->
  PaddedBigBytes bigint n
  = replicate (Z.to_nat n - length (Bytes bigint)) x00 ++ Bytes bigint
  /\ Z.of_nat (length (PaddedBigBytes bigint n)) = n
  /\ SetBytes (PaddedBigBytes bigint n) = Z.abs bigint.
Proof.
  intros Hn Hx. rewrite PaddedBigBytes_shape. split; [reflexivity|].
  assert (Hlen : (length (Bytes bigint) <= Z.to_nat n)%nat).
  { unfold Bytes. rewrite length_fmap, length_reverse.
    apply wordsOf_length; [lia|]. rewrite Z2Nat.id by lia. lia. }
  split.
  - rewrite length_app, length_replicate. lia.
  - rewrite SetBytes_zeros. apply SetBytes_Bytes.
Qed.

(** *** BigMax, BigMin *)

(** X9. [BigMax] and [BigMin] return the larger and the smaller of their
    two arguments, so together they return both. *)
Theorem BigMax_BigMin x y :
  BigMax x y = Z.max x y /\ BigMin x y = Z.min x y
  /\ BigMin x y + BigMax x y = x + y.
Proof.
  unfold BigMax, BigMin, Cmp.
  destruct (Z.compare_spec x y); simpl; lia.
Qed.

(** *** ParseBig *)

Lemma digitValue_char d : (d < 10)%N -> digitValue (pretty_N_char d) = Z.of_N d.
Proof.
  intros Hd.
  assert (d = 0 \/ d = 1 \/ d = 2 \/ d = 3 \/ d = 4 \/ d = 5 \/ d = 6
          \/ d = 7 \/ d = 8 \/ d = 9)%N as H by lia.
  repeat (destruct H as [-> | H]; [reflexivity|]). subst. reflexivity.
Qed.

Lemma scanDigits_pretty_go x : forall s acc,
  exists k, 0 <= k
    /\ scanDigits 10 acc (pretty_N_go x s)
       = scanDigits 10 (acc * 10 ^ k + Z.of_N x) s.
Proof.
  induction (N.lt_wf_0 x) as [x _ IH]. intros s acc.
  destruct (N.eq_dec x 0) as [-> | Hx].
  - exists 0. rewrite pretty_N_go_0. split; [lia|]. f_equal. simpl. lia.
  - rewrite pretty_N_go_step by lia.
    destruct (IH (x `div` 10)%N) with
      (s := String (pretty_N_char (x `mod` 10)) s) (acc := acc) as (k & Hk & E).
    { apply N.div_lt; lia. }
    exists (k + 1). split; [lia|]. rewrite E. cbn [scanDigits].
    assert (Hm : (x `mod` 10 < 10)%N) by (apply N.mod_lt; lia).
    rewrite digitValue_char by exact Hm.
    destruct (Z.ltb_spec (Z.of_N (x `mod` 10)) 10) as [_ | Hge]; [|lia].
    f_equal. rewrite Z.pow_add_r, Z.pow_1_r by lia.
    pose proof (N.div_mod x 10 ltac:(lia)) as Hdm.
    apply (f_equal Z.of_N) in Hdm. rewrite N2Z.inj_add, N2Z.inj_mul in Hdm.
    change (Z.of_N 10) with 10 in Hdm. lia.
Qed.

Lemma pretty_go_head x : forall c s,
  digitValue c < 10 ->
  exists c' r, pretty_N_go x (String c s) = String c' r /\ digitValue c' < 10.
Proof.
  induction (N.lt_wf_0 x) as [x _ IH]. intros c s Hc.
  destruct (N.eq_dec x 0) as [-> | Hx].
  - exists c, s. rewrite pretty_N_go_0. split; [reflexivity | exact Hc].
  - rewrite pretty_N_go_step by lia. apply IH.
    + apply N.div_lt; lia.
    + rewrite digitValue_char by (apply N.mod_lt; lia).
      pose proof (N.mod_lt x 10). lia.
Qed.

Lemma SetString_unsigned c r base :
  digitValue c < base -> base <= 36 ->
  SetString (String c r) base = scanDigits base 0 (String c r).
Proof.
  intros Hc Hb. unfold SetString.
  destruct (Ascii.eqb_spec c "-") as [-> | _];
    [change (digitValue "-") with 63 in Hc; lia|].
  destruct (Ascii.eqb_spec c "+") as [-> | _];
    [change (digitValue "+") with 63 in Hc; lia|].
  destruct (scanDigits base 0 (String c r)); reflexivity.
Qed.

Lemma SetString_minus c r base :
  SetString (String "-" (String c r)) base
  = match scanDigits base 0 (String c r) with
    | Some v => Some (- v)
    | None => None
    end.
Proof. reflexivity. Qed.

Lemma pretty_positive_shape p :
  exists c r, pretty (N.pos p) = String c r /\ digitValue c < 10
    /\ scanDigits 10 0 (String c r) = Some (Z.pos p).
Proof.
  unfold pretty, pretty_N. destruct (decide (N.pos p = 0%N)) as [E | _]; [discriminate|].
  rewrite pretty_N_go_step by lia.
  destruct (pretty_go_head (N.pos p `div` 10)
              (pretty_N_char (N.pos p `mod` 10)) "") as (c & r & E & Hc).
  { rewrite digitValue_char by (apply N.mod_lt; lia).
    pose proof (N.mod_lt (N.pos p) 10). lia. }
  exists c, r. split; [exact E|]. split; [exact Hc|].
  rewrite <- E, <- pretty_N_go_step by lia.
  destruct (scanDigits_pretty_go (N.pos p) "" 0) as (k & _ & ->).
  reflexivity.
Qed.

Lemma substring_all s : String.substring 0 (String.length s) s = s.
Proof. induction s as [|c s IH]; [reflexivity|]. simpl. rewrite IH. reflexivity. Qed.

Lemma substring_none s : String.substring 0 0 s = "".
Proof. destruct s; reflexivity. Qed.

Lemma ParseBig_decimal s z : SetString s 10 = Some z -> ParseBig s = Some z.
Proof.
  intros H. unfold ParseBig.
  destruct s as [|a [|b r]]; [discriminate H | exact H |].
  cbn [String.eqb String.length Nat.leb andb].
  cbn [String.substring]. rewrite substring_none.
  destruct (String.eqb_spec (String a (String b "")) "0x") as [E | _].
  { injection E as -> ->. discriminate H. }
  destruct (String.eqb_spec (String a (String b "")) "0X") as [E | _].
  { injection E as -> ->. discriminate H. }
  exact H.
Qed.

Lemma ParseBig_hex p r :
  p = "0x" \/ p = "0X" -> ParseBig (p +:+ r) = SetString r 16.
Proof.
  intros [-> | ->]; unfold ParseBig; simpl; rewrite substring_none; simpl;
    rewrite Nat.sub_0_r, substring_all; reflexivity.
Qed.

(** X10. [ParseBig] reads the decimal numeral of every integer -- a minus
    sign for a negative one, then the digits without leading zeros -- back to
    that integer. *)
Theorem ParseBig_pretty (z : Z) : ParseBig (pretty z) = Some z.
Proof.
  apply ParseBig_decimal. destruct z as [|p|p].
  - reflexivity.
  - destruct (pretty_positive_shape p) as (c & r & E & Hc & Hs).
    change (pretty (Z.pos p)) with (pretty (N.pos p)).
    rewrite E, SetString_unsigned by lia. exact Hs.
  - destruct (pretty_positive_shape p) as (c & r & E & Hc & Hs).
    change (pretty (Z.neg p)) with ("-" +:+ pretty (N.pos p)).
    rewrite E. change ("-" +:+ String c r) with (String "-" (String c r)).
    rewrite SetString_minus, Hs. reflexivity.
Qed.

Lemma scanDigits_nonneg base : forall s acc v,
  0 <= base -> 0 <= acc -> scanDigits base acc s = Some v -> 0 <= v.
Proof.
  induction s as [|c s IH]; intros acc v Hb Ha H; simpl in H.
  - injection H as <-. exact Ha.
  - destruct (digitValue c <? base); [|discriminate].
    apply IH in H; [exact H | exact Hb |].
    assert (0 <= digitValue c); [|nia].
    unfold digitValue. cbv zeta.
    repeat match goal with |- context [if ?b then _ else _] => destruct b eqn:? end; lia.
Qed.

Lemma scanDigits_all base : forall s acc,
  allDigits base s = true -> exists v, scanDigits base acc s = Some v.
Proof.
  induction s as [|c s IH]; intros acc H; simpl in *.
  - eexists; reflexivity.
  - apply andb_prop in H as [H1 H2]. rewrite H1. apply IH, H2.
Qed.

(** X11. Leading zeros change nothing, and do not make a numeral octal: a
    non-empty string of decimal digits parses to a number that is not
    negative, and to the same number with a zero put in front; likewise a
    zero put after the prefix 0x of a hexadecimal numeral changes nothing. *)
Theorem ParseBig_leading_zeros d h :
  allDigits 10 d = true -> d <> "" ->
  allDigits 16 h = true -> h <> "" ->
  ParseBig ("0" +:+ d) = ParseBig d
  /\ ParseBig ("0x0" +:+ h) = ParseBig ("0x" +:+ h)
  /\ exists v, 0 <= v /\ ParseBig d = Some v.
Proof.
  intros Hd Hdne Hh Hhne.
  destruct d as [|c r]; [contradiction|]. destruct h as [|c' r']; [contradiction|].
  cbn [allDigits] in Hd, Hh.
  apply andb_prop in Hd as [Hc Hr]. apply andb_prop in Hh as [Hc' Hr'].
  apply Z.ltb_lt in Hc, Hc'.
  destruct (scanDigits_all 10 (String c r) 0) as [v Hv].
  { cbn [allDigits]. rewrite Hr. apply Z.ltb_lt in Hc. rewrite Hc. reflexivity. }
  assert (Hp : ParseBig (String c r) = Some v).
  { apply ParseBig_decimal. rewrite SetString_unsigned by lia. exact Hv. }
  split; [|split].
  - rewrite Hp. apply ParseBig_decimal.
    change ("0" +:+ String c r) with (String "0" (String c r)).
    rewrite SetString_unsigned by (try change (digitValue "0") with 0; lia).
    exact Hv.
  - rewrite (ParseBig_hex "0x" (String c' r')) by (left; reflexivity).
    change ("0x0" +:+ String c' r') with ("0x" +:+ String "0" (String c' r')).
    rewrite (ParseBig_hex "0x") by (left; reflexivity).
    rewrite !SetString_unsigned by (try change (digitValue "0") with 0; lia).
    reflexivity.
  - exists v. split; [|exact Hp].
    apply (scanDigits_nonneg 10 (String c r) 0 v); [lia | lia | exact Hv].
Qed.

(** X12. A sign goes after the prefix 0x, not before it: for a non-empty
    string [h] of hexadecimal digits, 0x followed by [h] parses to a number
    [v] that is not negative, 0x- followed by [h] parses to [- v], and -0x
    followed by [h] is refused. *)
Theorem ParseBig_hex_sign h :
  allDigits 16 h = true -> h <> "" ->
  exists v, 0 <= v
    /\ ParseBig ("0x" +:+ h) = Some v
    /\ ParseBig ("0x-" +:+ h) = Some (- v)
    /\ ParseBig ("-0x" +:+ h) = None.
Proof.
  intros Hh Hne. destruct h as [|c r]; [contradiction|].
  destruct (scanDigits_all 16 (String c r) 0 Hh) as [v Hv].
  cbn [allDigits] in Hh. apply andb_prop in Hh as [Hc Hr]. apply Z.ltb_lt in Hc.
  exists v. split; [|split; [|split]].
  - apply (scanDigits_nonneg 16 (String c r) 0 v); [lia | lia | exact Hv].
  - rewrite (ParseBig_hex "0x") by (left; reflexivity).
    rewrite SetString_unsigned by lia. exact Hv.
  - change ("0x-" +:+ String c r) with ("0x" +:+ String "-" (String c r)).
    rewrite (ParseBig_hex "0x") by (left; reflexivity).
    rewrite SetString_minus, Hv. reflexivity.
  - reflexivity.
Qed.

(** *** The package's tests *)

Example TestParseBig :
  ParseBig <$> [""; "0"; "0x0"; "12345678"; "0x12345678"; "0X12345678";
                "0123456789"; "00"; "0x00"; "0x012345678abc"; "abcdef"; "0xgg"]
  = [Some 0; Some 0; Some 0; Some 12345678; Some 305419896; Some 305419896;
     Some 123456789; Some 0; Some 0; Some 1250999896764; None; None].
Proof. reflexivity. Qed.

Example TestMustParseBig : MustParseBig "ggg" = inr "invalid integer: ggg".
Proof. reflexivity. Qed.

Example TestFirstBitSet : FirstBitSet <$> [0; 1; 2; 256] = [0; 0; 1; 8].
Proof. reflexivity. Qed.

Example TestPaddedBigBytes :
  fromByte <$> PaddedBigBytes 0 4 = [0; 0; 0; 0]
  /\ fromByte <$> PaddedBigBytes 1 4 = [0; 0; 0; 1]
  /\ fromByte <$> PaddedBigBytes 512 4 = [0; 0; 2; 0]
  /\ fromByte <$> PaddedBigBytes (BigPow 2 32) 4 = [1; 0; 0; 0; 0].
Proof. repeat split; reflexivity. Qed.

Example TestU256 :
  U256 <$> [0; 1; BigPow 2 255; BigPow 2 256; BigPow 2 256 + 1; -1; -2;
            BigPow 2 (-255)]
  = [0; 1; BigPow 2 255; 0; 1; BigPow 2 256 - 1; BigPow 2 256 - 2; 1].
Proof. vm_compute. reflexivity. Qed.

Example TestS256 :
  S256 <$> [0; 1; 2; BigPow 2 255 - 1; BigPow 2 255; BigPow 2 256 - 1;
            BigPow 2 256 - 2]
  = [0; 1; 2; BigPow 2 255 - 1; - BigPow 2 255; -1; -2].
Proof. vm_compute. reflexivity. Qed.

Example TestExp :
  fst (Exp Word64 0 0) = 1 /\ fst (Exp Word64 1 0) = 1
  /\ fst (Exp Word64 1 1) = 1 /\ fst (Exp Word64 1 2) = 1
  /\ Some (fst (Exp Word64 3 144))
     = ParseBig "507528786056415600719754159741696356908742250191663887263627442114881"
  /\ Some (fst (Exp Word64 2 255))
     = ParseBig "57896044618658097711785492504343953926634992332820282019728792003956564819968".
Proof. vm_compute. repeat split; reflexivity. Qed.

End MathProofs.

(** * The JSON form of [Genesis] *)

Section GenesisProofs.
Context {ChainConfig GenesisAccount : Type}.
Implicit Types (g : @Core.Genesis ChainConfig GenesisAccount).

Lemma copyAlloc_id (m : gmap Z GenesisAccount) : Core.copyAlloc m = m.
Proof.
  unfold Core.copyAlloc.
  induction m as [|k v m Hk Hfold IH] using map_first_key_ind.
  - apply map_fold_empty.
  - rewrite map_fold_insert_first_key by assumption. rewrite IH. reflexivity.
Qed.

(** X24. The error of [UnmarshalJSON]: the error of the JSON decoder if it
    fails; otherwise the first of gasLimit, difficulty and alloc, in this
    order, that the input lacks is reported as a missing required field; with
    all three present there is no error, whatever else is missing. *)
Theorem UnmarshalJSON_error
    (jsonUnmarshal : list byte -> string + @Core.GenesisDec ChainConfig GenesisAccount)
    g (input : list byte) :
  snd (Core.UnmarshalJSON jsonUnmarshal g input)
  = match jsonUnmarshal input with
    | inl err => Some err
    | inr dec =>
        match Core.decGasLimit dec, Core.decDifficulty dec, Core.decAlloc dec with
        | None, _, _ => Some "missing required field 'gasLimit' for Genesis"
        | Some _, None, _ => Some "missing required field 'difficulty' for Genesis"
        | Some _, Some _, None => Some "missing required field 'alloc' for Genesis"
        | Some _, Some _, Some _ => None
        end
    end.
Proof.
  unfold Core.UnmarshalJSON.
  destruct (jsonUnmarshal input) as [err | dec]; [reflexivity|].
  destruct (Core.decGasLimit dec); [|reflexivity].
  destruct (Core.decDifficulty dec); [|reflexivity].
  destruct (Core.decAlloc dec); reflexivity.
Qed.

(** X25. A failed [UnmarshalJSON] is not without effect: when the input has
    gasLimit and difficulty but no alloc, the call returns an error and the
    receiver already holds the decoded gasLimit and difficulty and every
    decoded nonce, timestamp, mixHash and coinbase, while its alloc, number,
    gasUsed and parentHash are the old ones, also where the input gives new
    ones. *)
Theorem UnmarshalJSON_not_atomic
    (jsonUnmarshal : list byte -> string + @Core.GenesisDec ChainConfig GenesisAccount)
    g (input : list byte) dec gasLimit difficulty :
  jsonUnmarshal input = inr dec ->
  Core.decGasLimit dec = Some gasLimit ->
  Core.decDifficulty dec = Some difficulty ->
  Core.decAlloc dec = None ->
  let g' := fst (Core.UnmarshalJSON jsonUnmarshal g input) in
  snd (Core.UnmarshalJSON jsonUnmarshal g input) <> None
  /\ Core.GasLimit g' = gasLimit
  /\ Core.Difficulty g' = Some difficulty
  /\ Core.Nonce g' = default (Core.Nonce g) (Core.decNonce dec)
  /\ Core.Timestamp g' = default (Core.Timestamp g) (Core.decTimestamp dec)
  /\ Core.Mixhash g' = default (Core.Mixhash g) (Core.decMixhash dec)
  /\ Core.Coinbase g' = default (Core.Coinbase g) (Core.decCoinbase dec)
  /\ Core.Alloc g' = Core.Alloc g
  /\ Core.Number g' = Core.Number g
  /\ Core.GasUsed g' = Core.GasUsed g
  /\ Core.ParentHash g' = Core.ParentHash g.
Proof.
  intros Hj Hg Hd Ha. cbv zeta. unfold Core.UnmarshalJSON.
  rewrite Hj, Hg, Hd, Ha. cbn.
  repeat split; try discriminate;
    repeat match goal with |- context [match ?x with _ => _ end] => destruct x end;
    reflexivity.
Qed.

(** X26. With gasLimit, difficulty and alloc present [UnmarshalJSON]
    succeeds; the receiver then holds these three as decoded -- the alloc
    replaces the old one, it is not merged into it -- and decoding the same
    input into the result once more changes nothing. *)
Theorem UnmarshalJSON_success
    (jsonUnmarshal : list byte -> string + @Core.GenesisDec ChainConfig GenesisAccount)
    g (input : list byte) dec gasLimit difficulty alloc :
  jsonUnmarshal input = inr dec ->
  Core.decGasLimit dec = Some gasLimit ->
  Core.decDifficulty dec = Some difficulty ->
  Core.decAlloc dec = Some alloc ->
  let g' := fst (Core.UnmarshalJSON jsonUnmarshal g input) in
  Core.UnmarshalJSON jsonUnmarshal g input = (g', None)
  /\ Core.GasLimit g' = gasLimit
  /\ Core.Difficulty g' = Some difficulty
  /\ Core.Alloc g' = Some alloc
  /\ Core.UnmarshalJSON jsonUnmarshal g' input = (g', None).
Proof.
  intros Hj Hg Hd Ha. cbv zeta. unfold Core.UnmarshalJSON.
  rewrite Hj, Hg, Hd, Ha. cbn [fst snd Core.GasLimit Core.Difficulty Core.Alloc].
  rewrite copyAlloc_id.
  split; [reflexivity|]. split; [reflexivity|]. split; [reflexivity|].
  split; [reflexivity|].
  cbn. f_equal.
  destruct (Core.decConfig dec), (Core.decNonce dec), (Core.decTimestamp dec),
    (Core.decExtraData dec), (Core.decMixhash dec), (Core.decCoinbase dec),
    (Core.decNumber dec), (Core.decGasUsed dec), (Core.decParentHash dec);
    reflexivity.
Qed.

End GenesisProofs.

(** * The dashboard's [appender] *)

Section DashboardProofs.

Import Dashboard.

Lemma appender_positive {A} (limit : Z) (prev update : list A) :
  0 < limit ->
  appender limit prev update
  = drop (length (prev ++ update) - Z.to_nat limit) (prev ++ update).
Proof.
  intros Hl. unfold appender, slice. cbv zeta.
  destruct (Z.ltb_spec (- limit) 0) as [_ | H]; [|lia].
  f_equal. lia.
Qed.

(** X27. For a limit above 0, [appender] returns the last [limit] elements
    of the old array followed by the update: the result is a suffix of the
    two concatenated, of length [min(limit, |prev| + |update|)], and an
    update of [limit] elements or more pushes out every old element. *)
Theorem appender_bound {A} (limit : Z) (prev update : list A) :
  0 < limit ->
  Z.of_nat (length (appender limit prev update))
  = Z.min limit (Z.of_nat (length prev + length update))
  /\ (exists dropped, prev ++ update = dropped ++ appender limit prev update)
  /\ (limit <= Z.of_nat (length update) ->
      appender limit prev update = appender limit [] update).
Proof.
  intros Hl. rewrite !appender_positive by exact Hl. split; [|split].
  - rewrite length_drop, length_app. lia.
  - exists (take (length (prev ++ update) - Z.to_nat limit) (prev ++ update)).
    symmetry. apply take_drop.
  - intros Hu. rewrite length_app. cbn [app length].
    rewrite drop_app_ge by lia. f_equal. lia.
Qed.

(** X28. A limit of 0 does not empty the array: [slice(-0)] is [slice(0)],
    so [appender 0] keeps every element of the old array and of the update;
    a negative limit drops that many elements from the front instead. *)
Theorem appender_nonpositive {A} (limit : Z) (prev update : list A) :
  limit <= 0 ->
  appender limit prev update = drop (Z.to_nat (- limit)) (prev ++ update)
  /\ (limit = 0 -> appender limit prev update = prev ++ update).
Proof.
  intros Hl. unfold appender, slice. cbv zeta.
  destruct (Z.ltb_spec (- limit) 0) as [H | _]; [lia|].
  split.
  - destruct (Z.min_spec (- limit) (Z.of_nat (length (prev ++ update))))
      as [[_ ->] | [Hge ->]]; [reflexivity|].
    rewrite Nat2Z.id. rewrite !drop_ge; [reflexivity | lia | lia].
  - intros ->. change (- 0) with 0. rewrite Z.min_l by lia. reflexivity.
Qed.

(** X29. Appending two updates one after the other gives the array that
    appending their concatenation gives. *)
Theorem appender_compose {A} (limit : Z) (prev u1 u2 : list A) :
  0 < limit ->
  appender limit (appender limit prev u1) u2 = appender limit prev (u1 ++ u2).
Proof.
  intros Hl. rewrite !appender_positive by exact Hl.
  set (n := Z.to_nat limit). assert (Hn : (0 < n)%nat) by lia.
  rewrite (assoc_L (++) prev u1 u2).
  set (l := prev ++ u1).
  rewrite !length_app, length_drop.
  destruct (Nat.le_gt_cases (length l) n) as [Hle | Hgt].
  - replace (length l - n)%nat with 0%nat by lia. rewrite drop_0.
    f_equal. lia.
  - destruct (Nat.le_gt_cases n (length u2)) as [Hu | Hu].
    + rewrite !drop_app_ge by (try rewrite length_drop; lia).
      rewrite length_drop. f_equal. lia.
    + rewrite !drop_app_le by (try rewrite length_drop; lia).
      rewrite drop_drop. f_equal. f_equal. lia.
Qed.

End DashboardProofs.

(** * Instances of the properties and inputs on which claims fail *)

#[local] Existing Instance Demo.ext.

(** The scenarios of the state machine's tests, run on the model. *)

(** [TestSetField]: a field set before any flag is not kept; set after a
    flag it is; a value of another type is refused. *)
Example TestSetField :
  let ns := Start (NewNodeStateMachine ∅ (testSetup [true] [TString])) in
  let ns1 := fst (SetField ns 1 0 (Some (FvString "hello world"))) in
  let ns2 := SetState ns1 0 1 1 0 0 in
  let ns3 := fst (SetField ns2 1 0 (Some (FvString "hello world"))) in
  GetField ns1 1 0 = None
  /\ GetField ns3 1 0 = Some (FvString "hello world")
  /\ snd (SetField ns3 1 0 (Some (FvInt 123))) = Some errInvalidField.
Proof. cbv zeta. repeat split; reflexivity. Qed.

(** [TestUnsetField]: clearing the last flag drops the field. *)
Example TestUnsetField :
  let ns := Start (NewNodeStateMachine ∅ (testSetup [false] [TString])) in
  let ns1 := SetState ns 0 1 1 0 second in
  let ns2 := fst (SetField ns1 1 0 (Some (FvString "hello world"))) in
  GetField ns2 1 0 = Some (FvString "hello world")
  /\ GetField (SetState ns2 0 1 0 1 0) 1 0 = None.
Proof. cbv zeta. repeat split; reflexivity. Qed.

(** [TestPersistentFields]: both fields survive a restart under the same
    setup, and under the second setup with the registrations swapped. *)
Example TestPersistentFields :
  let db := ns_db (Stop Demo.testMachine) in
  let ns2 := Start (NewNodeStateMachine db Demo.testSetup1) in
  let ns3 := Start (NewNodeStateMachine db Demo.testSetup3) in
  Demo.testMachine
  = {| ns_setup := Demo.testSetup1; ns_nodes := {[ 1 := Demo.testNode ]};
       ns_dirty := ∅; ns_db := ∅; ns_stopped := false |}
  /\ GetField ns2 1 0 = Some (FvUint64 100)
  /\ GetField ns2 1 1 = Some (FvString "hello world")
  /\ snd (regSetup Demo.testSetup3) = [0; 1; 2]
  /\ GetField ns3 1 1 = Some (FvUint64 100)
  /\ GetField ns3 1 0 = Some (FvString "hello world").
Proof. cbv zeta. repeat split; reflexivity. Qed.

(** C9, at a pool whose value tracker knows no node. *)
Lemma C9_witness :
  vt_GetNode (sp_vt (Demo.pool 8 (Demo.history F64.one F64.one) ∅ 0)) 1 = None
  /\ calculateNode (Demo.pool 8 (Demo.history F64.one F64.one) ∅ 0) 0 0 0 1 true false
     = ((0, 0), Demo.pool 8 (Demo.history F64.one F64.one) ∅ 0).
Proof.
  split; [reflexivity|].
  apply (C9_no_tracker_entry _ 0 0 0 1 true false). reflexivity.
Defined.



(** C2, where it fails: the stored wait factor is not a number.  After the
    failed dial the record written back holds a wait factor that is not a
    number either, and so is not at least 1. *)
Lemma C2_counterexample :
  let s := Demo.pool 1 (Demo.history F64.one S754_nan) {[ 1 := Demo.statsOf 7 ]} 0 in
  let s' := snd (calculateNode s 0 0 0 1 true false) in
  vt_GetNode (sp_vt s) 1 = Some (Demo.statsOf 7)
  /\ nh_waitFactor (readNodeHistory s 1) = S754_nan
  /\ nh_waitFactor (readNodeHistory s' 1) = S754_nan
  /\ F64.leb F64.one (nh_waitFactor (readNodeHistory s' 1)) = false.
Proof.
  cbv zeta. split; [reflexivity|]. split; [reflexivity|].
  split; vm_compute; reflexivity.
Qed.

(** C2 (amended), at a stored wait factor of -3 and a failed dial. *)
Lemma C2_witness :
  F64.leb F64.one
    (nh_waitFactor
       (cr_n (calculateNode_body
                (Demo.pool 8 (Demo.history F64.one (F64.of_Z (-3)))
                           {[ 1 := Demo.statsOf 7 ]} 0)
                0 0 0 1 (Demo.statsOf 7) true false)))
  = true.
Proof.
  refine (proj1 (proj2 (proj2 (proj2
            (C2_waitFactor (Demo.pool 8 (Demo.history F64.one (F64.of_Z (-3)))
                                      {[ 1 := Demo.statsOf 7 ]} 0)
                           0 0 0 1 (Demo.statsOf 7) true false _ _)))) _ _);
    reflexivity.
Defined.

(** C3, at a connected peer with total value 1: weight 100, so the node ends
    with [redialWait] and [hasValue] set and is marked for persistence. *)
Lemma C3_witness :
  nodeState (sp_ns (unregisterPeer
                      (Demo.pool 8 (Demo.history F64.one F64.zero)
                                 {[ 1 := Demo.statsOf 1 ]} 0)
                      {| now_lo := 0; now_to := 0; now_w := 0 |} 0 1)) 1
  = 17
  /\ Z.land (nodeState (sp_ns (unregisterPeer
                                 (Demo.pool 8 (Demo.history F64.one F64.zero)
                                            {[ 1 := Demo.statsOf 1 ]} 0)
                                 {| now_lo := 0; now_to := 0; now_w := 0 |} 0 1)) 1)
            stRedialWait
     = stRedialWait.
Proof.
  split; [vm_compute; reflexivity|].
  eapply (C3_unregisterPeer (Demo.pool 8 (Demo.history F64.one F64.zero)
                                       {[ 1 := Demo.statsOf 1 ]} 0)
                            {| now_lo := 0; now_to := 0; now_w := 0 |} 0 1).
  - reflexivity.
  - reflexivity.
  - reflexivity.
  - discriminate.
Defined.

(** C4, where it fails: the first call is made at clock reading 0 and caches
    500ms; one second later the statistics ask for one second, and the second
    call recomputes instead of answering 500ms from the cache. *)
Lemma C4_counterexample :
  let s0 := Demo.pool 8 (Demo.history F64.one F64.zero) ∅ 0 in
  let s1 := snd (getTimeout s0 0) in
  let vt2 := {| Demo.nodes := ∅;
                Demo.global := {| Demo.value := F64.zero;
                                  Demo.timeout10 := second;
                                  Demo.timeout50 := 0 |};
                Demo.logOffset := 0 |} in
  fst (getTimeout s0 0) = minTimeout
  /\ sp_timeout s1 = minTimeout
  /\ wrap64 (second - 0) < timeoutRefresh
  /\ fst (getTimeout (set_vt s1 vt2) second) = second.
Proof. vm_compute. repeat split; reflexivity. Qed.

(** C4 (amended), at a refresh recorded one second ago. *)
Lemma C4_witness :
  getTimeout (Demo.pool 8 (Demo.history F64.one F64.zero) ∅ 1) (1 + second)
  = (500000000, Demo.pool 8 (Demo.history F64.one F64.zero) ∅ 1).
Proof.
  apply (proj1 (C4_getTimeout (Demo.pool 8 (Demo.history F64.one F64.zero) ∅ 1)
                              (1 + second))).
  - discriminate.
  - reflexivity.
Defined.



(** C6, where it fails: a trusted node gets [alwaysConnect] at start (line
    215), the queue selector emits it and sets [selected], and the dial
    filter sets [dialed] with an empty reset mask (line 188): the node holds
    [selected] and [dialed] together. *)
Lemma C6_counterexample :
  ~ (forall st, reachable st -> selectedExclusive st).
Proof.
  intros H.
  assert (reachable 38) as Hr.
  { apply (reach_step 34 (updateState 34 stDialed 0)).
    - apply (reach_step 32 (updateState 32 stSelected 0)).
      + apply (reach_step 0 (updateState 0 stAlwaysConnect 0)).
        * apply reach_init.
        * apply step_pool, pc_trusted.
      + apply step_selectTrusted. split; reflexivity.
    - apply step_pool, pc_dialFilter. }
  specialize (H 38 Hr). unfold selectedExclusive in H.
  assert (Z.land 38 stSelected <> 0) as Hs by (vm_compute; discriminate).
  specialize (H Hs). vm_compute in H. discriminate H.
Qed.

(** C6 (amended), at a trusted node that holds only [alwaysConnect]. *)
Lemma C6_witness : selectedExclusive (updateState 32 stSelected 0).
Proof.
  apply (proj1 C6_selected_flag stAlwaysConnect 32). split; reflexivity.
Defined.

(** C7, where it fails: a [nodeHistory] with total value 1 and the timeout
    495ms comes back from a restart under the same setup with both zeroed
    (only [dialCost], [waitFactor] and [waitUntil] are saved), and the
    persistent flag [hasValue] set with a timeout is not set after the
    restart. *)
Lemma C7_counterexample :
  let m := Demo.machine 1 (Demo.history F64.one F64.one) in
  let m' := Start (NewNodeStateMachine (ns_db (Stop m)) serverPoolSetup) in
  let t' := Start (NewNodeStateMachine (ns_db (Stop Demo.timedMachine)) serverPoolSetup) in
  GetField m 1 nodeHistoryField = Some (FvNodeHistory (Demo.history F64.one F64.one))
  /\ GetField m' 1 nodeHistoryField
     = Some (FvNodeHistory
               {| nh_dialCost := {| Base := 0; Exp := 0 |};
                  nh_waitUntil := 0;
                  nh_lastTimeout := 0;
                  nh_totalValue := F64.zero;
                  nh_waitFactor := F64.one |})
  /\ Z.land (nodeState Demo.timedMachine 1) stHasValue = stHasValue
  /\ Z.land (nodeState t' 1) stHasValue = 0.
Proof. cbv zeta. repeat split; reflexivity. Qed.

(** C7 (amended), at the restart of [TestPersistentFields]: the [uint64]
    field registered first, then second, reads 100 under its new index. *)
Lemma C7_witness :
  GetField (Start (NewNodeStateMachine (ns_db (Stop Demo.testMachine)) Demo.testSetup3))
           1 (FieldIndex Demo.testSetup3 Demo.testField0)
  = Some (FvUint64 100).
Proof.
  refine (proj2 (C7_restart Demo.testMachine Demo.testSetup3 1 Demo.testNode _ _ _)
                Demo.testField0 uint64FieldEnc uint64FieldDec (FvUint64 100)
                (Rlp.encode (RUint 100)) (FvUint64 100) _ _ _ _ _ _).
  - reflexivity.
  - change (NoDup ["field-0"; "field-1"]).
    apply (bool_decide_unpack _). reflexivity.
  - change (NoDup ["field-1"; "field-0"; "field-2"]).
    apply (bool_decide_unpack _). reflexivity.
  - change (Demo.testField0 ∈ [Demo.testField0; Demo.testField1]).
    apply list_elem_of_here.
  - change (Demo.testField0
            ∈ [Demo.testField1; Demo.testField0; NewField "field-2" TUint32]).
    apply list_elem_of_further, list_elem_of_here.
  - reflexivity.
  - reflexivity.
  - reflexivity.
  - reflexivity.
Defined.

(** C8, where it fails: a wait factor of 2^57 is not negative, the claimed
    decoding is [floor(2^57 * 256) / 256 = 2^57], yet [2^65] is no [uint64];
    here the conversion gives 2^63 and the record decodes with the wait
    factor 2^55. *)
Lemma C8_counterexample :
  let n := Demo.history F64.zero (F64.of_Z (2 ^ 57)) in
  F64.leb F64.zero (nh_waitFactor n) = true
  /\ F64.floor (F64.mul (nh_waitFactor n) F64.c256) = Some (2 ^ 65)
  /\ F64.div (F64.of_Z (2 ^ 65)) F64.c256 = F64.of_Z (2 ^ 57)
  /\ exists n',
      nodeHistoryDecode (fst (nodeHistoryEncode (FvNodeHistory n)))
      = (Some (FvNodeHistory n'), None)
      /\ nh_waitFactor n' = F64.of_Z (2 ^ 55).
Proof.
  cbv zeta. repeat split; try reflexivity.
  eexists. split; reflexivity.
Qed.

(** C8 (amended), at the wait factor 1.5, which is stored as 384. *)
Lemma C8_witness :
  exists enc,
    nodeHistoryEncode (FvNodeHistory (Demo.history F64.one (F64.div (F64.of_Z 3) F64.two)))
    = (enc, None)
    /\ nodeHistoryDecode enc
       = (Some (FvNodeHistory
                  {| nh_dialCost := {| Base := 0; Exp := 0 |};
                     nh_waitUntil := 0;
                     nh_lastTimeout := 0;
                     nh_totalValue := F64.zero;
                     nh_waitFactor := F64.div (F64.of_Z 384) F64.c256 |}),
          None).
Proof.
  refine (C8_nodeHistory_codec
            (Demo.history F64.one (F64.div (F64.of_Z 3) F64.two)) 384 _ _ _ _).
  - reflexivity.
  - lia.
  - cbn. lia.
  - reflexivity.
Defined.

(** C10, where it fails: the stored wait factor is 2^30.  The factor becomes
    2^31 and the product with [minRedialWait] is 21474836480000000000
    nanoseconds, which no [int64] holds; here the conversion gives -2^63, a
    wait far below 20 seconds. *)
Lemma C10_counterexample :
  let s := Demo.pool 8 (Demo.history F64.zero (F64.of_Z (2 ^ 30)))
                     {[ 1 := Demo.statsOf 0 ]} 0 in
  let r := calculateNode_body s 0 0 0 1 (Demo.statsOf 0) true false in
  nh_waitFactor (cr_n r) = F64.of_Z (2 ^ 31)
  /\ F64.trunc (F64.mul minRedialWait_f (nh_waitFactor (cr_n r)))
     = Some 21474836480000000000
  /\ 2 ^ 63 <= 21474836480000000000
  /\ cr_wait r = - 2 ^ 63
  /\ snd (fst (calculateNode s 0 0 0 1 true false)) < 2 * minRedialWait.
Proof. vm_compute. repeat split; reflexivity || discriminate. Qed.

(** C10 (amended), at a first failed dial: factor 2, wait 20 seconds. *)
Lemma C10_witness :
  snd (fst (calculateNode
              (Demo.pool 8 (Demo.history F64.zero F64.zero) {[ 1 := Demo.statsOf 0 ]} 0)
              0 0 0 1 true false))
  = 20000000000
  /\ 2 * minRedialWait <= 20000000000.
Proof.
  refine (proj2 (proj2 (proj2
            (C10_failed_connection
               (Demo.pool 8 (Demo.history F64.zero F64.zero) {[ 1 := Demo.statsOf 0 ]} 0)
               0 0 0 1 (Demo.statsOf 0) _ _ _ _))) 20000000000 _ _).
  - reflexivity.
  - reflexivity.
  - reflexivity.
  - reflexivity.
  - vm_compute. reflexivity.
  - lia.
Defined.

(** ** The further properties at concrete inputs *)

(** X2, at -1. *)
Lemma S256_U256_witness : Math.S256 (Math.U256 (-1)) = -1.
Proof. apply (S256_U256 (-1)). lia. Defined.

(** X3, at 2^256 - 1. *)
Lemma U256_S256_witness :
  Math.U256 (Math.S256 (2 ^ 256 - 1)) = 2 ^ 256 - 1
  /\ - 2 ^ 255 <= Math.S256 (2 ^ 256 - 1) < 2 ^ 255.
Proof. apply (U256_S256 (2 ^ 256 - 1)). lia. Defined.

(** X6, at -256. *)
Lemma FirstBitSet_lowest_witness :
  Z.testbit (-256) (Math.FirstBitSet (-256)) = true
  /\ 0 <= Math.FirstBitSet (-256) < Math.BitLen (-256)
  /\ forall j, 0 <= j < Math.FirstBitSet (-256) -> Z.testbit (-256) j = false.
Proof. apply (FirstBitSet_lowest (-256)). discriminate. Defined.

(** X8, at 512 in 4 bytes. *)
Lemma PaddedBigBytes_fixed_width_witness :
  Math.PaddedBigBytes 512 4
  = replicate (Z.to_nat 4 - length (Math.Bytes 512)) x00 ++ Math.Bytes 512
  /\ Z.of_nat (length (Math.PaddedBigBytes 512 4)) = 4
  /\ Math.SetBytes (Math.PaddedBigBytes 512 4) = Z.abs 512.
Proof. apply (PaddedBigBytes_fixed_width 512 4); [lia | reflexivity]. Defined.

(** X11, at the numerals of the package's tests. *)
Lemma ParseBig_leading_zeros_witness :
  Math.ParseBig ("0" +:+ "123456789") = Math.ParseBig "123456789"
  /\ Math.ParseBig ("0x0" +:+ "12345678abc") = Math.ParseBig ("0x" +:+ "12345678abc")
  /\ exists v, 0 <= v /\ Math.ParseBig "123456789" = Some v.
Proof.
  apply (ParseBig_leading_zeros "123456789" "12345678abc");
    [reflexivity | discriminate | reflexivity | discriminate].
Defined.

(** X12, at ff. *)
Lemma ParseBig_hex_sign_witness :
  exists v, 0 <= v
    /\ Math.ParseBig ("0x" +:+ "ff") = Some v
    /\ Math.ParseBig ("0x-" +:+ "ff") = Some (- v)
    /\ Math.ParseBig ("-0x" +:+ "ff") = None.
Proof. apply (ParseBig_hex_sign "ff"); [reflexivity | discriminate]. Defined.

(** X14, at an empty store. *)
Lemma start_without_clock_witness :
  startClock ∅ (dbClockKey "pool") 5 = (0, wrap64 (- 5))
  /\ poolTime (set_clockOffset (Demo.pool 8 (Demo.history F64.one F64.zero) ∅ 0)
                               (snd (startClock ∅ (dbClockKey "pool") 5))) 5
     = 0.
Proof.
  apply (start_without_clock (Demo.pool 8 (Demo.history F64.one F64.zero) ∅ 0)
                             ∅ (dbClockKey "pool") 5).
  discriminate.
Defined.

(** X15, at a pool whose cache holds 500ms. *)
Lemma getTimeout_cache_witness :
  timeoutCached (snd (getTimeout (Demo.pool 8 (Demo.history F64.one F64.zero) ∅ 1)
                                 (1 + second)))
  /\ fst (getTimeout (Demo.pool 8 (Demo.history F64.one F64.zero) ∅ 1) (1 + second))
     = sp_timeout (snd (getTimeout (Demo.pool 8 (Demo.history F64.one F64.zero) ∅ 1)
                                   (1 + second)))
  /\ minTimeout
     <= fst (getTimeout (Demo.pool 8 (Demo.history F64.one F64.zero) ∅ 1) (1 + second)).
Proof.
  apply (getTimeout_cache (Demo.pool 8 (Demo.history F64.one F64.zero) ∅ 1)
                          (1 + second)).
  right. split; [reflexivity | discriminate].
Defined.

(** X18, at a connected node with total value 1: weight 100. *)
Lemma stopNode_flags_witness :
  let s := Demo.pool 8 (Demo.history F64.one F64.zero) {[ 1 := Demo.statsOf 1 ]} 0 in
  let c := {| now_lo := 0; now_to := 0; now_w := 0 |} in
  let wt := fst (fst (calculateNode s (now_lo c) (now_to c) (now_w c) 1 false false)) in
  let ns' := sp_ns (stopNode s c 0 1) in
  nodeState ns' 1
  = (if wt >=? nodeWeightThreshold then Z.lor (nodeState (sp_ns s) 1) stHasValue
     else nodeState (sp_ns s) 1)
  /\ (forall j, j <> 1 -> nodeState ns' j = nodeState (sp_ns s) j)
  /\ ns_dirty ns'
     = (if wt >=? nodeWeightThreshold then ns_dirty (sp_ns s) ∪ {[ 1 ]}
        else ns_dirty (sp_ns s))
  /\ (1 ∈ ns_dirty ns' <-> nodeWeightThreshold <= wt \/ 1 ∈ ns_dirty (sp_ns s)).
Proof.
  apply (stopNode_flags
           (Demo.pool 8 (Demo.history F64.one F64.zero) {[ 1 := Demo.statsOf 1 ]} 0)
           {| now_lo := 0; now_to := 0; now_w := 0 |} 0 1).
  reflexivity.
Defined.

(** X19, at a dialed node. *)
Lemma registerPeer_connected_witness :
  let s := Demo.pool 4 (Demo.history F64.one F64.zero) {[ 1 := Demo.statsOf 1 ]} 0 in
  let s' := registerPeer s 0 1 in
  let st' := nodeState (sp_ns s') 1 in
  st' = updateState (nodeState (sp_ns s) 1) stConnected stDialed
  /\ Z.land st' stConnected = stConnected
  /\ Z.land st' stDialed = 0
  /\ GetField (sp_ns s') 1 connStatsField
     = Some (FvStats (snd (vt_Register (sp_vt s) 1)))
  /\ sp_vt s' = fst (vt_Register (sp_vt s) 1)
  /\ (forall j, j <> 1 -> nodeState (sp_ns s') j = nodeState (sp_ns s) j).
Proof.
  apply (registerPeer_connected
           (Demo.pool 4 (Demo.history F64.one F64.zero) {[ 1 := Demo.statsOf 1 ]} 0)
           0 1); reflexivity.
Defined.

(** X20, at a node with [hasValue] whose wait ends 5 ns after the persisted
    clock. *)
Lemma startKnown_resumes_witness :
  let s := Demo.pool 1 (Demo.history F64.one F64.zero) ∅ 0 in
  let s' := startKnown s 100 (-5) 1 in
  let deadline := wrap64 (100 + (0 - -5)) in
  nodeState (sp_ns s') 1 = Z.lor (nodeState (sp_ns s) 1) stRedialWait
  /\ (stRedialWait, deadline) ∈ nodeTimeouts (sp_ns s') 1
  /\ poolTime (set_clockOffset s' (wrap64 (-5 - 100))) deadline = wrap64 0.
Proof.
  apply (startKnown_resumes (Demo.pool 1 (Demo.history F64.one F64.zero) ∅ 0)
                            100 (-5) 1 (Demo.history F64.one F64.zero));
    reflexivity.
Defined.


(** X23, at 100 under the codec of the sample collaborators. *)
Lemma uint64Field_codec_witness :
  uint64FieldDec (fst (uint64FieldEnc (FvUint64 100))) = (Some (FvUint64 100), None)
  /\ snd (uint64FieldEnc (FvUint64 100)) = None
  /\ forall v, typeOf v <> TUint64 -> uint64FieldEnc v = ([], Some errInvalidField).
Proof. apply (uint64Field_codec 100). reflexivity. Defined.

(** X25, at an input without alloc. *)
Lemma UnmarshalJSON_not_atomic_witness :
  let g' := fst (Core.UnmarshalJSON (Samples.jsonUnmarshal None) Samples.genesis []) in
  snd (Core.UnmarshalJSON (Samples.jsonUnmarshal None) Samples.genesis []) <> None
  /\ Core.GasLimit g' = 5000
  /\ Core.Difficulty g' = Some 17
  /\ Core.Nonce g' = default (Core.Nonce Samples.genesis)
                             (Core.decNonce (Samples.decoded None))
  /\ Core.Timestamp g' = default (Core.Timestamp Samples.genesis)
                                 (Core.decTimestamp (Samples.decoded None))
  /\ Core.Mixhash g' = default (Core.Mixhash Samples.genesis)
                               (Core.decMixhash (Samples.decoded None))
  /\ Core.Coinbase g' = default (Core.Coinbase Samples.genesis)
                                (Core.decCoinbase (Samples.decoded None))
  /\ Core.Alloc g' = Core.Alloc Samples.genesis
  /\ Core.Number g' = Core.Number Samples.genesis
  /\ Core.GasUsed g' = Core.GasUsed Samples.genesis
  /\ Core.ParentHash g' = Core.ParentHash Samples.genesis.
Proof.
  apply (UnmarshalJSON_not_atomic (Samples.jsonUnmarshal None) Samples.genesis []
                                  (Samples.decoded None) 5000 17); reflexivity.
Defined.

(** X26, at an input with an alloc of one account. *)
Lemma UnmarshalJSON_success_witness :
  let j := Samples.jsonUnmarshal (Some {[ 20 := 30 ]}) in
  let g' := fst (Core.UnmarshalJSON j Samples.genesis []) in
  Core.UnmarshalJSON j Samples.genesis [] = (g', None)
  /\ Core.GasLimit g' = 5000
  /\ Core.Difficulty g' = Some 17
  /\ Core.Alloc g' = Some {[ 20 := 30 ]}
  /\ Core.UnmarshalJSON j g' [] = (g', None).
Proof.
  apply (UnmarshalJSON_success (Samples.jsonUnmarshal (Some {[ 20 := 30 ]}))
                               Samples.genesis [] (Samples.decoded (Some {[ 20 := 30 ]}))
                               5000 17 {[ 20 := 30 ]}); reflexivity.
Defined.

(** X27, at a limit of 2. *)
Lemma appender_bound_witness :
  Z.of_nat (length (Dashboard.appender 2 [1; 2] [3]))
  = Z.min 2 (Z.of_nat (length [1; 2] + length [3]))
  /\ (exists dropped, [1; 2] ++ [3] = dropped ++ Dashboard.appender 2 [1; 2] [3])
  /\ (2 <= Z.of_nat (length [3]) ->
      Dashboard.appender 2 [1; 2] [3] = Dashboard.appender 2 [] [3]).
Proof. apply (appender_bound 2 [1; 2] [3]). lia. Defined.

(** X28, at a limit of 0. *)
Lemma appender_nonpositive_witness :
  Dashboard.appender 0 [1; 2] [3] = drop (Z.to_nat (- 0)) ([1; 2] ++ [3])
  /\ (0 = 0 -> Dashboard.appender 0 [1; 2] [3] = [1; 2] ++ [3]).
Proof. apply (appender_nonpositive 0 [1; 2] [3]). lia. Defined.

(** X29, at a limit of 2. *)
Lemma appender_compose_witness :
  Dashboard.appender 2 (Dashboard.appender 2 [1; 2] [3]) [4]
  = Dashboard.appender 2 [1; 2] ([3] ++ [4]).
Proof. apply (appender_compose 2 [1; 2] [3] [4]). lia. Defined.
